(** * Tag embedding and extraction of spotdl ([spotdl/utils/metadata.py])

    A shallow embedding of the module that writes a song record into the
    tags of an audio file and reads it back, for the four container
    families it knows (MP3, M4A, FLAC, OGG/Opus), and the properties of its
    tables, its writer, its reader and its cover embedder.

    The module is dynamically typed and lives on top of a tag library, so
    the development has three layers:
    - [Py]: the fragment of Python the module uses (values, exceptions,
      text, [int], [str], [len], subscripts, attributes);
    - [Mutagen]: the tag library as the module sees it (a handle is a store
      from native keys to values, loaded from and saved to a disk);
    - the module itself: its tables, [embed_metadata], [embed_cover] and
      [get_file_metadata], function by function. *)

From Stdlib Require Import ZArith Lia Bool Ascii String DecimalString DecimalPos.
From stdpp Require Import base option list gmap strings.

Open Scope Z_scope.

(* ================================================================= *)
(** * The Python fragment                                             *)
(* ================================================================= *)

Module Py.

(** Exceptions the module raises or lets through.  [NotModelled] is not a
    Python exception: it marks a run that leaves the fragment described
    here (see [str_], [int_] and [item]); no theorem relies on it. *)
Inductive exn :=
| MetadataError (msg : string)
| OSError (msg : string)
| MutagenError
| MP4MetadataValueError
| KeyError
| IndexError
| TypeError
| ValueError
| AttributeError
| UnicodeDecodeError
| NotModelled.

Inductive result (A : Type) :=
| Ok (a : A)
| Raise (e : exn).
Arguments Ok {A} a.
Arguments Raise {A} e.

#[global] Instance result_ret : MRet result := fun _ a => Ok a.
#[global] Instance result_bind : MBind result := fun _ _ f m =>
  match m with
  | Ok a => f a
  | Raise e => Raise e
  end.

#[global] Instance result_fmap : FMap result := fun _ _ f m =>
  match m with
  | Ok a => Ok (f a)
  | Raise e => Raise e
  end.

#[local] Set Warnings "-register-all".

(** Python values.  Text ([PStr]) is held in its UTF-8 encoding, so that a
    string literal of this file is the Python literal it stands for; an
    object is its class name and its attributes. *)
Inductive pyval :=
| PNone
| PBool (b : bool)
| PInt (n : Z)
| PStr (s : string)
| PBytes (s : string)
| PList (l : list pyval)
| PTuple (l : list pyval)
| PObj (cls : string) (attrs : list (string * pyval)).

(** ** Text *)

Definition byte_of (c : ascii) : Z := Z.of_N (N_of_ascii c).

(** A byte [10xxxxxx] continues the code point begun before it. *)
Definition is_cont (c : ascii) : bool :=
  match c with
  | Ascii _ _ _ _ _ _ b6 b7 => b7 && negb b6
  end.

Definition is_ascii (c : ascii) : bool :=
  match c with
  | Ascii _ _ _ _ _ _ _ b7 => negb b7
  end.

Fixpoint all_ascii (s : string) : bool :=
  match s with
  | EmptyString => true
  | String c r => is_ascii c && all_ascii r
  end.

(** A code point is a byte and the continuation bytes after it. *)
Fixpoint skip_cont (s : string) : string :=
  match s with
  | String c r => if is_cont c then skip_cont r else s
  | EmptyString => EmptyString
  end.

Fixpoint take_cont (s : string) : string :=
  match s with
  | String c r => if is_cont c then String c (take_cont r) else EmptyString
  | EmptyString => EmptyString
  end.

Fixpoint starts (s : string) : nat :=
  match s with
  | EmptyString => O
  | String c r => ((if is_cont c then 0 else 1) + starts r)%nat
  end.

(** [len(s)]: the number of code points. *)
Definition text_len (s : string) : nat :=
  match s with
  | EmptyString => O
  | String _ r => S (starts r)
  end.

(** [s[:n]]: the first [n] code points. *)
Fixpoint text_take (n : nat) (s : string) : string :=
  match n, s with
  | S n', String c r => String c (take_cont r +:+ text_take n' (skip_cont r))
  | _, _ => EmptyString
  end.

(** [s[n:]]: what is left after the first [n] code points. *)
Fixpoint text_drop (n : nat) (s : string) : string :=
  match n, s with
  | S n', String _ r => text_drop n' (skip_cont r)
  | _, _ => s
  end.

(** [s.split(sep)] for a separator of one ASCII character. *)
Fixpoint split (sep : ascii) (s : string) : list string :=
  match s with
  | EmptyString => [EmptyString]
  | String c r =>
      if Ascii.eqb c sep then EmptyString :: split sep r
      else match split sep r with
           | h :: t => String c h :: t
           | [] => [String c EmptyString]
           end
  end.

Fixpoint zeros (n : nat) : string :=
  match n with
  | O => EmptyString
  | S n' => String "0" (zeros n')
  end.

(** [s.zfill(width)]: zeros on the left up to [width], after a sign if the
    text starts with one. *)
Definition zfill (s : string) (width : nat) : string :=
  let pad := zeros (width - text_len s) in
  match s with
  | String c r =>
      if Ascii.eqb c "+" || Ascii.eqb c "-" then String c (pad +:+ r)
      else pad +:+ s
  | EmptyString => pad
  end.

(** [str(n)] of an integer. *)
Definition str_of_int (n : Z) : string := NilEmpty.string_of_int (Z.to_int n).

(** ** [int(text)] *)

Definition is_digit (c : ascii) : bool :=
  let b := byte_of c in (48 <=? b) && (b <=? 57).

(** The ASCII characters [int] strips: tab to carriage return, and the
    blank.  (The separators 28 to 31 are blanks for [str.strip], not for
    [int]: [int] takes the ASCII characters of a text as they are.) *)
Definition is_space (c : ascii) : bool :=
  let b := byte_of c in
  ((9 <=? b) && (b <=? 13)) || (b =? 32).

(** Digits, with single underscores between them. *)
Fixpoint digits_value (acc : Z) (after_digit : bool) (s : string) : option Z :=
  match s with
  | EmptyString => if after_digit then Some acc else None
  | String c r =>
      if is_digit c then digits_value (10 * acc + (byte_of c - 48)) true r
      else if Ascii.eqb c "_" then
        if after_digit then digits_value acc false r else None
      else None
  end.

Fixpoint lstrip (s : string) : string :=
  match s with
  | String c r => if is_space c then lstrip r else s
  | EmptyString => EmptyString
  end.

Fixpoint rstrip (s : string) : string :=
  match s with
  | EmptyString => EmptyString
  | String c r =>
      match rstrip r with
      | EmptyString => if is_space c then EmptyString else String c EmptyString
      | r' => String c r'
      end
  end.

Definition signed_value (s : string) : option Z :=
  match s with
  | String c r =>
      if Ascii.eqb c "-" then Z.opp <$> digits_value 0 false r
      else if Ascii.eqb c "+" then digits_value 0 false r
      else digits_value 0 false s
  | EmptyString => None
  end.

(** [int(s)] of a text in base ten.  Digits and blanks outside ASCII are
    outside the fragment. *)
Definition int_of_text (s : string) : result Z :=
  if all_ascii s then
    match signed_value (rstrip (lstrip s)) with
    | Some n => Ok n
    | None => Raise ValueError
    end
  else Raise NotModelled.

(** Texts made of digits only, and their value; texts without a given
    kind of character. *)
Fixpoint all_digits (s : string) : bool :=
  match s with
  | EmptyString => true
  | String c r => is_digit c && all_digits r
  end.

Fixpoint dec_value (acc : Z) (s : string) : Z :=
  match s with
  | EmptyString => acc
  | String c r => dec_value (10 * acc + (byte_of c - 48)) r
  end.

Fixpoint no_char (p : ascii → bool) (s : string) : bool :=
  match s with
  | EmptyString => true
  | String c r => negb (p c) && no_char p r
  end.

(** ** UTF-8 *)

Definition in_range (lo hi : Z) (c : ascii) : bool :=
  let b := byte_of c in (lo <=? b) && (b <=? hi).

(** Well-formed UTF-8, as the strict decoder accepts it: shortest forms
    only, no surrogates, nothing above U+10FFFF. *)
Fixpoint utf8_valid (s : string) : bool :=
  match s with
  | EmptyString => true
  | String a r =>
      if is_ascii a then utf8_valid r
      else match r with
      | String b r1 =>
          if in_range 194 223 a then in_range 128 191 b && utf8_valid r1
          else match r1 with
          | String c r2 =>
              if in_range 224 239 a then
                (if in_range 224 224 a then in_range 160 191 b
                 else if in_range 237 237 a then in_range 128 159 b
                 else in_range 128 191 b)
                && in_range 128 191 c && utf8_valid r2
              else match r2 with
              | String d r3 =>
                  in_range 240 244 a
                  && (if in_range 240 240 a then in_range 144 191 b
                      else if in_range 244 244 a then in_range 128 143 b
                      else in_range 128 191 b)
                  && in_range 128 191 c && in_range 128 191 d
                  && utf8_valid r3
              | EmptyString => false
              end
          | EmptyString => false
          end
      | EmptyString => false
      end
  end.

(** ** Operations on values *)

(** Truth value of [if v:]. *)
Definition truthy (v : pyval) : bool :=
  match v with
  | PNone => false
  | PBool b => b
  | PInt n => negb (n =? 0)
  | PStr s | PBytes s => negb (String.eqb s EmptyString)
  | PList l | PTuple l => match l with [] => false | _ => true end
  | PObj _ _ => true
  end.

Definition is_none (v : pyval) : bool :=
  match v with
  | PNone => true
  | _ => false
  end.

(** [len(v)]. *)
Definition len (v : pyval) : result nat :=
  match v with
  | PStr s => Ok (text_len s)
  | PBytes s => Ok (String.length s)
  | PList l | PTuple l => Ok (length l)
  | PNone | PBool _ | PInt _ => Raise TypeError
  | PObj _ _ => Raise NotModelled
  end.

(** [v[i]] for an index [i >= 0]. *)
Definition item (v : pyval) (i : nat) : result pyval :=
  match v with
  | PList l | PTuple l =>
      match l !! i with
      | Some x => Ok x
      | None => Raise IndexError
      end
  | PStr s =>
      if (i <? text_len s)%nat then Ok (PStr (text_take 1 (text_drop i s)))
      else Raise IndexError
  | PBytes s =>
      match String.get i s with
      | Some c => Ok (PInt (byte_of c))
      | None => Raise IndexError
      end
  | PNone | PBool _ | PInt _ => Raise TypeError
  | PObj _ _ => Raise NotModelled
  end.

(** [v.name], for the data attributes of an object; the built-in types
    have neither [text] nor [url]. *)
(** The first value filed under a name. *)
Fixpoint assoc {A} (l : list (string * A)) (name : string) : option A :=
  match l with
  | [] => None
  | (k, x) :: l' => if String.eqb k name then Some x else assoc l' name
  end.

Definition getattr (v : pyval) (name : string) : result pyval :=
  match v with
  | PObj _ attrs =>
      match assoc attrs name with
      | Some x => Ok x
      | None => Raise AttributeError
      end
  | _ => Raise AttributeError
  end.

(** [str(v)].  The printed form of containers and objects is outside the
    fragment. *)
Definition str_ (v : pyval) : result string :=
  match v with
  | PStr s => Ok s
  | PInt n => Ok (str_of_int n)
  | PBool true => Ok "True"
  | PBool false => Ok "False"
  | PNone => Ok "None"
  | _ => Raise NotModelled
  end.

(** [int(v)]. *)
Definition int_ (v : pyval) : result Z :=
  match v with
  | PInt n => Ok n
  | PBool b => Ok (Z.b2z b)
  | PStr s => int_of_text s
  | PNone | PList _ | PTuple _ => Raise TypeError
  | PBytes _ | PObj _ _ => Raise NotModelled
  end.

(** [v.split("/")]. *)
Definition split_slash (v : pyval) : result (list string) :=
  match v with
  | PStr s => Ok (split "/" s)
  | PBytes _ => Raise TypeError
  | PObj _ _ => Raise NotModelled
  | _ => Raise AttributeError
  end.

(** [v.decode("utf-8")]. *)
Definition decode_utf8 (v : pyval) : result pyval :=
  match v with
  | PBytes s => if utf8_valid s then Ok (PStr s) else Raise UnicodeDecodeError
  | PObj _ _ => Raise NotModelled
  | _ => Raise AttributeError
  end.

(** [v == [n1, ..., nk]] against a list of integers: only a list of the
    same length whose items are those numbers is equal to it (a tuple is
    not; [True] and [False] count as 1 and 0). *)
Definition eq_int (v : pyval) (n : Z) : bool :=
  match v with
  | PInt m => m =? n
  | PBool b => Z.b2z b =? n
  | _ => false
  end.

Fixpoint eq_ints (l : list pyval) (ns : list Z) : bool :=
  match l, ns with
  | [], [] => true
  | v :: l', n :: ns' => eq_int v n && eq_ints l' ns'
  | _, _ => false
  end.

Definition eq_int_list (v : pyval) (ns : list Z) : bool :=
  match v with
  | PList l => eq_ints l ns
  | _ => false
  end.

End Py.
Export Py.

Example text_len_utf8 : text_len "©nam" = 4%nat.
Proof. reflexivity. Qed.

Example split_ex : split "/" "3/12" = ["3"; "12"].
Proof. reflexivity. Qed.

Example zfill_ex : zfill (str_of_int (-3)) 4 = "-003".
Proof. reflexivity. Qed.

Example int_ex : int_of_text " +1_000 " = Ok 1000.
Proof. reflexivity. Qed.

Example utf8_ex : utf8_valid "©nam é 日本" = true /\ utf8_valid (String (ascii_of_nat 192) "a") = false.
Proof. split; reflexivity. Qed.

(* ================================================================= *)
(** * The tag library, as the module uses it                          *)
(* ================================================================= *)

(** The module never looks inside a file: it loads a handle, sets and gets
    native keys, and saves.  This layer gives those operations the
    behaviour the module relies on.

    - A Vorbis comment (FLAC, OGG, Opus) holds lists of texts: a value that
      is not a list is wrapped into one, and an empty list removes the key.
    - An MP4 tag keeps what it is given until it is saved; saving renders
      every atom by its class (text, number pair, integer, flag, cover,
      free form), rejects what does not fit, and a file loaded afterwards
      shows the rendered lists.
    - The easy view of ID3 turns a registered key and a list of texts into
      a text frame; the full view holds frames under their hash keys.

    Saving ID3 leaves out the text frames with nothing to say.  The byte
    encodings applied on save (Latin-1 URLs, NUL-separated frame texts, time
    stamps of ID3) and the case folding of Vorbis keys are not part of it:
    every key the module touches is in lower case already, and the theorems
    about what is read back from an MP3 file ask for texts that these
    encodings keep ([id3_plain]). *)
Module Mutagen.

Inductive family := MP3 | M4A | FLAC | OggVorbis | OggOpus.

Inductive kind := EasyID3 | ID3 | MP4 | VComment.

Definition kind_of (f : family) (easy : bool) : kind :=
  match f with
  | MP3 => if easy then EasyID3 else ID3
  | M4A => MP4
  | FLAC | OggVorbis | OggOpus => VComment
  end.

(** What a path leads to. *)
Inductive file :=
| Corrupt
| Unrecognized
| Audio (f : family) (tags : gmap string pyval) (pictures : list pyval).

Abbreviation disk := (gmap string file).

(** A loaded file: the tags and pictures in memory, and where they go on
    [save]. *)
Record handle := Handle {
  h_kind : kind;
  h_family : family;
  h_filename : string;
  h_tags : gmap string pyval;
  h_pictures : list pyval
}.

Definition with_tags (h : handle) (t : gmap string pyval) : handle :=
  Handle (h_kind h) (h_family h) (h_filename h) t (h_pictures h).

Definition with_pictures (h : handle) (p : list pyval) : handle :=
  Handle (h_kind h) (h_family h) (h_filename h) (h_tags h) p.

(** ** Frames of ID3 *)

Definition text_frame (id : string) (text : list pyval) : pyval :=
  PObj id [("encoding", PInt 3); ("text", PList text)].

(** [WOAS(encoding=3, url=url)]; a URL frame has no encoding. *)
Definition WOAS (url : pyval) : pyval :=
  PObj "WOAS" [("url", url)].

(** [USLT(encoding=3, text=text)]: one text, in language [XXX] and with an
    empty description unless told otherwise. *)
Definition USLT (text : pyval) : pyval :=
  PObj "USLT" [("encoding", PInt 3); ("lang", PStr "XXX"); ("desc", PStr "");
               ("text", text)].

(** [COMM(encoding=3, text=text)]: a list of texts. *)
Definition COMM (text : pyval) : pyval :=
  PObj "COMM" [("encoding", PInt 3); ("lang", PStr "XXX"); ("desc", PStr "");
               ("text", PList [text])].

(** [APIC(encoding=3, mime=mime, type=type, desc=desc, data=data)] *)
Definition APIC (mime : string) (type : Z) (desc : string) (data : string) : pyval :=
  PObj "APIC" [("encoding", PInt 3); ("mime", PStr mime); ("type", PInt type);
               ("desc", PStr desc); ("data", PBytes data)].

Definition attr_text (v : pyval) (name : string) : string :=
  match getattr v name with
  | Ok (PStr s) => s
  | _ => ""
  end.

(** The key a frame is filed under by [add]. *)
Definition hash_key (frame : pyval) : result string :=
  match frame with
  | PObj cls _ =>
      if bool_decide (cls = "USLT") || bool_decide (cls = "COMM") then
        Ok (cls +:+ ":" +:+ attr_text frame "desc" +:+ ":" +:+ attr_text frame "lang")
      else if bool_decide (cls = "APIC") then
        Ok (cls +:+ ":" +:+ attr_text frame "desc")
      else Ok cls
  | _ => Raise TypeError
  end.

(** The keys of the easy view that stand for a text frame. *)
Definition easy_frames : list (string * string) :=
  [("album", "TALB"); ("artist", "TPE1"); ("albumartist", "TPE2");
   ("title", "TIT2"); ("date", "TDRC"); ("originaldate", "TDOR");
   ("genre", "TCON"); ("tracknumber", "TRCK"); ("discnumber", "TPOS");
   ("encodedby", "TENC"); ("copyright", "TCOP"); ("composer", "TCOM");
   ("lyricist", "TEXT"); ("grouping", "TIT1"); ("compilation", "TCMP");
   ("bpm", "TBPM"); ("organization", "TPUB"); ("isrc", "TSRC")].

Definition easy_frame (key : string) : option string := assoc easy_frames key.
Arguments easy_frame : simpl never.

(** ** Atoms of MP4 *)

Inductive atom := AText | APair | AInt | AFlag | ACover | AFreeform.

Definition atom_of (key : string) : atom :=
  if String.prefix "----" key then AFreeform
  else if bool_decide (key ∈ ["trkn"; "disk"]) then APair
  else if bool_decide (key ∈ ["tmpo"; "rtng"]) then AInt
  else if bool_decide (key = "cpil") then AFlag
  else if bool_decide (key = "covr") then ACover
  else AText.

Definition is_str (v : pyval) : bool :=
  match v with PStr _ => true | _ => false end.

Definition is_bytes (v : pyval) : bool :=
  match v with PBytes _ => true | _ => false end.

Definition items_of (v : pyval) : option (list pyval) :=
  match v with
  | PList l | PTuple l => Some l
  | _ => None
  end.

Definition render_pair (v : pyval) : option pyval :=
  match items_of v with
  | Some [PInt a; PInt b] =>
      if (0 <=? a) && (a <? 65536) && (0 <=? b) && (b <? 65536)
      then Some (PTuple [PInt a; PInt b]) else None
  | _ => None
  end.

Definition render_int (v : pyval) : option pyval :=
  match v with
  | PInt n =>
      if (- 2 ^ 63 <=? n) && (n <? 2 ^ 63) then Some (PInt n) else None
  | PBool b => Some (PInt (Z.b2z b))
  | _ => None
  end.

(** What a saved atom shows when the file is loaded again; [None] when the
    library refuses to save the value. *)
Definition render (key : string) (v : pyval) : option pyval :=
  match atom_of key with
  | AText =>
      match v with
      | PStr s => Some (PList [PStr s])
      | PList l => if forallb is_str l then Some v else None
      | _ => None
      end
  | AFreeform =>
      match v with
      | PBytes s => Some (PList [PBytes s])
      | PList l => if forallb is_bytes l then Some v else None
      | _ => None
      end
  | APair => l ← items_of v; PList <$> mapM render_pair l
  | AInt => l ← items_of v; PList <$> mapM render_int l
  | AFlag => Some (PBool (truthy v))
  | ACover => Some v
  end.

(** ** Handles *)

(** [tags[key] = value] in each of the four kinds of tags. *)
Definition vcomment_set (key : string) (value : pyval) (t : gmap string pyval)
    : gmap string pyval :=
  match value with
  | PList [] => delete key t
  | PList l => <[key := PList l]> t
  | _ => <[key := PList [value]]> t
  end.

Definition easy_set (key : string) (value : pyval) (t : gmap string pyval)
    : result (gmap string pyval) :=
  match easy_frame key with
  | Some id =>
      match value with
      | PStr s => Ok (<[id := text_frame id [PStr s]]> t)
      | PList l =>
          if forallb is_str l then Ok (<[id := text_frame id l]> t)
          else Raise TypeError
      | _ => Raise TypeError
      end
  | None => Raise KeyError
  end.

Definition id3_set (key : string) (value : pyval) (t : gmap string pyval)
    : result (gmap string pyval) :=
  match value with
  | PObj _ _ => Ok (<[key := value]> t)
  | _ => Raise TypeError
  end.

Arguments vcomment_set : simpl never.

(** [audio_file[key] = value]. *)
Definition setitem (h : handle) (key : string) (value : pyval) : result handle :=
  match h_kind h with
  | VComment => Ok (with_tags h (vcomment_set key value (h_tags h)))
  | MP4 => Ok (with_tags h (<[key := value]> (h_tags h)))
  | EasyID3 => with_tags h <$> easy_set key value (h_tags h)
  | ID3 => with_tags h <$> id3_set key value (h_tags h)
  end.

(** [audio_file.add(frame)], of the full ID3 view. *)
Definition add (h : handle) (frame : pyval) : result handle :=
  match h_kind h with
  | ID3 => key ← hash_key frame; Ok (with_tags h (<[key := frame]> (h_tags h)))
  | _ => Raise AttributeError
  end.

(** [audio_file.add_picture(picture)], of FLAC. *)
Definition add_picture (h : handle) (picture : pyval) : result handle :=
  match h_family h with
  | FLAC => Ok (with_pictures h (h_pictures h ++ [picture]))
  | _ => Raise AttributeError
  end.

(** [audio_file.get(key)]: [None] when the key is not there. *)
Definition get (h : handle) (key : string) : pyval :=
  match h_kind h with
  | EasyID3 =>
      match easy_frame key with
      | Some id =>
          match h_tags h !! id with
          | Some frame => match getattr frame "text" with Ok t => t | Raise _ => PNone end
          | None => PNone
          end
      | None => PNone
      end
  | _ => default PNone (h_tags h !! key)
  end.

(** [audio_file == {}]: no tag at all. *)
Definition is_empty (h : handle) : bool := bool_decide (size (h_tags h) = 0%nat).

(** ** The disk *)

(** A computation that reads and writes files and may raise; what was
    written before an exception stays written. *)
Definition IO (A : Type) : Type := disk → result A * disk.

Definition io_ret {A} (a : A) : IO A := fun d => (Ok a, d).

Definition io_raise {A} (e : exn) : IO A := fun d => (Raise e, d).

Definition io_bind {A B} (m : IO A) (f : A → IO B) : IO B := fun d =>
  match m d with
  | (Ok a, d') => f a d'
  | (Raise e, d') => (Raise e, d')
  end.

Definition io_lift {A} (r : result A) : IO A := fun d => (r, d).

(** [try: m except Exception: handler]. *)
Definition io_try {A} (m : IO A) (handler : exn → IO A) : IO A := fun d =>
  match m d with
  | (Ok a, d') => (Ok a, d')
  | (Raise e, d') => handler e d'
  end.

(** [File(filename, easy=easy)]: the handle of an audio file, [None] for a
    file of no known family, an exception when there is nothing to read. *)
Definition File (filename : string) (easy : bool) : IO (option handle) := fun d =>
  match d !! filename with
  | Some (Audio f tags pictures) =>
      (Ok (Some (Handle (kind_of f easy) f filename tags pictures)), d)
  | Some Unrecognized => (Ok None, d)
  | Some Corrupt | None => (Raise MutagenError, d)
  end.

(** [ID3(filename)]: the full ID3 view of an MP3 file. *)
Definition ID3_load (filename : string) : IO handle := fun d =>
  match d !! filename with
  | Some (Audio MP3 tags pictures) =>
      (Ok (Handle ID3 MP3 filename tags pictures), d)
  | _ => (Raise MutagenError, d)
  end.

(** The keys of the text frames of ID3 (the [T...] frames, the comments and
    the involved people list), and the frames with nothing to say: no text,
    or the empty text alone. *)
Definition is_text_key (key : string) : bool :=
  String.prefix "T" key || String.prefix "COMM" key || String.prefix "IPLS" key.

Definition empty_text (frame : pyval) : bool :=
  match getattr frame "text" with
  | Ok (PList []) | Ok (PList [PStr EmptyString]) => true
  | _ => false
  end.

(** What a saved frame shows when the file is loaded again: a text frame
    with nothing to say is not written. *)
Definition id3_written (key : string) (frame : pyval) : option pyval :=
  if is_text_key key && empty_text frame then None else Some frame.

(** What [save] leaves in the file. *)
Definition persist (h : handle) : result (gmap string pyval) :=
  match h_kind h with
  | MP4 =>
      if bool_decide (map_Forall (fun k v => is_Some (render k v)) (h_tags h))
      then Ok (map_imap render (h_tags h))
      else Raise MP4MetadataValueError
  | EasyID3 | ID3 => Ok (map_imap id3_written (h_tags h))
  | VComment => Ok (h_tags h)
  end.

(** [audio_file.save()]. *)
Definition save (h : handle) : IO () := fun d =>
  match d !! h_filename h with
  | Some (Audio f _ _) =>
      match persist h with
      | Ok t => (Ok (), <[h_filename h := Audio f t (h_pictures h)]> d)
      | Raise e => (Raise e, d)
      end
  | _ => (Raise MutagenError, d)
  end.

End Mutagen.

Notation "'let*' x ':=' m 'in' k" := (Mutagen.io_bind m (fun x => k))
  (at level 10, x name, m at level 100, k at level 200).

Infix "==" := String.eqb (at level 69, no associativity).

(* ================================================================= *)
(** * The module                                                      *)
(* ================================================================= *)

Import Mutagen.

(** ** The tables *)

(** A dictionary literal, in the order it is written (the order in which
    [for key in ...] walks it). *)
Abbreviation table := (list (string * string)).

Definition M4A_TAG_PRESET : table :=
  [("album", "©alb");
   ("artist", "©ART");
   ("date", "©day");
   ("title", "©nam");
   ("year", "©day");
   ("originaldate", "purd");
   ("comment", "©cmt");
   ("group", "©grp");
   ("writer", "©wrt");
   ("genre", "©gen");
   ("tracknumber", "trkn");
   ("albumartist", "aART");
   ("discnumber", "disk");
   ("cpil", "cpil");
   ("albumart", "covr");
   ("encodedby", "©too");
   ("copyright", "cprt");
   ("tempo", "tmpo");
   ("lyrics", "©lyr");
   ("explicit", "rtng");
   ("woas", "----:spotdl:WOAS")].

Definition MP3_TAG_PRESET : table :=
  [("album", "TALB");
   ("artist", "TPE1");
   ("date", "TDRC");
   ("title", "TIT2");
   ("year", "TDRC");
   ("originaldate", "TDOR");
   ("comment", "COMM::XXX");
   ("group", "TIT1");
   ("writer", "TEXT");
   ("genre", "TCON");
   ("tracknumber", "TRCK");
   ("albumartist", "TPE2");
   ("discnumber", "TPOS");
   ("cpil", "TCMP");
   ("albumart", "APIC");
   ("encodedby", "TENC");
   ("copyright", "TCOP");
   ("tempo", "TBPM");
   ("lyrics", "USLT::XXX");
   ("woas", "WOAS");
   ("explicit", "NULL")].

(** [{key: key for key in M4A_TAG_PRESET}] *)
Definition TAG_PRESET : table :=
  (fun kv => (kv.1, kv.1)) <$> M4A_TAG_PRESET.

Definition TAG_TO_SONG : table :=
  [("title", "name");
   ("artist", "artists");
   ("album", "album_name");
   ("albumartist", "album_artist");
   ("genre", "genres");
   ("discnumber", "disc_number");
   ("year", "year");
   ("date", "date");
   ("tracknumber", "track_number");
   ("encodedby", "publisher");
   ("woas", "url");
   ("copyright", "copyright_text");
   ("lyrics", "lyrics")].

(** [d.get(key)] *)
Fixpoint dict_get (d : table) (key : string) : option string :=
  match d with
  | [] => None
  | (k, v) :: d' => if k == key then Some v else dict_get d' key
  end.

(** [d[key]] *)
Definition subscript (d : table) (key : string) : result string :=
  match dict_get d key with
  | Some v => Ok v
  | None => Raise KeyError
  end.

(** [d.get(key)] followed by [if ...:]: a value that is there and not
    empty. *)
Definition get_truthy (d : table) (key : string) : option string :=
  match dict_get d key with
  | Some v => if truthy (PStr v) then Some v else None
  | None => None
  end.

(** [d[key] = value]: a key that is there keeps its place and takes the new
    value, a new key goes to the end. *)
Fixpoint dict_set (d : table) (key value : string) : table :=
  match d with
  | [] => [(key, value)]
  | (k, v) :: d' =>
      if k == key then (k, value) :: d' else (k, v) :: dict_set d' key value
  end.

(** [{value: TAG_TO_SONG.get(key) for key, value in preset.items()
      if TAG_TO_SONG.get(key)}] *)
Definition to_song (preset : table) : table :=
  foldl (fun acc kv => match get_truthy TAG_TO_SONG kv.1 with
                       | Some f => dict_set acc kv.2 f
                       | None => acc
                       end) [] preset.

Definition M4A_TO_SONG : table := to_song M4A_TAG_PRESET.
Definition MP3_TO_SONG : table := to_song MP3_TAG_PRESET.

(** ** The song record and the path *)

(** The attributes of [Song] the module reads.  Those it tests before use
    may be missing. *)
Record Song := {
  name : string;
  artists : list string;
  artist : string;
  genres : list string;
  disc_number : Z;
  disc_count : Z;
  album_name : string;
  date : string;
  track_number : Z;
  tracks_count : Z;
  explicit : bool;
  publisher : string;
  url : string;
  cover_url : option string;
  copyright_text : option string;
  download_url : option string;
  lyrics : option string
}.

Definition optional (o : option string) : pyval :=
  match o with
  | Some s => PStr s
  | None => PNone
  end.

Definition texts (l : list string) : pyval := PList (PStr <$> l).

(** A [Path], through the three views the module takes of it: its text
    ([str(path)]), the file name it resolves to, and its suffix (empty, or
    a dot and an extension). *)
Record Path := {
  text : string;
  resolve : string;
  suffix : string
}.

(** [path.exists()] *)
Definition exists_ (path : Path) : IO bool := fun d =>
  (Ok (bool_decide (is_Some (d !! resolve path))), d).

Definition elem_str (x : string) (l : list string) : bool :=
  existsb (String.eqb x) l.

(** ** [embed_metadata] *)

(** [audio_file[tag_preset[field]] = value] *)
Definition set_tag (tag_preset : table) (audio_file : handle)
    (field : string) (value : pyval) : result handle :=
  key ← subscript tag_preset field;
  setitem audio_file key value.

(** The assignments of [embed_metadata] between loading the file and the
    MP3-specific part. *)
Definition embed_tags (tag_preset : table) (encoding : string) (song : Song)
    (audio_file : handle) : result handle :=
  (* Embed basic metadata *)
  audio_file ← set_tag tag_preset audio_file "artist" (texts (artists song));
  audio_file ← set_tag tag_preset audio_file "albumartist" (PStr (artist song));
  audio_file ← set_tag tag_preset audio_file "title" (PStr (name song));
  audio_file ← set_tag tag_preset audio_file "date" (PStr (date song));
  audio_file ← set_tag tag_preset audio_file "originaldate" (PStr (date song));
  audio_file ← set_tag tag_preset audio_file "encodedby" (PStr (publisher song));
  (* Embed metadata that isn't always present *)
  audio_file ←
    (if truthy (PStr (album_name song))
     then set_tag tag_preset audio_file "album" (PStr (album_name song))
     else Ok audio_file);
  audio_file ←
    (if (0 <? length (genres song))%nat
     then set_tag tag_preset audio_file "genre" (texts (genres song))
     else Ok audio_file);
  audio_file ←
    (if truthy (optional (copyright_text song))
     then set_tag tag_preset audio_file "copyright" (optional (copyright_text song))
     else Ok audio_file);
  audio_file ←
    (if truthy (optional (lyrics song)) && negb (encoding == "mp3")
     then set_tag tag_preset audio_file "lyrics" (optional (lyrics song))
     else Ok audio_file);
  audio_file ←
    (if truthy (optional (download_url song)) && negb (encoding == "mp3")
     then set_tag tag_preset audio_file "comment" (optional (download_url song))
     else Ok audio_file);
  (* Embed some metadata in format specific ways *)
  if elem_str encoding ["flac"; "ogg"; "opus"] then
    let zfilled_disc_number :=
      zfill (str_of_int (disc_number song)) (text_len (str_of_int (disc_count song))) in
    let zfilled_track_number :=
      zfill (str_of_int (track_number song)) (text_len (str_of_int (tracks_count song))) in
    audio_file ← set_tag tag_preset audio_file "discnumber" (PStr zfilled_disc_number);
    audio_file ← set_tag tag_preset audio_file "tracknumber" (PStr zfilled_track_number);
    set_tag tag_preset audio_file "woas" (PStr (url song))
  else if encoding == "m4a" then
    audio_file ← set_tag tag_preset audio_file "discnumber"
      (PList [PTuple [PInt (disc_number song); PInt (disc_count song)]]);
    audio_file ← set_tag tag_preset audio_file "tracknumber"
      (PList [PTuple [PInt (track_number song); PInt (tracks_count song)]]);
    audio_file ← set_tag tag_preset audio_file "explicit"
      (PTuple [PInt (if explicit song then 4 else 2)]);
    set_tag tag_preset audio_file "woas" (PBytes (url song))
  else if encoding == "mp3" then
    audio_file ← setitem audio_file "tracknumber"
      (PStr (str_of_int (track_number song) +:+ "/" +:+ str_of_int (tracks_count song)));
    setitem audio_file "discnumber"
      (PStr (str_of_int (disc_number song) +:+ "/" +:+ str_of_int (disc_count song)))
  else Ok audio_file.

(** The frames added to an MP3 file once it has been saved and opened
    again. *)
Definition add_frames (song : Song) (audio_file : handle) : result handle :=
  audio_file ← add audio_file (WOAS (PStr (url song)));
  audio_file ←
    (if truthy (optional (lyrics song))
     then add audio_file (USLT (optional (lyrics song)))
     else Ok audio_file);
  if truthy (optional (download_url song))
  then add audio_file (COMM (optional (download_url song)))
  else Ok audio_file.

Definition embed_metadata (output_file : Path) (song : Song) : IO () :=
  (* Get the file extension for the output file *)
  let encoding := text_drop 1 (suffix output_file) in
  (* Get the tag preset for the file extension *)
  let tag_preset := if negb (encoding == "m4a") then TAG_PRESET else M4A_TAG_PRESET in
  let* audio_file :=
    io_try
      (let* audio_file := File (resolve output_file) (encoding == "mp3") in
       match audio_file with
       | None =>
           io_raise (MetadataError ("Unrecognized file format for "
             +:+ text output_file +:+ " from " +:+ url song))
       | Some audio_file => io_ret audio_file
       end)
      (fun exc => io_raise (MetadataError "Unable to load file.")) in
  let* audio_file := io_lift (embed_tags tag_preset encoding song audio_file) in
  (* Mp3 specific encoding *)
  let* audio_file :=
    (if encoding == "mp3" then
       let* _ := save audio_file in
       let* audio_file := ID3_load (resolve output_file) in
       io_lift (add_frames song audio_file)
     else io_ret audio_file) in
  (* Embed album art: left out *)
  save audio_file.

(** ** [embed_cover] *)

Section Cover.

(** The collaborators of the cover embedder: the HTTP fetch
    ([requests.get(url, timeout=10).content], [None] when it raises), the
    serialisation of a picture block ([Picture.write]) and
    [base64.b64encode]. *)
Variable fetch : string → option string.
Variable picture_write : pyval → string.
Variable b64encode : string → string.

Definition Picture (type : Z) (desc mime data : string) : pyval :=
  PObj "Picture" [("type", PInt type); ("desc", PStr desc); ("mime", PStr mime);
                  ("data", PBytes data)].

(** [MP4Cover(data, imageformat=MP4Cover.FORMAT_JPEG)] *)
Definition MP4Cover (data : string) : pyval :=
  PObj "MP4Cover" [("data", PBytes data); ("imageformat", PInt 13)].

Definition embed_cover (audio_file : handle) (song : Song) (encoding : string)
    : result handle :=
  if negb (truthy (optional (cover_url song))) then Ok audio_file
  else
    (* Try to download the cover art *)
    match fetch (default "" (cover_url song)) with
    | None => Ok audio_file
    | Some cover_data =>
        (* Create the image object for the file type *)
        if elem_str encoding ["flac"; "ogg"; "opus"] then
          let picture := Picture 3 "Cover" "image/jpeg" cover_data in
          if elem_str encoding ["ogg"; "opus"] then
            let image_data := picture_write picture in
            let encoded_data := b64encode image_data in
            let vcomment_value := encoded_data in
            setitem audio_file "metadata_block_picture" (PList [PStr vcomment_value])
          else if encoding == "flac" then add_picture audio_file picture
          else Ok audio_file
        else if encoding == "m4a" then
          key ← subscript M4A_TAG_PRESET "albumart";
          setitem audio_file key (PList [MP4Cover cover_data])
        else if encoding == "mp3" then
          setitem audio_file "APIC" (APIC "image/jpeg" 3 "Cover" cover_data)
        else Ok audio_file
    end.

End Cover.

(** ** [get_file_metadata] *)

Abbreviation meta := (gmap string pyval).

(** [int(str(v)[:4])] *)
Definition year_of (v : pyval) : result pyval :=
  s ← str_ v;
  PInt <$> int_of_text (text_take 4 s).

(** [v[0] if len(v) == 1 else v] *)
Definition unwrap (v : pyval) : result pyval :=
  n ← len v;
  if (n =? 1)%nat then item v 0 else Ok v.

(** The native key under which a round of the loop looks for [key]. *)
Definition native_key (suffix key : string) : result string :=
  if suffix == ".m4a" then subscript M4A_TAG_PRESET key
  else if suffix == ".mp3" then subscript MP3_TAG_PRESET key
  else Ok key.

(** What a round of the loop does with the value [val] found for [key]. *)
Definition decode_tag (suffix : string) (song_meta : meta) (key : string)
    (val : pyval) : result meta :=
  (* If the tag is empty, skip it *)
  if is_none val then
    (* If the tag is empty but its key is in the song object, set it to None *)
    match get_truthy TAG_TO_SONG key with
    | Some empty_key => Ok (<[empty_key := PNone]> song_meta)
    | None => Ok song_meta
    end
  (* MP3 specific decoding *)
  else if suffix == ".mp3" then
    if key == "woas" then
      u ← getattr val "url";
      Ok (<["url" := u]> song_meta)
    else if key == "year" then
      t ← getattr val "text"; x ← item t 0; y ← year_of x;
      Ok (<["year" := y]> song_meta)
    else if key == "date" then
      t ← getattr val "text"; x ← item t 0; s ← str_ x;
      Ok (<["date" := PStr s]> song_meta)
    else if key == "tracknumber" then
      t ← getattr val "text"; x ← item t 0; count ← split_slash x;
      match count with
      | [c0; c1] =>
          n ← int_of_text c0;
          c ← int_of_text c1;
          Ok (<["tracks_count" := PInt c]> (<["track_number" := PInt n]> song_meta))
      | _ => Ok (<["track_number" := x]> song_meta)
      end
    else if key == "discnumber" then
      t ← getattr val "text"; x ← item t 0; count ← split_slash x;
      match count with
      | [c0; c1] =>
          n ← int_of_text c0;
          c ← int_of_text c1;
          Ok (<["disc_count" := PInt c]> (<["disc_number" := PInt n]> song_meta))
      | _ => Ok (<["disc_number" := x]> song_meta)
      end
    else
      match get_truthy TAG_TO_SONG key with
      | Some meta_key =>
          t ← getattr val "text"; v ← unwrap t;
          Ok (<[meta_key := v]> song_meta)
      | None => Ok song_meta
      end
  (* M4A specific decoding *)
  else if suffix == ".m4a" then
    if key == "woas" then
      x ← item val 0; u ← decode_utf8 x;
      Ok (<["url" := u]> song_meta)
    else if key == "explicit" then
      Ok (<["explicit" := if truthy val then PBool (eq_int_list val [4]) else PNone]>
            song_meta)
    else if key == "year" then
      x ← item val 0; y ← year_of x;
      Ok (<["year" := y]> song_meta)
    else if key == "discnumber" then
      x ← item val 0; n ← item x 0; c ← item x 1;
      Ok (<["disc_count" := c]> (<["disc_number" := n]> song_meta))
    else if key == "tracknumber" then
      x ← item val 0; n ← item x 0; c ← item x 1;
      Ok (<["tracks_count" := c]> (<["track_number" := n]> song_meta))
    else
      match get_truthy TAG_TO_SONG key with
      | Some meta_key =>
          v ← unwrap val;
          Ok (<[meta_key := v]> song_meta)
      | None => Ok song_meta
      end
  (* FLAC, OGG, OPUS specific decoding *)
  else
    if key == "originaldate" then
      x ← item val 0; y ← year_of x;
      Ok (<["year" := y]> song_meta)
    else if key == "tracknumber" then
      x ← item val 0; n ← int_ x;
      Ok (<["track_number" := PInt n]> song_meta)
    else if key == "discnumber" then
      x ← item val 0; n ← int_ x;
      Ok (<["disc_count" := PInt n]> song_meta)
    else
      match get_truthy TAG_TO_SONG key with
      | Some meta_key =>
          v ← unwrap val;
          Ok (<[meta_key := v]> song_meta)
      | None => Ok song_meta
      end.

(** One round of the loop [for key in TAG_PRESET]:
    [val = audio_file.get(...)], then the decoding. *)
Definition read_tag (suffix : string) (audio_file : handle) (song_meta : meta)
    (key : string) : result meta :=
  k ← native_key suffix key;
  decode_tag suffix song_meta key (get audio_file k).

(** [for x in l: s = step(s, x)], stopping at the first exception. *)
Fixpoint for_each {St A} (step : St → A → result St) (s : St) (l : list A)
    : result St :=
  match l with
  | [] => Ok s
  | x :: l' => s' ← step s x; for_each step s' l'
  end.

(** [song_meta[key]] *)
Definition meta_item (song_meta : meta) (key : string) : result pyval :=
  match song_meta !! key with
  | Some v => Ok v
  | None => Raise KeyError
  end.

(** The body of [get_file_metadata] once the file is loaded and has tags. *)
Definition read_tags (suffix : string) (audio_file : handle) : result meta :=
  song_meta ← for_each (read_tag suffix audio_file) ∅ (TAG_PRESET.*1);
  (* Add main artist to the song meta object *)
  a ← meta_item song_meta "artists";
  first ← item a 0;
  Ok (<["artist" := first]> song_meta).

Definition get_file_metadata (path : Path) : IO (option meta) :=
  let* found := exists_ path in
  if negb found then io_raise (OSError ("File not found: " +:+ text path))
  else
    let* audio_file := File (resolve path) false in
    match audio_file with
    | None => io_ret None
    | Some audio_file =>
        if is_empty audio_file then io_ret None
        else io_lift (Some <$> read_tags (suffix path) audio_file)
    end.

(** ** What the writer leaves in the tags *)

(** The assignments of [embed_tags], as a function from the tags before to
    the tags after, for each kind of tags ([embed_tags_vcomment],
    [embed_tags_mp4] and [embed_tags_easy] show that [embed_tags] computes
    them). *)

(** What a Vorbis comment shows under a key just assigned. *)
Definition vorbis_value (value : pyval) : option pyval :=
  match value with
  | PList [] => None
  | PList l => Some (PList l)
  | _ => Some (PList [value])
  end.

Definition when (c : bool) (f : gmap string pyval → gmap string pyval)
    (t : gmap string pyval) : gmap string pyval :=
  if c then f t else t.

Definition zfilled (n count : Z) : string :=
  zfill (str_of_int n) (text_len (str_of_int count)).

Definition vorbis_tags (song : Song) (t : gmap string pyval) : gmap string pyval :=
  let t := vcomment_set "artist" (texts (artists song)) t in
  let t := vcomment_set "albumartist" (PStr (artist song)) t in
  let t := vcomment_set "title" (PStr (name song)) t in
  let t := vcomment_set "date" (PStr (date song)) t in
  let t := vcomment_set "originaldate" (PStr (date song)) t in
  let t := vcomment_set "encodedby" (PStr (publisher song)) t in
  let t := when (truthy (PStr (album_name song)))
             (vcomment_set "album" (PStr (album_name song))) t in
  let t := when (0 <? length (genres song))%nat
             (vcomment_set "genre" (texts (genres song))) t in
  let t := when (truthy (optional (copyright_text song)))
             (vcomment_set "copyright" (optional (copyright_text song))) t in
  let t := when (truthy (optional (lyrics song)))
             (vcomment_set "lyrics" (optional (lyrics song))) t in
  let t := when (truthy (optional (download_url song)))
             (vcomment_set "comment" (optional (download_url song))) t in
  let t := vcomment_set "discnumber"
             (PStr (zfilled (disc_number song) (disc_count song))) t in
  let t := vcomment_set "tracknumber"
             (PStr (zfilled (track_number song) (tracks_count song))) t in
  vcomment_set "woas" (PStr (url song)) t.

Definition mp4_tags (song : Song) (t : gmap string pyval) : gmap string pyval :=
  let t := <["©ART" := texts (artists song)]> t in
  let t := <["aART" := PStr (artist song)]> t in
  let t := <["©nam" := PStr (name song)]> t in
  let t := <["©day" := PStr (date song)]> t in
  let t := <["purd" := PStr (date song)]> t in
  let t := <["©too" := PStr (publisher song)]> t in
  let t := when (truthy (PStr (album_name song)))
             (insert "©alb" (PStr (album_name song))) t in
  let t := when (0 <? length (genres song))%nat
             (insert "©gen" (texts (genres song))) t in
  let t := when (truthy (optional (copyright_text song)))
             (insert "cprt" (optional (copyright_text song))) t in
  let t := when (truthy (optional (lyrics song)))
             (insert "©lyr" (optional (lyrics song))) t in
  let t := when (truthy (optional (download_url song)))
             (insert "©cmt" (optional (download_url song))) t in
  let t := <["disk" := PList [PTuple [PInt (disc_number song); PInt (disc_count song)]]]> t in
  let t := <["trkn" := PList [PTuple [PInt (track_number song); PInt (tracks_count song)]]]> t in
  let t := <["rtng" := PTuple [PInt (if explicit song then 4 else 2)]]> t in
  <["----:spotdl:WOAS" := PBytes (url song)]> t.

(** The same tags as a file saved and loaded again shows them. *)
Definition mp4_saved (song : Song) (t : gmap string pyval) : gmap string pyval :=
  let t := <["©ART" := texts (artists song)]> t in
  let t := <["aART" := PList [PStr (artist song)]]> t in
  let t := <["©nam" := PList [PStr (name song)]]> t in
  let t := <["©day" := PList [PStr (date song)]]> t in
  let t := <["purd" := PList [PStr (date song)]]> t in
  let t := <["©too" := PList [PStr (publisher song)]]> t in
  let t := when (truthy (PStr (album_name song)))
             (insert "©alb" (PList [PStr (album_name song)])) t in
  let t := when (0 <? length (genres song))%nat
             (insert "©gen" (texts (genres song))) t in
  let t := when (truthy (optional (copyright_text song)))
             (insert "cprt" (PList [optional (copyright_text song)])) t in
  let t := when (truthy (optional (lyrics song)))
             (insert "©lyr" (PList [optional (lyrics song)])) t in
  let t := when (truthy (optional (download_url song)))
             (insert "©cmt" (PList [optional (download_url song)])) t in
  let t := <["disk" := PList [PTuple [PInt (disc_number song); PInt (disc_count song)]]]> t in
  let t := <["trkn" := PList [PTuple [PInt (track_number song); PInt (tracks_count song)]]]> t in
  let t := <["rtng" := PList [PInt (if explicit song then 4 else 2)]]> t in
  <["----:spotdl:WOAS" := PList [PBytes (url song)]]> t.

Definition easy_tags (song : Song) (t : gmap string pyval) : gmap string pyval :=
  let t := <["TPE1" := text_frame "TPE1" (PStr <$> artists song)]> t in
  let t := <["TPE2" := text_frame "TPE2" [PStr (artist song)]]> t in
  let t := <["TIT2" := text_frame "TIT2" [PStr (name song)]]> t in
  let t := <["TDRC" := text_frame "TDRC" [PStr (date song)]]> t in
  let t := <["TDOR" := text_frame "TDOR" [PStr (date song)]]> t in
  let t := <["TENC" := text_frame "TENC" [PStr (publisher song)]]> t in
  let t := when (truthy (PStr (album_name song)))
             (insert "TALB" (text_frame "TALB" [PStr (album_name song)])) t in
  let t := when (0 <? length (genres song))%nat
             (insert "TCON" (text_frame "TCON" (PStr <$> genres song))) t in
  let t := when (truthy (optional (copyright_text song)))
             (insert "TCOP" (text_frame "TCOP" [optional (copyright_text song)])) t in
  let t := <["TRCK" := text_frame "TRCK"
               [PStr (str_of_int (track_number song) +:+ "/"
                      +:+ str_of_int (tracks_count song))]]> t in
  <["TPOS" := text_frame "TPOS"
      [PStr (str_of_int (disc_number song) +:+ "/"
             +:+ str_of_int (disc_count song))]]> t.

(** The frames of the second phase. *)
Definition frame_tags (song : Song) (t : gmap string pyval) : gmap string pyval :=
  let t := <["WOAS" := WOAS (PStr (url song))]> t in
  let t := when (truthy (optional (lyrics song)))
             (insert "USLT::XXX" (USLT (optional (lyrics song)))) t in
  when (truthy (optional (download_url song)))
    (insert "COMM::XXX" (COMM (optional (download_url song)))) t.

(** ** What the reader gives back *)

(** A list of texts as the reader returns it: a single item comes out on
    its own, no item at all is recorded as [None]. *)
Definition unwrapped (l : list string) : pyval :=
  match l with
  | [] => PNone
  | [x] => PStr x
  | _ => texts l
  end.

(** An optional text as the reader returns it: [None] when the writer
    skipped it. *)
Definition if_present (o : option string) : pyval :=
  if truthy (optional o) then optional o else PNone.

(** The family a suffix stands for. *)
Definition family_of (suffix : string) : option family :=
  if suffix == ".mp3" then Some MP3
  else if suffix == ".m4a" then Some M4A
  else if suffix == ".flac" then Some FLAC
  else if suffix == ".ogg" then Some OggVorbis
  else if suffix == ".opus" then Some OggOpus
  else None.

(** The artists of a song the reader can take a main artist from: at least
    one, and not a single empty name. *)
Definition has_main_artist (l : list string) : bool :=
  match l with
  | [] => false
  | [x] => negb (x == "")
  | _ => true
  end.

Definition pair_in_range (n count : Z) : bool :=
  (0 <=? n) && (n <? 65536) && (0 <=? count) && (count <? 65536).

(** ** Album art *)

(** Where a family keeps its cover: the [covr] atom, the [APIC] frames, the
    [metadata_block_picture] comment; FLAC keeps it among the pictures. *)
Definition art_key (f : family) (key : string) : bool :=
  match f with
  | M4A => key == "covr"
  | MP3 => String.prefix "APIC" key
  | FLAC | OggVorbis | OggOpus => key == "metadata_block_picture"
  end.

(** Two states of a path with the same album art: the same family, the
    same pictures and the same values under the art keys, or the very
    same state when it is not an audio file. *)
Definition same_art (a b : option file) : Prop :=
  match a, b with
  | Some (Audio f t p), Some (Audio f' t' p') =>
      f = f' ∧ p = p' ∧ ∀ key, art_key f key = true → t !! key = t' !! key
  | _, _ => a = b
  end.

(** ** Examples to run the module on *)

Definition demo_song : Song := {|
  name := "Title"; artists := ["Ann"; "Bob"]; artist := "Ann"; genres := ["pop"];
  disc_number := 3; disc_count := 12; album_name := "Album"; date := "2021-05-01";
  track_number := 5; tracks_count := 10; explicit := true; publisher := "Label";
  url := "https://open.spotify.com/track/x";
  cover_url := Some "https://i.scdn.co/image/x"; copyright_text := Some "(c)";
  download_url := Some "https://youtu.be/x"; lyrics := Some "la la" |}.

Definition demo_path (sfx : string) : Path :=
  {| text := "song" +:+ sfx; resolve := "/music/song" +:+ sfx; suffix := sfx |}.

Definition demo_handle (f : family) (sfx : string) : handle :=
  Handle (kind_of f false) f (resolve (demo_path sfx)) ∅ [].

(** ** The reader and the writer, further *)

(** The exceptions the decoding of a tag can raise: six built-in errors of
    Python, none of those the module or the tag library define. *)
Definition decoding_error (e : exn) : bool :=
  match e with
  | KeyError | IndexError | TypeError | ValueError | AttributeError
  | UnicodeDecodeError => true
  | MetadataError _ | OSError _ | MutagenError | MP4MetadataValueError
  | NotModelled => false
  end.

(** The outcomes of the decoding in this development: one of these errors,
    or the mark that the value is outside the fragment of Python described
    here. *)
Definition decoding_outcome (e : exn) : bool :=
  decoding_error e || match e with NotModelled => true | _ => false end.

(** The tags of a file stay within the fragment: no round of the loop meets
    a value it does not describe (digits outside ASCII, the printed form of
    a container). *)
Definition in_fragment (suffix : string) (audio_file : handle) : bool :=
  forallb (fun key => match read_tag suffix audio_file ∅ key with
                      | Raise NotModelled => false
                      | _ => true
                      end) (TAG_PRESET.*1).

(** The fields a mapping of the reader can have, and those it always has. *)
Definition output_fields : list string :=
  ["name"; "artists"; "album_name"; "album_artist"; "genres"; "disc_number";
   "disc_count"; "year"; "date"; "track_number"; "tracks_count"; "publisher";
   "url"; "copyright_text"; "lyrics"; "explicit"; "artist"].

Definition constant_fields : list string :=
  ["name"; "artists"; "album_name"; "album_artist"; "genres"; "year"; "date";
   "track_number"; "publisher"; "url"; "copyright_text"; "lyrics"; "artist"].

(** The main artist the reader gives for a song written with these artists:
    the first of several, but the first character of a single one, which
    the reader has taken out of its list before. *)
Definition read_main_artist (l : list string) : pyval :=
  match l with
  | [] => PNone
  | [x] => PStr (text_take 1 x)
  | x :: _ => PStr x
  end.

(** What the frames of ID3 give back as it was written: a date that is a
    time stamp ([YYYY], [YYYY-MM] or [YYYY-MM-DD]), a URL in ASCII, texts
    without the NUL character that separates the values of a frame, and,
    where the text makes a frame of its own, texts that are not empty (a
    text frame with the empty text alone is not saved). *)
Definition digits_n (n : nat) (s : string) : bool :=
  all_digits s && (String.length s =? n)%nat.

Definition is_nul (c : ascii) : bool := Ascii.eqb c Ascii.zero.

Definition plain_text (s : string) : bool :=
  negb (s == "") && no_char is_nul s.

Definition plain_date (s : string) : bool :=
  match split "-" s with
  | [y] => digits_n 4 y
  | [y; m] => digits_n 4 y && digits_n 2 m
  | [y; m; d] => digits_n 4 y && digits_n 2 m && digits_n 2 d
  | _ => false
  end.

Definition id3_plain (song : Song) : bool :=
  plain_date (date song) && all_ascii (url song)
  && plain_text (name song) && plain_text (artist song)
  && plain_text (publisher song)
  && forallb plain_text (artists song) && forallb plain_text (genres song)
  && no_char is_nul (album_name song)
  && no_char is_nul (default "" (copyright_text song))
  && no_char is_nul (default "" (lyrics song))
  && no_char is_nul (default "" (download_url song)).

(** A handle as [embed_metadata] holds it when it is done with the tags of
    a file of this encoding: of the family of the encoding, and in the full
    view (not the easy one) for mp3. *)
Definition opened_as (encoding : string) (h : handle) : Prop :=
  family_of (String "." encoding) = Some (h_family h)
  ∧ h_kind h = kind_of (h_family h) false.

(** The keys [embed_tags] assigns on the generic formats. *)
Definition generic_keys : list string :=
  ["artist"; "albumartist"; "title"; "date"; "originaldate"; "encodedby";
   "album"; "genre"; "copyright"; "lyrics"; "comment"; "discnumber";
   "tracknumber"; "woas"].

(** The canonical keys the reader decodes in the plain way on every format
    but mp3 (the value on its own when there is one, the list otherwise),
    each with its field. *)
Definition plain_keys : list (string * string) :=
  [("title", "name"); ("artist", "artists"); ("album", "album_name");
   ("albumartist", "album_artist"); ("genre", "genres"); ("date", "date");
   ("encodedby", "publisher"); ("copyright", "copyright_text");
   ("lyrics", "lyrics")].

Definition flac_mixed : list (string * pyval) :=
  [("artist", PList [PStr "Ann"; PStr "Bob"]); ("genre", PList [PStr "pop"])].

(** What [embed_tags] leaves in a Vorbis comment when the encoding is none
    of the five it knows: the basic and the conditional tags only. *)
Definition basic_tags (song : Song) (t : gmap string pyval) : gmap string pyval :=
  let t := vcomment_set "artist" (texts (artists song)) t in
  let t := vcomment_set "albumartist" (PStr (artist song)) t in
  let t := vcomment_set "title" (PStr (name song)) t in
  let t := vcomment_set "date" (PStr (date song)) t in
  let t := vcomment_set "originaldate" (PStr (date song)) t in
  let t := vcomment_set "encodedby" (PStr (publisher song)) t in
  let t := when (truthy (PStr (album_name song)))
             (vcomment_set "album" (PStr (album_name song))) t in
  let t := when (0 <? length (genres song))%nat
             (vcomment_set "genre" (texts (genres song))) t in
  let t := when (truthy (optional (copyright_text song)))
             (vcomment_set "copyright" (optional (copyright_text song))) t in
  let t := when (truthy (optional (lyrics song)))
             (vcomment_set "lyrics" (optional (lyrics song))) t in
  when (truthy (optional (download_url song)))
    (vcomment_set "comment" (optional (download_url song))) t.

(** ** More examples *)

Definition demo_solo : Song := {|
  name := "Title"; artists := ["Ann"]; artist := "Ann"; genres := [];
  disc_number := 1; disc_count := 1; album_name := ""; date := "2021";
  track_number := 1; tracks_count := 1; explicit := false; publisher := "Label";
  url := "https://open.spotify.com/track/y";
  cover_url := None; copyright_text := None;
  download_url := None; lyrics := None |}.

Definition demo_wide : Song := {|
  name := "Title"; artists := ["Ann"]; artist := "Ann"; genres := [];
  disc_number := 1; disc_count := 1; album_name := ""; date := "2021";
  track_number := 70000; tracks_count := 70000; explicit := false;
  publisher := "Label"; url := "https://open.spotify.com/track/z";
  cover_url := None; copyright_text := None;
  download_url := None; lyrics := None |}.

Definition flac_date_only : list (string * pyval) :=
  [("artist", PList [PStr "Ann"; PStr "Bob"]); ("date", PList [PStr "2021-05-01"])].

Definition m4a_bad_date : list (string * pyval) :=
  [("©ART", PList [PStr "Ann"; PStr "Bob"]); ("©day", PList [PStr "unknown"])].

(* ================================================================= *)
(** * Exceptions and sequencing                                       *)
(* ================================================================= *)

Lemma bind_Ok {A B} (m : result A) (f : A → result B) b :
  m ≫= f = Ok b → ∃ a, m = Ok a ∧ f a = Ok b.
Proof. destruct m; simpl; [eauto | discriminate]. Qed.

Lemma fmap_Ok {A B} (g : A → B) (m : result A) b :
  g <$> m = Ok b → ∃ a, m = Ok a ∧ b = g a.
Proof. destruct m; simpl; [intros [= <-]; eauto | discriminate]. Qed.

(** Splits a sequence of steps that ended well into its steps. *)
Ltac peel H :=
  repeat match type of H with
  | mbind _ _ = Ok _ => apply bind_Ok in H as (? & ? & H)
  end.

Ltac in_fields := simpl; repeat (first [left; reflexivity | right]).

(* ================================================================= *)
(** * Facts about the Python fragment                                 *)
(* ================================================================= *)

Section Decimal.

Lemma digit_facts c :
  is_digit c = true →
  is_ascii c = true ∧ is_space c = false ∧ is_cont c = false
  ∧ Ascii.eqb c "+" = false ∧ Ascii.eqb c "-" = false
  ∧ Ascii.eqb c "/" = false ∧ Ascii.eqb c "_" = false.
Proof.
  destruct c as [[] [] [] [] [] [] [] []]; vm_compute; intros H;
    try discriminate H; repeat split.
Qed.

Lemma all_digits_uint d : all_digits (NilEmpty.string_of_uint d) = true.
Proof. induction d; simpl; auto. Qed.

Lemma uint_nonempty d : d ≠ Decimal.Nil → NilEmpty.string_of_uint d ≠ "".
Proof. destruct d; simpl; congruence. Qed.

Lemma dec_value_uint_acc d p :
  dec_value (Z.pos p) (NilEmpty.string_of_uint d) = Z.pos (Pos.of_uint_acc d p).
Proof.
  revert p; induction d; intros p; simpl; [reflexivity | ..];
    rewrite <- IHd; f_equal; unfold byte_of; simpl; lia.
Qed.

Lemma dec_value_uint d :
  dec_value 0 (NilEmpty.string_of_uint d) = Z.of_N (Pos.of_uint d).
Proof.
  induction d; simpl; try reflexivity; try exact IHd;
    match goal with
    | |- dec_value _ (NilEmpty.string_of_uint ?d) = Z.pos (Pos.of_uint_acc ?d ?p) =>
        exact (dec_value_uint_acc d p)
    end.
Qed.

Lemma all_digits_app s t :
  all_digits (s +:+ t) = all_digits s && all_digits t.
Proof. induction s; simpl; [done | by rewrite IHs, andb_assoc]. Qed.

Lemma all_digits_zeros k : all_digits (zeros k) = true.
Proof. induction k; simpl; auto. Qed.

Lemma dec_value_zeros k s : dec_value 0 (zeros k +:+ s) = dec_value 0 s.
Proof. induction k; simpl; auto. Qed.

Lemma all_digits_ascii s : all_digits s = true → all_ascii s = true.
Proof.
  induction s; simpl; [done |]. intros [Hd Hr]%andb_true_iff.
  destruct (digit_facts _ Hd) as (-> & _). auto.
Qed.

Lemma all_digits_no_space s : all_digits s = true → no_char is_space s = true.
Proof.
  induction s; simpl; [done |]. intros [Hd Hr]%andb_true_iff.
  destruct (digit_facts _ Hd) as (_ & -> & _). auto.
Qed.

Lemma all_digits_no_slash s :
  all_digits s = true → no_char (fun c => Ascii.eqb c "/") s = true.
Proof.
  induction s; simpl; [done |]. intros [Hd Hr]%andb_true_iff.
  destruct (digit_facts _ Hd) as (_ & _ & _ & _ & _ & -> & _). auto.
Qed.

Lemma all_digits_starts s : all_digits s = true → starts s = String.length s.
Proof.
  induction s; simpl; [done |]. intros [Hd Hr]%andb_true_iff.
  destruct (digit_facts _ Hd) as (_ & _ & -> & _). by rewrite IHs.
Qed.

Lemma lstrip_no_space s : no_char is_space s = true → lstrip s = s.
Proof. destruct s; simpl; [done |]. by intros [->%negb_true_iff _]%andb_true_iff. Qed.

Lemma rstrip_no_space s : no_char is_space s = true → rstrip s = s.
Proof.
  induction s; simpl; [done |]. intros [Hc%negb_true_iff Hr]%andb_true_iff.
  rewrite (IHs Hr), Hc. by destruct s.
Qed.

Lemma digits_value_all acc b s :
  all_digits s = true → s ≠ "" ∨ b = true →
  digits_value acc b s = Some (dec_value acc s).
Proof.
  revert acc b; induction s as [| c s IH]; simpl; intros acc b Hs Hb.
  - destruct Hb as [? | ->]; done.
  - apply andb_true_iff in Hs as [Hd Hr]. rewrite Hd. apply IH; auto.
Qed.

Lemma int_of_text_digits s :
  all_digits s = true → s ≠ "" → int_of_text s = Ok (dec_value 0 s).
Proof.
  intros Hs Hne. unfold int_of_text.
  rewrite (all_digits_ascii _ Hs), (lstrip_no_space _ (all_digits_no_space _ Hs)),
    (rstrip_no_space _ (all_digits_no_space _ Hs)).
  destruct s as [| c r]; [done |]. unfold signed_value.
  pose proof Hs as [Hd _]%andb_true_iff.
  destruct (digit_facts _ Hd) as (_ & _ & _ & -> & -> & _).
  rewrite digits_value_all; auto.
Qed.

Lemma int_of_text_minus s :
  all_digits s = true → s ≠ "" → int_of_text (String "-" s) = Ok (- dec_value 0 s).
Proof.
  intros Hs Hne. unfold int_of_text.
  assert (Hsp : no_char is_space (String "-" s) = true)
    by (simpl; apply all_digits_no_space, Hs).
  rewrite (lstrip_no_space _ Hsp), (rstrip_no_space _ Hsp).
  simpl. rewrite (all_digits_ascii _ Hs), digits_value_all; auto.
Qed.

(** The printed form of an integer: digits, after a minus sign when it is
    negative. *)
Lemma str_of_int_shape n :
  ∃ ds, all_digits ds = true ∧ ds ≠ "" ∧ dec_value 0 ds = Z.abs n
        ∧ str_of_int n = if n <? 0 then String "-" ds else ds.
Proof.
  unfold str_of_int. destruct n as [| p | p]; simpl.
  - exists "0". repeat split; done.
  - exists (NilEmpty.string_of_uint (Pos.to_uint p)).
    split; [apply all_digits_uint |].
    split; [apply uint_nonempty, DecimalPos.Unsigned.to_uint_nonnil |].
    split; [| done].
    by rewrite dec_value_uint, DecimalPos.Unsigned.of_to.
  - exists (NilEmpty.string_of_uint (Pos.to_uint p)).
    split; [apply all_digits_uint |].
    split; [apply uint_nonempty, DecimalPos.Unsigned.to_uint_nonnil |].
    split; [| done].
    by rewrite dec_value_uint, DecimalPos.Unsigned.of_to.
Qed.

Lemma first_digit_no_sign c r :
  all_digits (String c r) = true → Ascii.eqb c "+" || Ascii.eqb c "-" = false.
Proof.
  simpl. intros [Hd _]%andb_true_iff.
  by destruct (digit_facts _ Hd) as (_ & _ & _ & -> & -> & _).
Qed.

(** Zero padding of the printed form keeps the number ([int("003") == 3]). *)
Lemma int_of_text_zfill n w : int_of_text (zfill (str_of_int n) w) = Ok n.
Proof.
  destruct (str_of_int_shape n) as (ds & Hds & Hne & Hval & ->).
  destruct (Z.ltb_spec n 0) as [Hn | Hn].
  - unfold zfill. cbn [Ascii.eqb Bool.eqb orb]. simpl (_ || _).
    rewrite int_of_text_minus.
    + rewrite dec_value_zeros, Hval. f_equal. lia.
    + by rewrite all_digits_app, all_digits_zeros.
    + destruct (zeros _); [done | discriminate].
  - unfold zfill. destruct ds as [| c r]; [done |].
    rewrite (first_digit_no_sign _ _ Hds).
    rewrite int_of_text_digits.
    + rewrite dec_value_zeros, Hval. f_equal. lia.
    + by rewrite all_digits_app, all_digits_zeros.
    + destruct (zeros _); discriminate.
Qed.

Lemma int_of_text_str n : int_of_text (str_of_int n) = Ok n.
Proof.
  destruct (str_of_int_shape n) as (ds & Hds & Hne & Hval & ->).
  destruct (Z.ltb_spec n 0) as [Hn | Hn].
  - rewrite int_of_text_minus by done. f_equal. lia.
  - rewrite int_of_text_digits by done. f_equal. lia.
Qed.

Lemma str_of_int_no_slash n :
  no_char (fun c => Ascii.eqb c "/") (str_of_int n) = true.
Proof.
  destruct (str_of_int_shape n) as (ds & Hds & _ & _ & ->).
  destruct (n <? 0); simpl; by rewrite all_digits_no_slash.
Qed.

(** For a number that is not negative, [zfill] is zeros in front of the
    digits, up to the width. *)
Lemma zfill_nonneg n w :
  0 ≤ n →
  zfill (str_of_int n) w = zeros (w - text_len (str_of_int n)) +:+ str_of_int n.
Proof.
  intros Hn. destruct (str_of_int_shape n) as (ds & Hds & Hne & _ & ->).
  destruct (Z.ltb_spec n 0); [lia |].
  unfold zfill. destruct ds as [| c r]; [done |].
  by rewrite (first_digit_no_sign _ _ Hds).
Qed.

End Decimal.

Section Split.

Lemma split_no_sep sep s :
  no_char (fun c => Ascii.eqb c sep) s = true → split sep s = [s].
Proof.
  induction s as [| c s IH]; simpl; [done |].
  intros [Hc%negb_true_iff Hs]%andb_true_iff. by rewrite Hc, IH.
Qed.

Lemma split_app sep s t :
  no_char (fun c => Ascii.eqb c sep) s = true →
  split sep (s +:+ String sep t) = s :: split sep t.
Proof.
  induction s as [| c s IH]; simpl.
  - by rewrite Ascii.eqb_refl.
  - intros [Hc%negb_true_iff Hs]%andb_true_iff. by rewrite Hc, IH.
Qed.

(** ["{a}/{b}".split("/")] gives back the two printed numbers. *)
Lemma split_slash_join a b :
  split "/" (str_of_int a +:+ "/" +:+ str_of_int b) = [str_of_int a; str_of_int b].
Proof.
  change (str_of_int a +:+ "/" +:+ str_of_int b)
    with (str_of_int a +:+ String "/" (str_of_int b)).
  rewrite split_app by apply str_of_int_no_slash.
  by rewrite split_no_sep by apply str_of_int_no_slash.
Qed.

End Split.

Section Text.

Lemma append_empty_r s : s +:+ "" = s.
Proof.
  induction s as [| c s IH]; [done |].
  change (String c s +:+ "") with (String c (s +:+ "")). by rewrite IH.
Qed.

Lemma starts_zero s : starts s = 0%nat → take_cont s = s ∧ skip_cont s = "".
Proof.
  induction s as [| c s IH]; simpl; [done |].
  destruct (is_cont c); simpl; [| done].
  intros [-> ->]%IH. done.
Qed.

(** A text of one code point is its own first code point. *)
Lemma text_take_one s : text_len s = 1%nat → text_take 1 s = s.
Proof.
  destruct s as [| c s]; simpl; [done |]. intros [= H].
  destruct (starts_zero _ H) as [-> _]. by rewrite append_empty_r.
Qed.

(** [v[0] if len(v) == 1 else v] of a text is the text. *)
Lemma unwrap_text s : unwrap (PStr s) = Ok (PStr s).
Proof.
  unfold unwrap, len, item. cbn [mbind result_bind].
  destruct (Nat.eqb_spec (text_len s) 1) as [H | H]; [| done].
  rewrite H. simpl. f_equal. f_equal.
  change (text_drop 0 s) with s. by apply text_take_one.
Qed.

End Text.

(** From here on the text functions are used through their lemmas. *)
Arguments int_of_text : simpl never.
Arguments text_take : simpl never.
Arguments text_drop : simpl never.
Arguments text_len : simpl never.
Arguments zfill : simpl never.
Arguments str_of_int : simpl never.
Arguments utf8_valid : simpl never.
Arguments split : simpl never.


(* ================================================================= *)
(** * The tag tables                                                  *)
(* ================================================================= *)

Section Tables.

Lemma TAG_PRESET_identity key v : dict_get TAG_PRESET key = Some v → v = key.
Proof.
  unfold TAG_PRESET. induction M4A_TAG_PRESET as [| [k w] t IH]; simpl; [done |].
  destruct (k == key) eqn:E; [| done].
  apply String.eqb_eq in E. congruence.
Qed.

Lemma TAG_PRESET_keys key :
  is_Some (dict_get TAG_PRESET key) ↔ is_Some (dict_get M4A_TAG_PRESET key).
Proof.
  unfold TAG_PRESET. induction M4A_TAG_PRESET as [| [k w] t IH]; simpl; [done |].
  destruct (k == key); [split; eauto | done].
Qed.

(** The generic table does map [explicit], to itself: the sentence "no
    mapping at all in the generic table" does not hold. *)
Lemma generic_explicit_mapped : ¬ (dict_get TAG_PRESET "explicit" = None).
Proof. intros H. vm_compute in H. discriminate H. Qed.

(** C6 (amended): the three tables hold the listed native keys for title,
    artist, tracknumber, woas, lyrics and comment; [explicit] is [NULL] for
    mp3, [rtng] for m4a, and [explicit] in the generic table, which maps
    every canonical key of the m4a table to itself and has no other key. *)
Theorem tag_tables :
  (dict_get MP3_TAG_PRESET "title", dict_get M4A_TAG_PRESET "title",
   dict_get TAG_PRESET "title") = (Some "TIT2", Some "©nam", Some "title")
  ∧ (dict_get MP3_TAG_PRESET "artist", dict_get M4A_TAG_PRESET "artist",
     dict_get TAG_PRESET "artist") = (Some "TPE1", Some "©ART", Some "artist")
  ∧ (dict_get MP3_TAG_PRESET "tracknumber", dict_get M4A_TAG_PRESET "tracknumber",
     dict_get TAG_PRESET "tracknumber") = (Some "TRCK", Some "trkn", Some "tracknumber")
  ∧ (dict_get MP3_TAG_PRESET "woas", dict_get M4A_TAG_PRESET "woas",
     dict_get TAG_PRESET "woas") = (Some "WOAS", Some "----:spotdl:WOAS", Some "woas")
  ∧ (dict_get MP3_TAG_PRESET "lyrics", dict_get M4A_TAG_PRESET "lyrics",
     dict_get TAG_PRESET "lyrics") = (Some "USLT::XXX", Some "©lyr", Some "lyrics")
  ∧ (dict_get MP3_TAG_PRESET "comment", dict_get M4A_TAG_PRESET "comment",
     dict_get TAG_PRESET "comment") = (Some "COMM::XXX", Some "©cmt", Some "comment")
  ∧ (dict_get MP3_TAG_PRESET "explicit", dict_get M4A_TAG_PRESET "explicit",
     dict_get TAG_PRESET "explicit") = (Some "NULL", Some "rtng", Some "explicit")
  ∧ (∀ key, dict_get TAG_PRESET key
            = if bool_decide (is_Some (dict_get M4A_TAG_PRESET key))
              then Some key else None).
Proof.
  repeat (split; [reflexivity |]).
  intros key. case_bool_decide as Hk.
  - apply TAG_PRESET_keys in Hk as [v Hv].
    by rewrite Hv, (TAG_PRESET_identity _ _ Hv).
  - destruct (dict_get TAG_PRESET key) eqn:E; [| done].
    destruct Hk. apply TAG_PRESET_keys. eauto.
Qed.

End Tables.

(* ================================================================= *)
(** * The cover embedder                                              *)
(* ================================================================= *)

Section CoverFacts.

Variable fetch : string → option string.
Variable picture_write : pyval → string.
Variable b64encode : string → string.

(** C7: without a cover URL, or when the fetch of the URL fails, the cover
    embedder returns the handle it was given and raises nothing. *)
Theorem embed_cover_noop audio_file song encoding :
  cover_url song = None ∨ cover_url song = Some ""
  ∨ (∃ u, cover_url song = Some u ∧ fetch u = None) →
  embed_cover fetch picture_write b64encode audio_file song encoding = Ok audio_file.
Proof.
  unfold embed_cover. intros [-> | [-> | (u & -> & Hu)]]; simpl; [done | done |].
  rewrite Hu. by destruct (negb _).
Qed.

End CoverFacts.

Lemma embed_cover_noop_witness :
  embed_cover (fun _ => None) (fun _ => "") (fun b => b)
    (demo_handle FLAC ".flac") demo_song "flac" = Ok (demo_handle FLAC ".flac").
Proof.
  apply embed_cover_noop. right; right.
  exists "https://i.scdn.co/image/x". split; reflexivity.
Defined.

(* ================================================================= *)
(** * Files that do not load                                          *)
(* ================================================================= *)

Section LoadFailures.

(** C8: a file that is missing, corrupt or of no known family makes
    [embed_metadata] raise [MetadataError] and leaves the disk as it was;
    [get_file_metadata] raises [OSError] for a missing path, and returns
    nothing for a file of no known family or without tags; the disk is as
    it was in each case. *)
Theorem load_failures path song (d : disk) :
  (d !! resolve path = None ∨ d !! resolve path = Some Corrupt
   ∨ d !! resolve path = Some Unrecognized →
   embed_metadata path song d = (Raise (MetadataError "Unable to load file."), d))
  ∧ (d !! resolve path = None →
     get_file_metadata path d
     = (Raise (OSError ("File not found: " +:+ text path)), d))
  ∧ (d !! resolve path = Some Unrecognized ∨
     (∃ f pictures, d !! resolve path = Some (Audio f ∅ pictures)) →
     get_file_metadata path d = (Ok None, d)).
Proof.
  split; [| split].
  - unfold embed_metadata, io_bind, io_try, File, io_raise.
    by intros [-> | [-> | ->]].
  - unfold get_file_metadata, io_bind, exists_, io_raise. by intros ->.
  - unfold get_file_metadata, io_bind, exists_, File, io_ret.
    intros [H | (f & pictures & H)]; rewrite H; simpl; by rewrite H.
Qed.

End LoadFailures.

Lemma load_failures_witness :
  embed_metadata (demo_path ".mp3") demo_song ∅
  = (Raise (MetadataError "Unable to load file."), ∅)
  ∧ get_file_metadata (demo_path ".mp3") ∅
    = (Raise (OSError "File not found: song.mp3"), ∅)
  ∧ get_file_metadata (demo_path ".wav") {[ "/music/song.wav" := Unrecognized ]}
    = (Ok None, {[ "/music/song.wav" := Unrecognized ]}).
Proof.
  split; [| split].
  - apply (load_failures (demo_path ".mp3") demo_song ∅). by left.
  - apply (load_failures (demo_path ".mp3") demo_song ∅). reflexivity.
  - apply (load_failures (demo_path ".wav") demo_song {[ "/music/song.wav" := Unrecognized ]}).
    left. reflexivity.
Defined.

(* ================================================================= *)
(** * The writer leaves the album art alone                           *)
(* ================================================================= *)

Section AlbumArt.

Lemma same_art_refl a : same_art a a.
Proof. destruct a as [[| | f t p] |]; simpl; auto. Qed.

Lemma same_art_trans a b c : same_art a b → same_art b c → same_art a c.
Proof.
  destruct a as [[| | f t p] |], b as [[| | f' t' p'] |]; simpl;
    try discriminate; try (intros _ H; exact H).
  destruct c as [[| | f'' t'' p''] |]; simpl; try discriminate.
  intros (<- & <- & H1) (<- & <- & H2). repeat split.
  intros key Hk. by rewrite H1, H2.
Qed.

(** A handle that still carries the album art of the file it came from. *)
Definition tracks (d : disk) (h : handle) : Prop :=
  ∃ t easy,
    d !! h_filename h = Some (Audio (h_family h) t (h_pictures h))
    ∧ h_kind h = kind_of (h_family h) easy
    ∧ ∀ key, art_key (h_family h) key = true → h_tags h !! key = t !! key.

(** The key under which a kind of tags files [key]. *)
Definition stored_key (k : kind) (key : string) : option string :=
  match k with
  | EasyID3 => easy_frame key
  | _ => Some key
  end.

Definition art_anywhere (key : string) : bool :=
  art_key MP3 key || art_key M4A key || art_key FLAC key.

(** A key whose assignment cannot reach the album art, whatever the tags. *)
Definition safe_key (key : string) : bool :=
  negb (art_anywhere key)
  && match easy_frame key with
     | Some id => negb (art_anywhere id)
     | None => true
     end.

(** The fields [embed_tags] looks up in its preset. *)
Definition written_fields : list string :=
  ["artist"; "albumartist"; "title"; "date"; "originaldate"; "encodedby";
   "album"; "genre"; "copyright"; "lyrics"; "comment"; "discnumber";
   "tracknumber"; "woas"; "explicit"].

Definition safe_table (tp : table) : bool :=
  forallb (fun field => match dict_get tp field with
                        | Some key => safe_key key
                        | None => true
                        end) written_fields.

Lemma safe_key_spec key k sk f :
  safe_key key = true → stored_key k key = Some sk → art_key f sk = false.
Proof.
  unfold safe_key, art_anywhere.
  intros [Hk He]%andb_true_iff Hs.
  assert (art_anywhere sk = false) as Hsk.
  { destruct k; simpl in Hs;
      try (injection Hs as <-; by apply negb_true_iff in Hk).
    rewrite Hs in He. by apply negb_true_iff in He. }
  unfold art_anywhere in Hsk.
  apply orb_false_iff in Hsk as [[H1 H2]%orb_false_iff H3].
  by destruct f.
Qed.

Lemma setitem_other h key v h' :
  setitem h key v = Ok h' →
  ∃ sk t', stored_key (h_kind h) key = Some sk ∧ h' = with_tags h t'
           ∧ ∀ k, k ≠ sk → t' !! k = h_tags h !! k.
Proof.
  unfold setitem. destruct (h_kind h).
  - intros (t' & Ht & ->)%fmap_Ok. unfold easy_set in Ht.
    destruct (easy_frame key) as [id |] eqn:E; [| discriminate].
    exists id, t'. split; [exact E |]. split; [done |]. intros k Hk.
    destruct v; try discriminate.
    + injection Ht as <-. by rewrite lookup_insert_ne.
    + destruct (forallb is_str l); [| discriminate].
      injection Ht as <-. by rewrite lookup_insert_ne.
  - intros (t' & Ht & ->)%fmap_Ok. unfold id3_set in Ht.
    exists key, t'. split; [done |]. split; [done |]. intros k Hk.
    destruct v; try discriminate. injection Ht as <-. by rewrite lookup_insert_ne.
  - intros [= <-]. eexists key, _. split; [done |]. split; [done |].
    intros k Hk. by rewrite lookup_insert_ne.
  - intros [= <-]. eexists key, _. split; [done |]. split; [done |].
    intros k Hk. unfold vcomment_set.
    destruct v as [| | | | | [| x l] | |];
      by rewrite ?lookup_insert_ne, ?lookup_delete_ne.
Qed.

Lemma setitem_tracks d h key v h' :
  safe_key key = true → tracks d h → setitem h key v = Ok h' → tracks d h'.
Proof.
  intros Hsafe (t & easy & Hd & Hk & Ht) (sk & t' & Hsk & -> & Hother)%setitem_other.
  exists t, easy. simpl. repeat split; [done | done |].
  intros k Hart. rewrite Hother; [by apply Ht |].
  intros ->. by rewrite (safe_key_spec _ _ _ (h_family h) Hsafe Hsk) in Hart.
Qed.

Lemma set_tag_tracks d tp h field v h' :
  safe_table tp = true → In field written_fields →
  tracks d h → set_tag tp h field v = Ok h' → tracks d h'.
Proof.
  unfold safe_table, set_tag, subscript. rewrite forallb_forall.
  intros Hsafe Hin Ht (key & Hkey & Hset)%bind_Ok.
  specialize (Hsafe _ Hin). destruct (dict_get tp field); [| discriminate].
  injection Hkey as ->. eauto using setitem_tracks.
Qed.

Lemma cond_set_tag_tracks d tp (c : bool) h field v h' :
  safe_table tp = true → In field written_fields →
  tracks d h → (if c then set_tag tp h field v else Ok h) = Ok h' → tracks d h'.
Proof.
  destruct c; [apply set_tag_tracks |]. by intros _ _ Ht [= <-].
Qed.


Ltac follow d Hsafe :=
  repeat match goal with
  | Ht : tracks d ?h, Hs : set_tag ?tp ?h ?field ?v = Ok ?h' |- _ =>
      apply (set_tag_tracks d tp h field v h' Hsafe ltac:(in_fields) Ht) in Hs;
      clear Ht
  | Ht : tracks d ?h, Hs : (if ?c then set_tag ?tp ?h ?field ?v else Ok ?h) = Ok ?h' |- _ =>
      apply (cond_set_tag_tracks d tp c h field v h' Hsafe ltac:(in_fields) Ht) in Hs;
      clear Ht
  | Ht : tracks d ?h, Hs : setitem ?h ?key ?v = Ok ?h' |- _ =>
      apply (setitem_tracks d h key v h' eq_refl Ht) in Hs; clear Ht
  end.

Lemma embed_tags_tracks d tp encoding song h h' :
  safe_table tp = true →
  tracks d h → embed_tags tp encoding song h = Ok h' → tracks d h'.
Proof.
  intros Hsafe Ht H. unfold embed_tags in H.
  peel H. follow d Hsafe.
  destruct (elem_str encoding _); [peel H; by follow d Hsafe |].
  destruct (encoding == "m4a"); [peel H; by follow d Hsafe |].
  destruct (encoding == "mp3"); [peel H; by follow d Hsafe |].
  by injection H as <-.
Qed.

Lemma add_tracks d h frame key h' :
  hash_key frame = Ok key → art_key (h_family h) key = false →
  tracks d h → add h frame = Ok h' → tracks d h'.
Proof.
  intros Hkey Hart (t & easy & Hd & Hk & Ht). unfold add.
  destruct (h_kind h) eqn:E; try discriminate.
  rewrite Hkey. simpl. intros [= <-]. exists t, easy. simpl.
  repeat split; [done | by rewrite <- Hk |].
  intros k Hk'. rewrite lookup_insert_ne; [by apply Ht |].
  intros ->. congruence.
Qed.

Lemma add_frames_tracks d song h h' :
  tracks d h → add_frames song h = Ok h' → tracks d h'.
Proof.
  assert (Hfam : ∀ h0 h1 f, add h0 f = Ok h1 → h_family h1 = h_family h0).
  { intros h0 h1 f. unfold add. destruct (h_kind h0); try discriminate.
    intros (? & _ & [= <-])%bind_Ok. done. }
  assert (Hart : ∀ f k, In k ["WOAS"; "USLT::XXX"; "COMM::XXX"] → art_key f k = false).
  { intros f k Hin. simpl in Hin. by destruct f, Hin as [<- | [<- | [<- | []]]]. }
  intros Ht H. unfold add_frames in H.
  apply bind_Ok in H as (h1 & H1 & H). apply bind_Ok in H as (h2 & H2 & H).
  eapply (add_tracks d _ _ "WOAS") in H1; [| done | apply Hart; in_fields | done].
  assert (tracks d h2) as Ht2.
  { destruct (truthy (optional (lyrics song))); [| by injection H2 as <-].
    eapply (add_tracks d _ _ "USLT::XXX") in H2; [done | done | apply Hart; in_fields | done]. }
  destruct (truthy (optional (download_url song))); [| by injection H as <-].
  eapply (add_tracks d _ _ "COMM::XXX") in H; [done | done | apply Hart; in_fields | done].
Qed.

Lemma File_tracks filename easy d r d' :
  File filename easy d = (r, d') →
  d' = d ∧ ∀ h, r = Ok (Some h) → tracks d h ∧ h_filename h = filename.
Proof.
  unfold File. destruct (d !! filename) as [[| | f t p] |] eqn:E;
    intros [= <- <-]; (split; [done |]); intros h [=]; subst.
  split; [| done]. exists t, easy. simpl. auto.
Qed.

Lemma ID3_load_tracks filename d r d' :
  ID3_load filename d = (r, d') →
  d' = d ∧ ∀ h, r = Ok h → tracks d h.
Proof.
  unfold ID3_load. destruct (d !! filename) as [[| | [] t p] |] eqn:E;
    intros [= <- <-]; (split; [done |]); intros h [=]; subst.
  exists t, false. simpl. auto.
Qed.

Lemma art_key_not_text key :
  String.prefix "APIC" key = true → is_text_key key = false.
Proof.
  destruct key as [| c key]; [discriminate |]. intros H.
  destruct c as [[] [] [] [] [] [] [] []];
    first [reflexivity | vm_compute in H; discriminate H].
Qed.

Lemma persist_art h t' key :
  (∃ easy, h_kind h = kind_of (h_family h) easy) →
  persist h = Ok t' → art_key (h_family h) key = true →
  t' !! key = h_tags h !! key.
Proof.
  intros [easy Hk]. unfold persist. rewrite Hk.
  destruct (h_family h); simpl; try by intros [= <-].
  - assert (Ok (map_imap id3_written (h_tags h)) = Ok t' →
            String.prefix "APIC" key = true → t' !! key = h_tags h !! key)
      as Hid3; [| by destruct easy].
    intros [= <-] Hart. rewrite map_lookup_imap.
    destruct (h_tags h !! key) as [v |]; [simpl | done].
    unfold id3_written. by rewrite (art_key_not_text _ Hart).
  - case_bool_decide; [| discriminate]. intros [= <-] ->%String.eqb_eq.
    rewrite map_lookup_imap. by destruct (h_tags h !! "covr").
Qed.

Lemma save_same_art d h r d' :
  tracks d h → save h d = (r, d') →
  (∀ filename, same_art (d !! filename) (d' !! filename))
  ∧ (r = Ok () → ∃ t', persist h = Ok t'
       ∧ d' = <[h_filename h := Audio (h_family h) t' (h_pictures h)]> d).
Proof.
  intros (t & easy & Hd & Hk & Ht). unfold save. rewrite Hd.
  destruct (persist h) as [t' |] eqn:Hp; intros [= <- <-].
  - split; [| eauto]. intros filename.
    destruct (decide (filename = h_filename h)) as [-> | Hne].
    + rewrite Hd, lookup_insert_eq. simpl. repeat split.
      intros key Hart. rewrite (persist_art _ _ _ (ex_intro _ easy Hk) Hp Hart).
      symmetry. by apply Ht.
    + rewrite lookup_insert_ne by done. apply same_art_refl.
  - split; [| done]. intros filename. apply same_art_refl.
Qed.

(** C10: [embed_metadata] never touches the album art: whatever the song,
    the path and the outcome, every file has afterwards the family, the
    pictures and the values under the art keys of its family ([covr],
    [APIC...], [metadata_block_picture]) that it had before. *)
Theorem embed_metadata_keeps_art path song (d : disk) filename :
  same_art (d !! filename) ((embed_metadata path song d).2 !! filename).
Proof.
  unfold embed_metadata.
  set (encoding := text_drop 1 (suffix path)).
  set (tp := if negb (encoding == "m4a") then TAG_PRESET else M4A_TAG_PRESET).
  assert (Hsafe : safe_table tp = true)
    by (subst tp; destruct (negb _); vm_compute; reflexivity).
  unfold io_bind, io_try, io_lift, io_ret, io_raise.
  destruct (File (resolve path) (encoding == "mp3") d) as [r0 d0] eqn:HF.
  apply File_tracks in HF as [-> Hh].
  destruct r0 as [[h |] | e]; simpl; try apply same_art_refl.
  destruct (Hh h eq_refl) as [Ht Hfn].
  destruct (embed_tags tp encoding song h) as [h1 |] eqn:H1; simpl;
    [| apply same_art_refl].
  apply (embed_tags_tracks d _ _ _ _ _ Hsafe Ht) in H1.
  destruct (encoding == "mp3").
  - destruct (save h1 d) as [r1 d1] eqn:Hs1.
    destruct (save_same_art _ _ _ _ H1 Hs1) as [Hart1 _].
    destruct r1 as [[] |]; simpl; [| apply Hart1].
    destruct (ID3_load (resolve path) d1) as [r2 d2] eqn:HL.
    apply ID3_load_tracks in HL as [-> Hh2].
    destruct r2 as [h2 |]; simpl; [| apply Hart1].
    specialize (Hh2 h2 eq_refl).
    destruct (add_frames song h2) as [h3 |] eqn:H3; simpl; [| apply Hart1].
    apply (add_frames_tracks _ _ _ _ Hh2) in H3.
    destruct (save h3 d1) as [r3 d3] eqn:Hs3.
    destruct (save_same_art _ _ _ _ H3 Hs3) as [Hart3 _].
    simpl. eapply same_art_trans; [apply Hart1 | apply Hart3].
  - destruct (save h1 d) as [r1 d1] eqn:Hs1.
    by destruct (save_same_art _ _ _ _ H1 Hs1) as [Hart1 _].
Qed.

End AlbumArt.

(* ================================================================= *)
(** * The writer on the generic formats                               *)
(* ================================================================= *)

Section GenericWriter.

Lemma vcomment_set_eq key v (t : gmap string pyval) :
  vcomment_set key v t !! key = vorbis_value v.
Proof.
  unfold vcomment_set, vorbis_value.
  destruct v as [| | | | | [| x l] | |];
    by rewrite ?lookup_insert_eq, ?lookup_delete_eq.
Qed.

Lemma vcomment_set_ne key key' v (t : gmap string pyval) :
  key ≠ key' → vcomment_set key v t !! key' = t !! key'.
Proof.
  intros Hne. unfold vcomment_set.
  destruct v as [| | | | | [| x l] | |];
    by rewrite ?lookup_insert_ne, ?lookup_delete_ne.
Qed.

Lemma when_ne c key key' v (t : gmap string pyval) :
  key ≠ key' → when c (vcomment_set key v) t !! key' = t !! key'.
Proof. intros Hne. destruct c; simpl; [by apply vcomment_set_ne | done]. Qed.

Lemma when_eq c key v (t : gmap string pyval) :
  when c (vcomment_set key v) t !! key = if c then vorbis_value v else t !! key.
Proof. destruct c; simpl; [by apply vcomment_set_eq | done]. Qed.

Lemma elem_str_In x l : elem_str x l = true → In x l.
Proof.
  unfold elem_str. intros (y & Hy & ->%String.eqb_eq)%existsb_exists. done.
Qed.

Lemma generic_encoding encoding :
  elem_str encoding ["flac"; "ogg"; "opus"] = true →
  encoding == "m4a" = false ∧ encoding == "mp3" = false.
Proof.
  intros Hin%elem_str_In. simpl in Hin.
  destruct Hin as [<- | [<- | [<- | []]]]; split; reflexivity.
Qed.

Lemma set_tag_generic h field v :
  In field written_fields → set_tag TAG_PRESET h field v = setitem h field v.
Proof.
  intros Hin. simpl in Hin.
  repeat (destruct Hin as [<- | Hin]; [reflexivity |]). done.
Qed.

(** [embed_tags] on a Vorbis comment. *)
Lemma embed_tags_vcomment encoding song h :
  h_kind h = VComment → elem_str encoding ["flac"; "ogg"; "opus"] = true →
  embed_tags TAG_PRESET encoding song h
  = Ok (with_tags h (vorbis_tags song (h_tags h))).
Proof.
  intros Hk Henc.
  destruct (generic_encoding _ Henc) as [_ Hmp3].
  destruct h as [k f n t p]. simpl in Hk. subst k.
  unfold embed_tags. rewrite Henc, Hmp3, !andb_true_r.
  rewrite !set_tag_generic by in_fields.
  unfold vorbis_tags, when, zfilled, setitem, with_tags. simpl.
  destruct (negb (album_name song == "")), (0 <? length (genres song))%nat,
    (truthy (optional (copyright_text song))), (truthy (optional (lyrics song))),
    (truthy (optional (download_url song))); reflexivity.
Qed.

(** [embed_metadata] on a file of a generic format. *)
Lemma embed_metadata_generic path song (d : disk) f t pictures :
  elem_str (text_drop 1 (suffix path)) ["flac"; "ogg"; "opus"] = true →
  d !! resolve path = Some (Audio f t pictures) →
  kind_of f false = VComment →
  embed_metadata path song d
  = (Ok (), <[resolve path := Audio f (vorbis_tags song t) pictures]> d).
Proof.
  intros Henc Hd Hk.
  destruct (generic_encoding _ Henc) as [Hm4a Hmp3].
  unfold embed_metadata, io_bind, io_try, io_lift, io_ret, File.
  rewrite Hd, Hm4a, Hmp3. simpl.
  rewrite embed_tags_vcomment by done. simpl.
  unfold save. simpl. rewrite Hd. by rewrite Hk.
Qed.

(** C4: on a generic format the disc number and the track number are stored
    as decimal texts filled with zeros up to the width of the disc count and
    of the track count (the comment holds the text as a one-item list): for
    a number that is not negative, the zeros that make up the width and then
    its digits; 3 of 12 is ["03"], 3 of 120 is ["003"]. *)
Theorem generic_zero_padding path song (d : disk) f t pictures :
  elem_str (text_drop 1 (suffix path)) ["flac"; "ogg"; "opus"] = true →
  d !! resolve path = Some (Audio f t pictures) →
  kind_of f false = VComment →
  ∃ t',
    embed_metadata path song d = (Ok (), <[resolve path := Audio f t' pictures]> d)
    ∧ t' !! "discnumber"
      = Some (PList [PStr (zfill (str_of_int (disc_number song))
                                 (text_len (str_of_int (disc_count song))))])
    ∧ t' !! "tracknumber"
      = Some (PList [PStr (zfill (str_of_int (track_number song))
                                 (text_len (str_of_int (tracks_count song))))])
    ∧ (∀ n count, 0 ≤ n →
         zfill (str_of_int n) (text_len (str_of_int count))
         = zeros (text_len (str_of_int count) - text_len (str_of_int n))
           +:+ str_of_int n)
    ∧ zfill (str_of_int 3) (text_len (str_of_int 12)) = "03"
    ∧ zfill (str_of_int 3) (text_len (str_of_int 120)) = "003".
Proof.
  intros Henc Hd Hk. exists (vorbis_tags song t).
  split; [by apply embed_metadata_generic |].
  unfold vorbis_tags.
  split; [by rewrite !vcomment_set_ne, vcomment_set_eq by done |].
  split; [by rewrite vcomment_set_ne, vcomment_set_eq by done |].
  split; [intros n count Hn; by apply zfill_nonneg |].
  split; reflexivity.
Qed.

End GenericWriter.

Lemma generic_zero_padding_witness :
  ∃ t',
    embed_metadata (demo_path ".flac") demo_song
      {[ "/music/song.flac" := Audio FLAC ∅ [] ]}
    = (Ok (), <[ "/music/song.flac" := Audio FLAC t' [] ]>
                {[ "/music/song.flac" := Audio FLAC ∅ [] ]})
    ∧ t' !! "discnumber" = Some (PList [PStr "03"])
    ∧ t' !! "tracknumber" = Some (PList [PStr "05"]).
Proof.
  destruct (generic_zero_padding (demo_path ".flac") demo_song
              {[ "/music/song.flac" := Audio FLAC ∅ [] ]} FLAC ∅ [])
    as (t' & Hw & Hd & Ht & _); [reflexivity | reflexivity | reflexivity |].
  exists t'. split; [exact Hw |]. split; [exact Hd | exact Ht].
Defined.

(* ================================================================= *)
(** * The reader, one key at a time                                   *)
(* ================================================================= *)

(** The output fields a round of the loop may assign, whatever the format
    and the value. *)
Definition touched (key : string) : list string :=
  match get_truthy TAG_TO_SONG key with Some f => [f] | None => [] end
  ++ (if key == "woas" then ["url"] else [])
  ++ (if (key == "year") || (key == "originaldate") then ["year"] else [])
  ++ (if key == "date" then ["date"] else [])
  ++ (if key == "tracknumber" then ["track_number"; "tracks_count"] else [])
  ++ (if key == "discnumber" then ["disc_number"; "disc_count"] else [])
  ++ (if key == "explicit" then ["explicit"] else []).

Definition untouched (f : string) (keys : list string) : bool :=
  forallb (fun key => negb (elem_str f (touched key))) keys.

(** The keys the loop visits before and after a key. *)
Fixpoint before (key : string) (l : list string) : list string :=
  match l with
  | [] => []
  | k :: l' => if k == key then [] else k :: before key l'
  end.

Fixpoint after (key : string) (l : list string) : list string :=
  match l with
  | [] => []
  | k :: l' => if k == key then l' else after key l'
  end.

(** A field that the rounds of the other keys leave alone. *)
Definition only_from (key f : string) : bool :=
  elem_str key (TAG_PRESET.*1)
  && untouched f (before key (TAG_PRESET.*1) ++ after key (TAG_PRESET.*1)).

(** Files to read from. *)
Definition demo_disk (sfx : string) (f : family) (tags : list (string * pyval)) : disk :=
  {[ resolve (demo_path sfx) := Audio f (list_to_map tags) [] ]}.

Definition mp3_3_of_12 : list (string * pyval) :=
  [("TPE1", text_frame "TPE1" [PStr "Ann"]);
   ("TRCK", text_frame "TRCK" [PStr "3/12"])].

Definition mp3_5 : list (string * pyval) :=
  [("TPE1", text_frame "TPE1" [PStr "Ann"]);
   ("TRCK", text_frame "TRCK" [PStr "5"])].

Definition flac_two_artists : list (string * pyval) :=
  [("artist", PList [PStr "Ann"; PStr "Bob"])].

Definition flac_no_artist : list (string * pyval) :=
  [("title", PList [PStr "Title"])].

Definition m4a_empty_rating : list (string * pyval) :=
  [("©ART", PList [PStr "Ann"]); ("rtng", PList [])].

(** The read of a path returns a mapping. *)
Definition reads_ok (path : Path) (d : disk) : bool :=
  match get_file_metadata path d with
  | (Ok (Some _), _) => true
  | _ => false
  end.

(** A field of the mapping the read of a path returns. *)
Definition read_field (path : Path) (d : disk) (key : string) : option pyval :=
  match get_file_metadata path d with
  | (Ok (Some m), _) => m !! key
  | _ => None
  end.

Section ReaderFrame.

Lemma insert_other (m : meta) k v f : f ≠ k → <[k := v]> m !! f = m !! f.
Proof. intros. by rewrite lookup_insert_ne. Qed.

Lemma read_tag_other sfx h m key m' f :
  read_tag sfx h m key = Ok m' → ¬ In f (touched key) → m' !! f = m !! f.
Proof.
  intros H Hf. unfold read_tag in H. unfold touched in Hf.
  apply bind_Ok in H as (k & _ & H). unfold decode_tag in H.
  destruct (get_truthy TAG_TO_SONG key) as [mk |] eqn:Emk.
  all: repeat first
    [ progress peel H
    | match type of H with
      | (if ?c then _ else _) = Ok _ => destruct c eqn:?
      | match ?c with _ => _ end = Ok _ => destruct c eqn:?
      end ].
  all: try discriminate H.
  all: injection H as <-; try reflexivity.
  all: repeat match goal with E : (_ == _) = _ |- _ => rewrite ?E in Hf; clear E end.
  all: rewrite ?orb_true_r in Hf; simpl in Hf; rewrite ?insert_other; try reflexivity.
  all: intros ->; apply Hf; rewrite ?in_app_iff; simpl; tauto.
Qed.

Lemma for_each_app {St A} (step : St → A → result St) s l1 l2 :
  for_each step s (l1 ++ l2) = for_each step s l1 ≫= fun s1 => for_each step s1 l2.
Proof.
  revert s; induction l1 as [| x l1 IH]; intros s; simpl; [done |].
  destruct (step s x); simpl; auto.
Qed.

Lemma for_each_other sfx h f keys m m' :
  untouched f keys = true →
  for_each (read_tag sfx h) m keys = Ok m' → m' !! f = m !! f.
Proof.
  revert m; induction keys as [| key keys IH]; simpl; intros m Hu H.
  - by injection H as <-.
  - apply andb_true_iff in Hu as [Hk Hu].
    apply bind_Ok in H as (m1 & H1 & H).
    rewrite (IH _ Hu H). apply (read_tag_other _ _ _ _ _ _ H1).
    intros Hin. apply negb_true_iff in Hk. unfold elem_str in Hk.
    assert (existsb (String.eqb f) (touched key) = true) as Hex; [| congruence].
    apply existsb_exists. exists f. split; [done | apply String.eqb_refl].
Qed.

(** A field that only one key assigns is decided by the round of that
    key. *)
Lemma field_decided sfx h f key pre post song_meta :
  TAG_PRESET.*1 = pre ++ key :: post →
  untouched f (pre ++ post) = true →
  for_each (read_tag sfx h) ∅ (TAG_PRESET.*1) = Ok song_meta →
  ∃ m1 m2, read_tag sfx h m1 key = Ok m2 ∧ m1 !! f = None
           ∧ song_meta !! f = m2 !! f.
Proof.
  intros -> Hu H. unfold untouched in Hu.
  rewrite forallb_app in Hu. apply andb_true_iff in Hu as [Hpre Hpost].
  rewrite for_each_app in H. apply bind_Ok in H as (m1 & H1 & H).
  simpl in H. apply bind_Ok in H as (m2 & H2 & H).
  exists m1, m2. split; [done |]. split.
  - by rewrite (for_each_other _ _ _ _ _ _ Hpre H1).
  - by rewrite (for_each_other _ _ _ _ _ _ Hpost H).
Qed.

Lemma before_after key l :
  elem_str key l = true → l = before key l ++ key :: after key l.
Proof.
  unfold elem_str. induction l as [| k l IH]; simpl; [done |].
  rewrite String.eqb_sym. destruct (k == key) eqn:E; simpl.
  - apply String.eqb_eq in E. by subst.
  - intros H. by rewrite <- IH.
Qed.

Lemma field_of_key sfx h key f song_meta :
  only_from key f = true →
  for_each (read_tag sfx h) ∅ (TAG_PRESET.*1) = Ok song_meta →
  ∃ m1 m2, read_tag sfx h m1 key = Ok m2 ∧ m1 !! f = None
           ∧ song_meta !! f = m2 !! f.
Proof.
  intros [Hin Hu]%andb_true_iff.
  by apply (field_decided sfx h f key _ _ song_meta (before_after _ _ Hin)).
Qed.

Lemma read_tags_Ok sfx h m :
  read_tags sfx h = Ok m →
  ∃ song_meta a first,
    for_each (read_tag sfx h) ∅ (TAG_PRESET.*1) = Ok song_meta
    ∧ song_meta !! "artists" = Some a ∧ item a 0 = Ok first
    ∧ m = <["artist" := first]> song_meta.
Proof.
  unfold read_tags, meta_item. intros H.
  apply bind_Ok in H as (song_meta & Hloop & H).
  apply bind_Ok in H as (a & Ha & H).
  apply bind_Ok in H as (first & Hfirst & H).
  destruct (song_meta !! "artists") eqn:E; [| discriminate].
  injection Ha as ->. injection H as <-. eauto 10.
Qed.

(** The handle the reader works on. *)
Definition loaded (path : Path) (f : family) (t : gmap string pyval)
    (pictures : list pyval) : handle :=
  Handle (kind_of f false) f (resolve path) t pictures.

Lemma get_loaded path f t pictures key :
  get (loaded path f t pictures) key = default PNone (t !! key).
Proof. by destruct f. Qed.

Lemma read_tag_loaded sfx path f t pictures song_meta key k :
  native_key sfx key = Ok k →
  read_tag sfx (loaded path f t pictures) song_meta key
  = decode_tag sfx song_meta key (default PNone (t !! k)).
Proof. intros Hk. unfold read_tag. rewrite Hk. simpl. by rewrite get_loaded. Qed.

Lemma get_file_metadata_loaded path (d : disk) f t pictures :
  d !! resolve path = Some (Audio f t pictures) → size t ≠ 0%nat →
  get_file_metadata path d
  = (Some <$> read_tags (suffix path) (loaded path f t pictures), d).
Proof.
  intros Hd Ht. unfold get_file_metadata, io_bind, exists_, File, io_lift, loaded.
  rewrite Hd. simpl. rewrite Hd. unfold is_empty. simpl.
  by rewrite bool_decide_eq_false_2.
Qed.

Lemma get_file_metadata_Some path (d d' : disk) m :
  get_file_metadata path d = (Ok (Some m), d') →
  d' = d ∧ ∃ f t pictures,
    d !! resolve path = Some (Audio f t pictures)
    ∧ read_tags (suffix path) (loaded path f t pictures) = Ok m.
Proof.
  unfold get_file_metadata, io_bind, exists_, File, io_lift, io_ret, io_raise.
  destruct (d !! resolve path) as [[| | f t p] |] eqn:Hd; simpl;
    rewrite ?Hd; try discriminate.
  destruct (is_empty _); [discriminate |].
  destruct (read_tags _ _) as [m0 |] eqn:E; simpl; [| discriminate].
  intros [= <- <-]. split; [done |]. exists f, t, p. eauto.
Qed.

Lemma reads_ok_spec path (d : disk) :
  reads_ok path d = true → ∃ m, get_file_metadata path d = (Ok (Some m), d).
Proof.
  unfold reads_ok.
  destruct (get_file_metadata path d) as [[[m |] | e] d'] eqn:E; try discriminate.
  destruct (get_file_metadata_Some _ _ _ _ E) as [-> _]. eauto.
Qed.

Lemma read_field_spec path (d d' : disk) m key :
  get_file_metadata path d = (Ok (Some m), d') → read_field path d key = m !! key.
Proof. unfold read_field. by intros ->. Qed.

End ReaderFrame.

(* ================================================================= *)
(** * The reader on the generic formats                               *)
(* ================================================================= *)

Section GenericReader.

Lemma generic_suffix sfx :
  In sfx [".flac"; ".ogg"; ".opus"] → sfx == ".m4a" = false ∧ sfx == ".mp3" = false.
Proof. simpl. intros [<- | [<- | [<- | []]]]; split; reflexivity. Qed.

Lemma read_tag_generic_discnumber sfx path f t pictures song_meta val :
  sfx == ".m4a" = false → sfx == ".mp3" = false →
  t !! "discnumber" = Some val → is_none val = false →
  read_tag sfx (loaded path f t pictures) song_meta "discnumber"
  = (x ← item val 0; n ← int_ x; Ok (<["disc_count" := PInt n]> song_meta)).
Proof.
  intros Hm4a Hmp3 Ht Hval. unfold read_tag, native_key, decode_tag.
  rewrite Hm4a, Hmp3. simpl. rewrite get_loaded, Ht. simpl. by rewrite Hval.
Qed.

(** C2: on a generic format, a [discnumber] that is there is decoded as an
    integer and that integer goes to the [disc_count] field of the mapping;
    the [disc_number] field is not in the mapping at all. *)
Theorem generic_discnumber path (d : disk) f t pictures val :
  In (suffix path) [".flac"; ".ogg"; ".opus"] →
  d !! resolve path = Some (Audio f t pictures) →
  t !! "discnumber" = Some val → is_none val = false →
  (∀ song_meta,
     read_tag (suffix path) (loaded path f t pictures) song_meta "discnumber"
     = (x ← item val 0; n ← int_ x; Ok (<["disc_count" := PInt n]> song_meta)))
  ∧ (∀ m, get_file_metadata path d = (Ok (Some m), d) →
       ∃ x n, item val 0 = Ok x ∧ int_ x = Ok n
              ∧ m !! "disc_count" = Some (PInt n)
              ∧ m !! "disc_number" = None).
Proof.
  intros [Hm4a Hmp3]%generic_suffix Hd Ht Hval.
  split; [intros; by apply read_tag_generic_discnumber |].
  intros m (_ & f' & t' & p' & Hd' & Hm)%get_file_metadata_Some.
  rewrite Hd in Hd'. injection Hd' as <- <- <-.
  apply read_tags_Ok in Hm as (song_meta & a & first & Hloop & _ & _ & ->).
  rewrite !insert_other by done.
  destruct (field_of_key _ _ "discnumber" "disc_count" _ eq_refl Hloop)
    as (m1 & m2 & Hstep & _ & ->).
  destruct (field_of_key _ _ "discnumber" "disc_number" _ eq_refl Hloop)
    as (m1' & m2' & Hstep' & Hnone & ->).
  rewrite (read_tag_generic_discnumber _ _ _ _ _ _ val Hm4a Hmp3 Ht Hval) in Hstep.
  rewrite (read_tag_generic_discnumber _ _ _ _ _ _ val Hm4a Hmp3 Ht Hval) in Hstep'.
  apply bind_Ok in Hstep as (x & Hx & Hstep).
  apply bind_Ok in Hstep as (n & Hn & [= <-]).
  rewrite Hx in Hstep'. simpl in Hstep'. rewrite Hn in Hstep'.
  injection Hstep' as <-.
  exists x, n. by rewrite lookup_insert_eq, insert_other.
Qed.

End GenericReader.

Lemma generic_discnumber_witness :
  ∃ m,
    get_file_metadata (demo_path ".flac")
      (demo_disk ".flac" FLAC [("artist", PList [PStr "Ann"]);
                               ("discnumber", PList [PStr "03"])])
    = (Ok (Some m),
       demo_disk ".flac" FLAC [("artist", PList [PStr "Ann"]);
                               ("discnumber", PList [PStr "03"])])
    ∧ m !! "disc_count" = Some (PInt 3) ∧ m !! "disc_number" = None.
Proof.
  destruct (reads_ok_spec (demo_path ".flac")
              (demo_disk ".flac" FLAC [("artist", PList [PStr "Ann"]);
                                       ("discnumber", PList [PStr "03"])]))
    as [m E]; [vm_compute; reflexivity |].
  exists m. split; [exact E |].
  destruct (generic_discnumber (demo_path ".flac")
              (demo_disk ".flac" FLAC [("artist", PList [PStr "Ann"]);
                                       ("discnumber", PList [PStr "03"])])
              FLAC
              (list_to_map [("artist", PList [PStr "Ann"]);
                            ("discnumber", PList [PStr "03"])])
              [] (PList [PStr "03"]))
    as [_ H]; [simpl; tauto | reflexivity | reflexivity | reflexivity |].
  destruct (H m E) as (x & n & Hx & Hn & Hc & Hd).
  vm_compute in Hx. injection Hx as <-.
  vm_compute in Hn. injection Hn as <-.
  split; [exact Hc | exact Hd].
Defined.

(* ================================================================= *)
(** * The reader on MP3                                               *)
(* ================================================================= *)

Section Mp3Reader.

Lemma getattr_not_none v name x : getattr v name = Ok x → is_none v = false.
Proof. by destruct v. Qed.

Lemma read_tag_mp3_tracknumber path f t pictures song_meta frame txt s :
  t !! "TRCK" = Some frame → getattr frame "text" = Ok txt →
  item txt 0 = Ok (PStr s) →
  read_tag ".mp3" (loaded path f t pictures) song_meta "tracknumber"
  = match split "/" s with
    | [c0; c1] =>
        n ← int_of_text c0; c ← int_of_text c1;
        Ok (<["tracks_count" := PInt c]> (<["track_number" := PInt n]> song_meta))
    | _ => Ok (<["track_number" := PStr s]> song_meta)
    end.
Proof.
  intros Ht Hattr Hitem.
  rewrite (read_tag_loaded ".mp3" _ _ _ _ _ "tracknumber" "TRCK" eq_refl), Ht.
  unfold decode_tag. simpl.
  rewrite (getattr_not_none _ _ _ Hattr), Hattr. simpl. rewrite Hitem. done.
Qed.

Lemma read_tag_mp3_discnumber path f t pictures song_meta frame txt s :
  t !! "TPOS" = Some frame → getattr frame "text" = Ok txt →
  item txt 0 = Ok (PStr s) →
  read_tag ".mp3" (loaded path f t pictures) song_meta "discnumber"
  = match split "/" s with
    | [c0; c1] =>
        n ← int_of_text c0; c ← int_of_text c1;
        Ok (<["disc_count" := PInt c]> (<["disc_number" := PInt n]> song_meta))
    | _ => Ok (<["disc_number" := PStr s]> song_meta)
    end.
Proof.
  intros Ht Hattr Hitem.
  rewrite (read_tag_loaded ".mp3" _ _ _ _ _ "discnumber" "TPOS" eq_refl), Ht.
  unfold decode_tag. simpl.
  rewrite (getattr_not_none _ _ _ Hattr), Hattr. simpl. rewrite Hitem. done.
Qed.

(** What the two branches of the split leave in the mapping. *)
Lemma split_number_step (song_meta m2 : meta) s number count :
  number ≠ count →
  match split "/" s with
  | [c0; c1] =>
      n ← int_of_text c0; c ← int_of_text c1;
      Ok (<[count := PInt c]> (<[number := PInt n]> song_meta))
  | _ => Ok (<[number := PStr s]> song_meta)
  end = Ok m2 →
  (∀ a b, split "/" s = [a; b] →
     ∃ n c, int_of_text a = Ok n ∧ int_of_text b = Ok c
            ∧ m2 !! number = Some (PInt n) ∧ m2 !! count = Some (PInt c))
  ∧ (no_char (fun c => Ascii.eqb c "/") s = true →
     m2 !! number = Some (PStr s) ∧ m2 !! count = song_meta !! count).
Proof.
  intros Hne H. split.
  - intros a b Hs. rewrite Hs in H.
    apply bind_Ok in H as (n & Hn & H). apply bind_Ok in H as (c & Hc & [= <-]).
    exists n, c. by rewrite lookup_insert_eq, insert_other, lookup_insert_eq.
  - intros Hs. rewrite (split_no_sep _ _ Hs) in H. injection H as <-.
    by rewrite lookup_insert_eq, insert_other.
Qed.

(** The file whose track number has no slash: the reader gives the text
    ["5"] as the number, not the integer 5. *)
Lemma mp3_number_kept_as_text :
  ∃ m,
    get_file_metadata (demo_path ".mp3") (demo_disk ".mp3" MP3 mp3_5)
    = (Ok (Some m), demo_disk ".mp3" MP3 mp3_5)
    ∧ m !! "track_number" = Some (PStr "5")
    ∧ m !! "track_number" ≠ Some (PInt 5).
Proof.
  destruct (reads_ok_spec (demo_path ".mp3") (demo_disk ".mp3" MP3 mp3_5))
    as [m E]; [vm_compute; reflexivity |].
  exists m. split; [exact E |].
  assert (m !! "track_number" = Some (PStr "5")) as H
    by (rewrite <- (read_field_spec _ _ _ _ "track_number" E); vm_compute; reflexivity).
  split; [exact H |]. rewrite H. discriminate.
Qed.

(** C5 (amended): on MP3, the text of the track number (of the disc number)
    is split on the slash: two parts are both read as integers and give the
    number and the count; a text without slash is recorded as the number as
    it stands, a text and not an integer, and the count is not in the
    mapping. *)
Theorem mp3_number_split path (d : disk) f t pictures m :
  suffix path = ".mp3" →
  d !! resolve path = Some (Audio f t pictures) →
  get_file_metadata path d = (Ok (Some m), d) →
  (∀ frame txt s,
     t !! "TRCK" = Some frame → getattr frame "text" = Ok txt →
     item txt 0 = Ok (PStr s) →
     (∀ a b, split "/" s = [a; b] →
        ∃ n c, int_of_text a = Ok n ∧ int_of_text b = Ok c
               ∧ m !! "track_number" = Some (PInt n)
               ∧ m !! "tracks_count" = Some (PInt c))
     ∧ (no_char (fun c => Ascii.eqb c "/") s = true →
        m !! "track_number" = Some (PStr s) ∧ m !! "tracks_count" = None))
  ∧ (∀ frame txt s,
     t !! "TPOS" = Some frame → getattr frame "text" = Ok txt →
     item txt 0 = Ok (PStr s) →
     (∀ a b, split "/" s = [a; b] →
        ∃ n c, int_of_text a = Ok n ∧ int_of_text b = Ok c
               ∧ m !! "disc_number" = Some (PInt n)
               ∧ m !! "disc_count" = Some (PInt c))
     ∧ (no_char (fun c => Ascii.eqb c "/") s = true →
        m !! "disc_number" = Some (PStr s) ∧ m !! "disc_count" = None)).
Proof.
  intros Hsfx Hd (_ & f' & t' & p' & Hd' & Hm)%get_file_metadata_Some.
  rewrite Hd in Hd'. injection Hd' as <- <- <-. rewrite Hsfx in Hm.
  apply read_tags_Ok in Hm as (song_meta & a & first & Hloop & _ & _ & ->).
  split; intros frame txt s Ht Hattr Hitem; rewrite !insert_other by done.
  - destruct (field_of_key _ _ "tracknumber" "track_number" _ eq_refl Hloop)
      as (m1 & m2 & Hstep & _ & ->).
    destruct (field_of_key _ _ "tracknumber" "tracks_count" _ eq_refl Hloop)
      as (m1' & m2' & Hstep' & Hnone & ->).
    rewrite (read_tag_mp3_tracknumber _ _ _ _ _ _ _ _ Ht Hattr Hitem) in Hstep.
    rewrite (read_tag_mp3_tracknumber _ _ _ _ _ _ _ _ Ht Hattr Hitem) in Hstep'.
    destruct (split_number_step _ _ _ "track_number" "tracks_count"
                ltac:(done) Hstep) as [H2 H1].
    destruct (split_number_step _ _ _ "track_number" "tracks_count"
                ltac:(done) Hstep') as [H2' H1'].
    split.
    + intros x y Hs. destruct (H2 x y Hs) as (n & c & Hn & Hc & Hnum & _).
      destruct (H2' x y Hs) as (n' & c' & Hn' & Hc' & _ & Hcount).
      exists n, c. repeat split; congruence.
    + intros Hs. split; [by apply H1 |].
      destruct (H1' Hs) as [_ ->]. done.
  - destruct (field_of_key _ _ "discnumber" "disc_number" _ eq_refl Hloop)
      as (m1 & m2 & Hstep & _ & ->).
    destruct (field_of_key _ _ "discnumber" "disc_count" _ eq_refl Hloop)
      as (m1' & m2' & Hstep' & Hnone & ->).
    rewrite (read_tag_mp3_discnumber _ _ _ _ _ _ _ _ Ht Hattr Hitem) in Hstep.
    rewrite (read_tag_mp3_discnumber _ _ _ _ _ _ _ _ Ht Hattr Hitem) in Hstep'.
    destruct (split_number_step _ _ _ "disc_number" "disc_count"
                ltac:(done) Hstep) as [H2 H1].
    destruct (split_number_step _ _ _ "disc_number" "disc_count"
                ltac:(done) Hstep') as [H2' H1'].
    split.
    + intros x y Hs. destruct (H2 x y Hs) as (n & c & Hn & Hc & Hnum & _).
      destruct (H2' x y Hs) as (n' & c' & Hn' & Hc' & _ & Hcount).
      exists n, c. repeat split; congruence.
    + intros Hs. split; [by apply H1 |].
      destruct (H1' Hs) as [_ ->]. done.
Qed.

End Mp3Reader.

Lemma mp3_number_split_witness :
  (∃ m,
     get_file_metadata (demo_path ".mp3") (demo_disk ".mp3" MP3 mp3_3_of_12)
     = (Ok (Some m), demo_disk ".mp3" MP3 mp3_3_of_12)
     ∧ m !! "track_number" = Some (PInt 3) ∧ m !! "tracks_count" = Some (PInt 12))
  ∧ (∃ m,
     get_file_metadata (demo_path ".mp3") (demo_disk ".mp3" MP3 mp3_5)
     = (Ok (Some m), demo_disk ".mp3" MP3 mp3_5)
     ∧ m !! "track_number" = Some (PStr "5") ∧ m !! "tracks_count" = None).
Proof.
  split.
  - destruct (reads_ok_spec (demo_path ".mp3") (demo_disk ".mp3" MP3 mp3_3_of_12))
      as [m E]; [vm_compute; reflexivity |].
    exists m. split; [exact E |].
    destruct (mp3_number_split (demo_path ".mp3") (demo_disk ".mp3" MP3 mp3_3_of_12)
                MP3 (list_to_map mp3_3_of_12) [] m eq_refl eq_refl E) as [H _].
    destruct (H (text_frame "TRCK" [PStr "3/12"]) (PList [PStr "3/12"]) "3/12"
                eq_refl eq_refl eq_refl) as [H2 _].
    destruct (H2 "3" "12" eq_refl) as (n & c & Hn & Hc & Hnum & Hcount).
    vm_compute in Hn. injection Hn as <-.
    vm_compute in Hc. injection Hc as <-.
    split; [exact Hnum | exact Hcount].
  - destruct (reads_ok_spec (demo_path ".mp3") (demo_disk ".mp3" MP3 mp3_5))
      as [m E]; [vm_compute; reflexivity |].
    exists m. split; [exact E |].
    destruct (mp3_number_split (demo_path ".mp3") (demo_disk ".mp3" MP3 mp3_5)
                MP3 (list_to_map mp3_5) [] m eq_refl eq_refl E) as [H _].
    destruct (H (text_frame "TRCK" [PStr "5"]) (PList [PStr "5"]) "5"
                eq_refl eq_refl eq_refl) as [_ H1].
    exact (H1 eq_refl).
Defined.

(* ================================================================= *)
(** * The main artist                                                 *)
(* ================================================================= *)

Section MainArtist.

Lemma read_tag_absent sfx path f t pictures song_meta key k :
  native_key sfx key = Ok k → t !! k = None →
  read_tag sfx (loaded path f t pictures) song_meta key
  = Ok match get_truthy TAG_TO_SONG key with
       | Some empty_key => <[empty_key := PNone]> song_meta
       | None => song_meta
       end.
Proof.
  intros Hk Ht. rewrite (read_tag_loaded _ _ _ _ _ _ _ _ Hk), Ht.
  unfold decode_tag. simpl. by destruct (get_truthy _ _).
Qed.

(** The file without artist tag that the reader refuses with a type error,
    not with an index error. *)
Lemma absent_artist_type_error :
  get_file_metadata (demo_path ".flac") (demo_disk ".flac" FLAC flac_no_artist)
  = (Raise TypeError, demo_disk ".flac" FLAC flac_no_artist)
  ∧ get_file_metadata (demo_path ".flac") (demo_disk ".flac" FLAC flac_no_artist)
    ≠ (Raise IndexError, demo_disk ".flac" FLAC flac_no_artist).
Proof.
  assert (get_file_metadata (demo_path ".flac") (demo_disk ".flac" FLAC flac_no_artist)
          = (Raise TypeError, demo_disk ".flac" FLAC flac_no_artist))
    as H by (vm_compute; reflexivity).
  split; [exact H |]. rewrite H. discriminate.
Qed.

(** C9 (amended): a read that returns sets [artist] to the first element of
    the [artists] field.  Once the loop is over, the [artists] field is in
    the mapping; when it is a list that is not empty the step succeeds, when
    it is the empty list the reader raises an index error, and when it is
    absent (recorded as [None], which is what a file without artist tag
    gives) the reader raises a type error; no mapping is returned in these
    two cases. *)
Theorem main_artist path (d : disk) f t pictures :
  d !! resolve path = Some (Audio f t pictures) → size t ≠ 0%nat →
  (∀ m, get_file_metadata path d = (Ok (Some m), d) →
     ∃ a first, m !! "artists" = Some a ∧ item a 0 = Ok first
                ∧ m !! "artist" = Some first)
  ∧ (∀ song_meta,
       for_each (read_tag (suffix path) (loaded path f t pictures)) ∅ (TAG_PRESET.*1)
       = Ok song_meta →
       is_Some (song_meta !! "artists")
       ∧ (∀ x l, song_meta !! "artists" = Some (PList (x :: l)) →
            get_file_metadata path d = (Ok (Some (<["artist" := x]> song_meta)), d))
       ∧ (song_meta !! "artists" = Some (PList []) →
            get_file_metadata path d = (Raise IndexError, d))
       ∧ (song_meta !! "artists" = Some PNone →
            get_file_metadata path d = (Raise TypeError, d))
       ∧ (∀ k, native_key (suffix path) "artist" = Ok k → t !! k = None →
            song_meta !! "artists" = Some PNone)).
Proof.
  intros Hd Ht. rewrite (get_file_metadata_loaded _ _ _ _ _ Hd Ht). split.
  - intros m H. destruct (read_tags _ _) as [m0 |] eqn:E; [| discriminate].
    injection H as ->.
    apply read_tags_Ok in E as (song_meta & a & first & _ & Ha & Hfirst & ->).
    exists a, first. by rewrite insert_other, lookup_insert_eq.
  - intros song_meta Hloop. unfold read_tags, meta_item. rewrite Hloop. simpl.
    destruct (field_of_key _ _ "artist" "artists" _ eq_refl Hloop)
      as (m1 & m2 & Hstep & _ & Heq).
    split; [| split; [| split; [| split]]].
    + rewrite Heq. clear Heq Hloop. unfold read_tag in Hstep.
      apply bind_Ok in Hstep as (k & _ & Hstep). unfold decode_tag in Hstep.
      change (get_truthy TAG_TO_SONG "artist") with (Some "artists") in Hstep.
      destruct (is_none _).
      { injection Hstep as <-. by rewrite lookup_insert_eq. }
      destruct (suffix path == ".mp3"); [| destruct (suffix path == ".m4a")];
        simpl in Hstep; peel Hstep; injection Hstep as <-;
        by rewrite lookup_insert_eq.
    + by intros x l ->.
    + by intros ->.
    + by intros ->.
    + intros k Hk Hnone. rewrite Heq.
      rewrite (read_tag_absent _ _ _ _ _ _ _ _ Hk Hnone) in Hstep.
      injection Hstep as <-. by rewrite lookup_insert_eq.
Qed.

End MainArtist.

Lemma main_artist_witness :
  ∃ m,
    get_file_metadata (demo_path ".flac") (demo_disk ".flac" FLAC flac_two_artists)
    = (Ok (Some m), demo_disk ".flac" FLAC flac_two_artists)
    ∧ m !! "artists" = Some (PList [PStr "Ann"; PStr "Bob"])
    ∧ m !! "artist" = Some (PStr "Ann").
Proof.
  destruct (reads_ok_spec (demo_path ".flac") (demo_disk ".flac" FLAC flac_two_artists))
    as [m E]; [vm_compute; reflexivity |].
  exists m. split; [exact E |].
  destruct (main_artist (demo_path ".flac") (demo_disk ".flac" FLAC flac_two_artists)
              FLAC (list_to_map flac_two_artists) []
              eq_refl ltac:(vm_compute; discriminate)) as [H _].
  destruct (H m E) as (a & first & Ha & Hfirst & Hartist).
  assert (m !! "artists" = Some (PList [PStr "Ann"; PStr "Bob"])) as Ha'
    by (rewrite <- (read_field_spec _ _ _ _ "artists" E); vm_compute; reflexivity).
  rewrite Ha' in Ha. injection Ha as <-.
  vm_compute in Hfirst. injection Hfirst as <-.
  split; [exact Ha' | exact Hartist].
Defined.

(* ================================================================= *)
(** * Writing, then reading                                           *)
(* ================================================================= *)

Section RoundTripSteps.

Lemma for_each_step {St A} (step : St → A → result St) s s' x l :
  step s x = Ok s' → for_each step s (x :: l) = for_each step s' l.
Proof. intros H. simpl. by rewrite H. Qed.

Lemma year_of_text s y :
  int_of_text (text_take 4 s) = Ok y → year_of (PStr s) = Ok (PInt y).
Proof. intros H. unfold year_of. simpl. by rewrite H. Qed.

(** The shapes a round of the loop takes on a value that the writer set
    under a condition, and what they come to. *)
Lemma optional_field (c : bool) v u (m : meta) k :
  is_none v = false → unwrap v = Ok u →
  (if is_none (default PNone (if c then Some v else None))
   then Ok (<[k := PNone]> m)
   else unwrap (default PNone (if c then Some v else None))
        ≫= fun v' => Ok (<[k := v']> m))
  = Ok (<[k := if c then u else PNone]> m).
Proof. intros Hv Hu. destruct c; simpl; by rewrite ?Hv, ?Hu. Qed.

Lemma if_same {A} (c : bool) (x : A) : (if c then x else x) = x.
Proof. by destruct c. Qed.

Lemma size_nonzero (t : gmap string pyval) k v : t !! k = Some v → size t ≠ 0%nat.
Proof. intros H Hs. apply map_size_empty_iff in Hs. by rewrite Hs in H. Qed.

Lemma main_artist_item l :
  has_main_artist l = true →
  ∃ first, item (unwrapped l) 0 = Ok first.
Proof.
  destruct l as [| a [| b l]]; simpl; [done | | eauto].
  intros Ha. destruct a as [| c a]; [done |]. unfold text_len. simpl. eauto.
Qed.

Lemma when_insert_ne c key key' v (t : gmap string pyval) :
  key ≠ key' → when c (insert key v) t !! key' = t !! key'.
Proof. intros Hne. destruct c; simpl; [by apply lookup_insert_ne | done]. Qed.

Lemma when_insert_eq c key v (t : gmap string pyval) :
  when c (insert key v) t !! key = if c then Some v else t !! key.
Proof. destruct c; simpl; [by apply lookup_insert_eq | done]. Qed.

Lemma unwrap_texts l : l ≠ [] → unwrap (texts l) = Ok (unwrapped l).
Proof. by destruct l as [| a [| b l]]. Qed.

Lemma has_main_artist_nonempty l : has_main_artist l = true → l ≠ [].
Proof. by destruct l. Qed.

Lemma when_list_field l (m : meta) k :
  (if is_none (default PNone (if (0 <? length l)%nat then Some (texts l) else None))
   then Ok (<[k := PNone]> m)
   else unwrap (default PNone (if (0 <? length l)%nat then Some (texts l) else None))
        ≫= fun v' => Ok (<[k := v']> m))
  = Ok (<[k := unwrapped l]> m).
Proof. by destruct l as [| a [| b l]]. Qed.

End RoundTripSteps.

Ltac look tags :=
  unfold tags;
  repeat first
    [ rewrite vcomment_set_eq
    | rewrite vcomment_set_ne by done
    | rewrite when_eq
    | rewrite when_ne by done
    | rewrite when_insert_eq
    | rewrite when_insert_ne by done
    | rewrite lookup_insert_eq
    | rewrite lookup_insert_ne by done
    | rewrite lookup_empty ].

Section GenericRoundTrip.

Variables (path : Path) (song : Song) (f : family) (pictures : list pyval).
Variable y : Z.
Hypothesis Hyear : int_of_text (text_take 4 (date song)) = Ok y.
Hypothesis Hsuffix : In (suffix path) [".flac"; ".ogg"; ".opus"].

Lemma vorbis_list_field l (m : meta) k :
  (if is_none (default PNone (vorbis_value (texts l)))
   then Ok (<[k := PNone]> m)
   else unwrap (default PNone (vorbis_value (texts l)))
        ≫= fun v' => Ok (<[k := v']> m))
  = Ok (<[k := unwrapped l]> m).
Proof. by destruct l as [| a [| b l]]. Qed.

Lemma vorbis_when_list_field l (m : meta) k :
  (if is_none (default PNone (if (0 <? length l)%nat
                              then vorbis_value (texts l) else None))
   then Ok (<[k := PNone]> m)
   else unwrap (default PNone (if (0 <? length l)%nat
                               then vorbis_value (texts l) else None))
        ≫= fun v' => Ok (<[k := v']> m))
  = Ok (<[k := unwrapped l]> m).
Proof. by destruct l as [| a [| b l]]. Qed.

Lemma vorbis_optional_field o (m : meta) k :
  (if is_none (default PNone (if truthy (optional o)
                              then vorbis_value (optional o) else None))
   then Ok (<[k := PNone]> m)
   else unwrap (default PNone (if truthy (optional o)
                               then vorbis_value (optional o) else None))
        ≫= fun v' => Ok (<[k := v']> m))
  = Ok (<[k := if_present o]> m).
Proof. by destruct o as [[| c s] |]. Qed.

Lemma generic_loop (m0 : meta) :
  ∃ song_meta,
    for_each (read_tag (suffix path) (loaded path f (vorbis_tags song ∅) pictures))
      m0 (TAG_PRESET.*1) = Ok song_meta
    ∧ song_meta !! "name" = Some (PStr (name song))
    ∧ song_meta !! "artists" = Some (unwrapped (artists song))
    ∧ song_meta !! "album_name"
      = Some (if truthy (PStr (album_name song)) then PStr (album_name song) else PNone)
    ∧ song_meta !! "genres" = Some (unwrapped (genres song))
    ∧ song_meta !! "track_number" = Some (PInt (track_number song))
    ∧ song_meta !! "copyright_text" = Some (if_present (copyright_text song))
    ∧ song_meta !! "url" = Some (PStr (url song))
    ∧ song_meta !! "lyrics" = Some (if_present (lyrics song))
    ∧ song_meta !! "tracks_count" = m0 !! "tracks_count"
    ∧ song_meta !! "comment" = m0 !! "comment".
Proof.
  destruct (generic_suffix _ Hsuffix) as [Hm4a Hmp3].
  assert (Hnative : ∀ key, native_key (suffix path) key = Ok key).
  { intros key. unfold native_key. by rewrite Hm4a, Hmp3. }
  eexists. split.
  - change (TAG_PRESET.*1) with
      ["album"; "artist"; "date"; "title"; "year"; "originaldate"; "comment";
       "group"; "writer"; "genre"; "tracknumber"; "albumartist"; "discnumber";
       "cpil"; "albumart"; "encodedby"; "copyright"; "tempo"; "lyrics";
       "explicit"; "woas"].
    repeat
      (eapply eq_trans;
       [ apply for_each_step;
         rewrite (read_tag_loaded _ _ _ _ _ _ _ _ (Hnative _)); look vorbis_tags;
         unfold decode_tag; rewrite Hm4a, Hmp3; simpl;
         first
           [ reflexivity
           | eapply optional_field; reflexivity
           | apply vorbis_list_field
           | apply vorbis_when_list_field
           | apply vorbis_optional_field
           | apply if_same
           | rewrite (year_of_text _ _ Hyear); reflexivity
           | unfold zfilled; rewrite int_of_text_zfill; reflexivity ]
       | ]).
    reflexivity.
  - repeat split; by rewrite ?insert_other by done; rewrite ?lookup_insert_eq.
Qed.

Lemma generic_round_trip (d : disk) :
  d !! resolve path = Some (Audio f ∅ pictures) →
  kind_of f false = VComment →
  has_main_artist (artists song) = true →
  ∃ d' m,
    embed_metadata path song d = (Ok (), d')
    ∧ get_file_metadata path d' = (Ok (Some m), d')
    ∧ m !! "name" = Some (PStr (name song))
    ∧ m !! "artists" = Some (unwrapped (artists song))
    ∧ m !! "album_name"
      = Some (if truthy (PStr (album_name song)) then PStr (album_name song) else PNone)
    ∧ m !! "genres" = Some (unwrapped (genres song))
    ∧ m !! "track_number" = Some (PInt (track_number song))
    ∧ m !! "copyright_text" = Some (if_present (copyright_text song))
    ∧ m !! "url" = Some (PStr (url song))
    ∧ m !! "lyrics" = Some (if_present (lyrics song))
    ∧ m !! "tracks_count" = None
    ∧ m !! "comment" = None.
Proof.
  intros Hd Hk Hartists.
  assert (Henc : elem_str (text_drop 1 (suffix path)) ["flac"; "ogg"; "opus"] = true).
  { simpl in Hsuffix. by destruct Hsuffix as [<- | [<- | [<- | []]]]. }
  exists (<[resolve path := Audio f (vorbis_tags song ∅) pictures]> d).
  destruct (generic_loop ∅)
    as (song_meta & Hloop & Hname & Ha & Halbum & Hg & Ht & Hc & Hu & Hl & Htc & Hcm).
  destruct (main_artist_item _ Hartists) as [first Hfirst].
  exists (<["artist" := first]> song_meta).
  split; [by apply embed_metadata_generic |].
  split.
  - erewrite get_file_metadata_loaded;
      [| apply lookup_insert_eq
       | apply (size_nonzero _ "woas" (PList [PStr (url song)])); by look vorbis_tags ].
    unfold read_tags, meta_item. rewrite Hloop. simpl. rewrite Ha. simpl.
    by rewrite Hfirst.
  - rewrite !insert_other by done. rewrite Htc, Hcm, !lookup_empty. done.
Qed.

End GenericRoundTrip.

Section Mp4RoundTrip.

Variables (path : Path) (song : Song) (pictures : list pyval).
Variable y : Z.
Hypothesis Hyear : int_of_text (text_take 4 (date song)) = Ok y.
Hypothesis Hsuffix : suffix path = ".m4a".
Hypothesis Htrack : pair_in_range (track_number song) (tracks_count song) = true.
Hypothesis Hdisc : pair_in_range (disc_number song) (disc_count song) = true.
Hypothesis Hurl : utf8_valid (url song) = true.

Lemma forallb_is_str l : forallb is_str (PStr <$> l) = true.
Proof. induction l; simpl; auto. Qed.

Lemma set_tag_native tp h field key v :
  dict_get tp field = Some key → set_tag tp h field v = setitem h key v.
Proof. intros H. unfold set_tag, subscript. by rewrite H. Qed.

(** [embed_tags] on MP4 tags. *)
Lemma embed_tags_mp4 h :
  h_kind h = MP4 →
  embed_tags M4A_TAG_PRESET "m4a" song h = Ok (with_tags h (mp4_tags song (h_tags h))).
Proof.
  intros Hk. destruct h as [k f n t p]. simpl in Hk. subst k.
  unfold embed_tags.
  repeat (erewrite set_tag_native by reflexivity).
  unfold mp4_tags, when, setitem, with_tags.
  cbn [elem_str existsb String.eqb Ascii.eqb Bool.eqb orb andb negb h_kind h_tags
       h_family h_filename h_pictures mbind result_bind].
  simpl truthy.
  destruct (negb (album_name song == "")), (0 <? length (genres song))%nat,
    (truthy (optional (copyright_text song))), (truthy (optional (lyrics song))),
    (truthy (optional (download_url song))); reflexivity.
Qed.

Lemma render_pair_in_range n count :
  pair_in_range n count = true →
  render_pair (PTuple [PInt n; PInt count]) = Some (PTuple [PInt n; PInt count]).
Proof. unfold pair_in_range, render_pair. simpl. by intros ->. Qed.

Lemma render_text key s :
  atom_of key = AText → render key (PStr s) = Some (PList [PStr s]).
Proof. intros H. unfold render. by rewrite H. Qed.

Lemma render_texts key l :
  atom_of key = AText → render key (texts l) = Some (texts l).
Proof. intros H. unfold render, texts. by rewrite H, forallb_is_str. Qed.

Lemma render_optional key o :
  atom_of key = AText → truthy (optional o) = true →
  render key (optional o) = Some (PList [optional o]).
Proof. intros H Ho. unfold render. rewrite H. by destruct o. Qed.

Lemma render_pairs key n count :
  atom_of key = APair → pair_in_range n count = true →
  render key (PList [PTuple [PInt n; PInt count]])
  = Some (PList [PTuple [PInt n; PInt count]]).
Proof.
  intros H Hr. unfold render. rewrite H. simpl.
  by rewrite (render_pair_in_range _ _ Hr).
Qed.

Lemma render_rating (b : bool) :
  render "rtng" (PTuple [PInt (if b then 4 else 2)])
  = Some (PList [PInt (if b then 4 else 2)]).
Proof. by destruct b. Qed.

Lemma render_freeform key s :
  atom_of key = AFreeform → render key (PBytes s) = Some (PList [PBytes s]).
Proof. intros H. unfold render. by rewrite H. Qed.

Lemma imap_insert k v w (t : gmap string pyval) :
  render k v = Some w →
  map_imap render (<[k := v]> t) = <[k := w]> (map_imap render t).
Proof. intros H. by rewrite map_imap_insert, H. Qed.

Lemma imap_when (c : bool) k v w (t : gmap string pyval) :
  (c = true → render k v = Some w) →
  map_imap render (when c (insert k v) t) = when c (insert k w) (map_imap render t).
Proof. destruct c; simpl; [intros H; apply imap_insert; auto | done]. Qed.

Lemma renderable_insert k v w (t : gmap string pyval) :
  render k v = Some w →
  map_Forall (fun k v => is_Some (render k v)) t →
  map_Forall (fun k v => is_Some (render k v)) (<[k := v]> t).
Proof. intros H Ht. apply map_Forall_insert_2; [by rewrite H | done]. Qed.

Lemma renderable_when (c : bool) k v w (t : gmap string pyval) :
  (c = true → render k v = Some w) →
  map_Forall (fun k v => is_Some (render k v)) t →
  map_Forall (fun k v => is_Some (render k v)) (when c (insert k v) t).
Proof.
  destruct c; simpl; [intros H Ht; apply (renderable_insert _ _ w); auto | done].
Qed.

(** What the library makes of the written tags when it saves them. *)
Lemma mp4_tags_saved :
  map_Forall (fun k v => is_Some (render k v)) (mp4_tags song ∅)
  ∧ map_imap render (mp4_tags song ∅) = mp4_saved song ∅.
Proof.
  unfold mp4_tags, mp4_saved. split.
  - eapply renderable_insert; [by apply render_freeform |].
    eapply renderable_insert; [apply render_rating |].
    eapply renderable_insert; [by apply render_pairs |].
    eapply renderable_insert; [by apply render_pairs |].
    eapply renderable_when; [by apply render_optional |].
    eapply renderable_when; [by apply render_optional |].
    eapply renderable_when; [by apply render_optional |].
    eapply renderable_when; [intros _; by apply render_texts |].
    eapply renderable_when; [intros _; by apply render_text |].
    eapply renderable_insert; [by apply render_text |].
    eapply renderable_insert; [by apply render_text |].
    eapply renderable_insert; [by apply render_text |].
    eapply renderable_insert; [by apply render_text |].
    eapply renderable_insert; [by apply render_text |].
    eapply renderable_insert; [by apply render_texts |].
    apply map_Forall_empty.
  - erewrite imap_insert by (by apply render_freeform).
    erewrite imap_insert by apply render_rating.
    erewrite 2!imap_insert by (by apply render_pairs).
    erewrite 3!imap_when by (by apply render_optional).
    erewrite imap_when by (intros _; by apply render_texts).
    erewrite imap_when by (intros _; by apply render_text).
    erewrite 5!imap_insert by (by apply render_text).
    erewrite imap_insert by (by apply render_texts).
    by rewrite map_imap_empty.
Qed.

(** [embed_metadata] on a fresh m4a file. *)
Lemma embed_metadata_mp4 (d : disk) :
  d !! resolve path = Some (Audio M4A ∅ pictures) →
  embed_metadata path song d
  = (Ok (), <[resolve path := Audio M4A (mp4_saved song ∅) pictures]> d).
Proof.
  intros Hd. destruct mp4_tags_saved as [Hok Hsaved].
  unfold embed_metadata, io_bind, io_try, io_lift, io_ret, File.
  rewrite Hsuffix. change (text_drop 1 ".m4a") with "m4a".
  rewrite Hd. simpl. rewrite embed_tags_mp4 by done. simpl.
  unfold save, persist. simpl. rewrite Hd.
  by rewrite bool_decide_eq_true_2, Hsaved.
Qed.

Hypothesis Hartists : has_main_artist (artists song) = true.

Lemma mp4_loop (m0 : meta) :
  ∃ song_meta,
    for_each (read_tag ".m4a" (loaded path M4A (mp4_saved song ∅) pictures))
      m0 (TAG_PRESET.*1) = Ok song_meta
    ∧ song_meta !! "name" = Some (PStr (name song))
    ∧ song_meta !! "artists" = Some (unwrapped (artists song))
    ∧ song_meta !! "album_name"
      = Some (if truthy (PStr (album_name song)) then PStr (album_name song) else PNone)
    ∧ song_meta !! "genres" = Some (unwrapped (genres song))
    ∧ song_meta !! "track_number" = Some (PInt (track_number song))
    ∧ song_meta !! "tracks_count" = Some (PInt (tracks_count song))
    ∧ song_meta !! "disc_number" = Some (PInt (disc_number song))
    ∧ song_meta !! "disc_count" = Some (PInt (disc_count song))
    ∧ song_meta !! "copyright_text" = Some (if_present (copyright_text song))
    ∧ song_meta !! "url" = Some (PStr (url song))
    ∧ song_meta !! "lyrics" = Some (if_present (lyrics song))
    ∧ song_meta !! "explicit" = Some (PBool (explicit song))
    ∧ song_meta !! "comment" = m0 !! "comment".
Proof.
  pose proof (unwrap_texts _ (has_main_artist_nonempty _ Hartists)) as Hunwrap.
  unfold texts in Hunwrap.
  eexists. split.
  - change (TAG_PRESET.*1) with
      ["album"; "artist"; "date"; "title"; "year"; "originaldate"; "comment";
       "group"; "writer"; "genre"; "tracknumber"; "albumartist"; "discnumber";
       "cpil"; "albumart"; "encodedby"; "copyright"; "tempo"; "lyrics";
       "explicit"; "woas"].
    repeat
      (eapply eq_trans;
       [ apply for_each_step;
         erewrite read_tag_loaded by reflexivity; look mp4_saved;
         unfold decode_tag; simpl;
         first
           [ reflexivity
           | eapply optional_field; reflexivity
           | apply when_list_field
           | apply if_same
           | unfold texts; rewrite Hunwrap; reflexivity
           | rewrite (year_of_text _ _ Hyear); reflexivity
           | rewrite Hurl; reflexivity ]
       | ]).
    reflexivity.
  - repeat split; rewrite ?insert_other by done; rewrite ?lookup_insert_eq;
      try done.
    by destruct (explicit song).
Qed.

Lemma mp4_round_trip (d : disk) :
  d !! resolve path = Some (Audio M4A ∅ pictures) →
  ∃ d' m,
    embed_metadata path song d = (Ok (), d')
    ∧ get_file_metadata path d' = (Ok (Some m), d')
    ∧ m !! "name" = Some (PStr (name song))
    ∧ m !! "artists" = Some (unwrapped (artists song))
    ∧ m !! "album_name"
      = Some (if truthy (PStr (album_name song)) then PStr (album_name song) else PNone)
    ∧ m !! "genres" = Some (unwrapped (genres song))
    ∧ m !! "track_number" = Some (PInt (track_number song))
    ∧ m !! "tracks_count" = Some (PInt (tracks_count song))
    ∧ m !! "disc_number" = Some (PInt (disc_number song))
    ∧ m !! "disc_count" = Some (PInt (disc_count song))
    ∧ m !! "copyright_text" = Some (if_present (copyright_text song))
    ∧ m !! "url" = Some (PStr (url song))
    ∧ m !! "lyrics" = Some (if_present (lyrics song))
    ∧ m !! "explicit" = Some (PBool (explicit song))
    ∧ m !! "comment" = None.
Proof.
  intros Hd.
  exists (<[resolve path := Audio M4A (mp4_saved song ∅) pictures]> d).
  destruct (mp4_loop ∅) as (song_meta & Hloop & Hfields).
  destruct (main_artist_item _ Hartists) as [first Hfirst].
  exists (<["artist" := first]> song_meta).
  split; [by apply embed_metadata_mp4 |].
  split.
  - erewrite get_file_metadata_loaded;
      [| apply lookup_insert_eq
       | apply (size_nonzero _ "----:spotdl:WOAS" (PList [PBytes (url song)]));
         by look mp4_saved ].
    rewrite Hsuffix. unfold read_tags, meta_item. rewrite Hloop. simpl.
    destruct Hfields as (_ & -> & _). simpl. by rewrite Hfirst.
  - rewrite !insert_other by done. rewrite lookup_empty in Hfields. exact Hfields.
Qed.

End Mp4RoundTrip.

Section Mp3RoundTrip.

Variables (path : Path) (song : Song) (pictures : list pyval).
Variable y : Z.
Hypothesis Hyear : int_of_text (text_take 4 (date song)) = Ok y.
Hypothesis Hsuffix : suffix path = ".mp3".
Hypothesis Hartists : has_main_artist (artists song) = true.

Lemma easy_set_text key id s (t : gmap string pyval) :
  easy_frame key = Some id →
  easy_set key (PStr s) t = Ok (<[id := text_frame id [PStr s]]> t).
Proof. intros H. unfold easy_set. by rewrite H. Qed.

Lemma easy_set_texts key id l (t : gmap string pyval) :
  easy_frame key = Some id →
  easy_set key (texts l) t = Ok (<[id := text_frame id (PStr <$> l)]> t).
Proof. intros H. unfold easy_set, texts. by rewrite H, forallb_is_str. Qed.

Lemma easy_set_optional key id o (t : gmap string pyval) :
  easy_frame key = Some id → truthy (optional o) = true →
  easy_set key (optional o) t = Ok (<[id := text_frame id [optional o]]> t).
Proof. intros H Ho. unfold easy_set. rewrite H. by destruct o. Qed.

(** [embed_tags] on the easy view of ID3. *)
Lemma embed_tags_easy h :
  h_kind h = EasyID3 →
  embed_tags TAG_PRESET "mp3" song h = Ok (with_tags h (easy_tags song (h_tags h))).
Proof.
  intros Hk. destruct h as [k f n t p]. simpl in Hk. subst k.
  unfold embed_tags, easy_tags, when.
  cbn [elem_str existsb String.eqb Ascii.eqb Bool.eqb orb andb negb].
  rewrite !andb_false_r.
  repeat first
    [ erewrite set_tag_native by reflexivity
    | progress unfold setitem, with_tags
    | erewrite easy_set_text by reflexivity
    | erewrite easy_set_texts by reflexivity
    | erewrite easy_set_optional by (reflexivity || eassumption)
    | progress cbn [fmap result_fmap mbind result_bind h_kind h_tags h_family
                    h_filename h_pictures]
    | match goal with
      | |- context [if ?c then _ else _] => destruct c eqn:?
      end ];
    reflexivity.
Qed.

(** The frames of the second phase, on the full view. *)
Lemma add_frames_id3 h :
  h_kind h = ID3 →
  add_frames song h = Ok (with_tags h (frame_tags song (h_tags h))).
Proof.
  intros Hk. destruct h as [k f n t p]. simpl in Hk. subst k.
  unfold add_frames, frame_tags, when, add, with_tags. simpl.
  destruct (lyrics song) as [[| c s] |], (download_url song) as [[| c' s'] |];
    reflexivity.
Qed.

Hypothesis Hplain : id3_plain song = true.

Lemma written_insert k v (t : gmap string pyval) :
  id3_written k v = Some v →
  map_imap id3_written (<[k := v]> t) = <[k := v]> (map_imap id3_written t).
Proof. intros H. by rewrite map_imap_insert, H. Qed.

Lemma written_when (c : bool) k v (t : gmap string pyval) :
  (c = true → id3_written k v = Some v) →
  map_imap id3_written (when c (insert k v) t)
  = when c (insert k v) (map_imap id3_written t).
Proof. destruct c; simpl; [intros H; apply written_insert; auto | done]. Qed.

Lemma written_other key v : is_text_key key = false → id3_written key v = Some v.
Proof. intros H. unfold id3_written. by rewrite H. Qed.

Lemma written_text id l :
  l ≠ [] → l ≠ [PStr ""] → id3_written id (text_frame id l) = Some (text_frame id l).
Proof.
  intros Hnil Hone. unfold id3_written.
  assert (empty_text (text_frame id l) = false) as ->; [| by rewrite andb_false_r].
  unfold empty_text, text_frame. simpl.
  destruct l as [| x l]; [done |].
  destruct x as [| | | s | | | |]; try done.
  destruct s; [| done]. by destruct l.
Qed.

Lemma written_one id s :
  s ≠ "" → id3_written id (text_frame id [PStr s]) = Some (text_frame id [PStr s]).
Proof. intros Hs. apply written_text; [done |]. by intros [= ->]. Qed.

Lemma written_list id l :
  l ≠ [] → l ≠ [""] →
  id3_written id (text_frame id (PStr <$> l)) = Some (text_frame id (PStr <$> l)).
Proof.
  intros Hnil Hone. apply written_text.
  - by destruct l.
  - destruct l as [| a [| b l]]; [done | | done]. intros [= ->]. done.
Qed.

Lemma plain_text_nonempty s : plain_text s = true → s ≠ "".
Proof. unfold plain_text. intros [H _]%andb_true_iff ->. done. Qed.

Lemma plain_date_nonempty s : plain_date s = true → s ≠ "".
Proof. intros H ->. discriminate H. Qed.

Lemma append_slash_nonempty a b : a +:+ "/" +:+ b ≠ "".
Proof. by destruct a. Qed.

Lemma truthy_nonempty o :
  truthy (optional o) = true → ∃ s, o = Some s ∧ s ≠ "".
Proof.
  destruct o as [s |]; [| discriminate]. simpl.
  intros H. exists s. split; [done |]. intros ->. done.
Qed.

Lemma id3_plain_facts :
  name song ≠ "" ∧ artist song ≠ "" ∧ publisher song ≠ "" ∧ date song ≠ ""
  ∧ genres song ≠ [""].
Proof.
  unfold id3_plain in Hplain.
  repeat match type of Hplain with
         | _ && _ = true => apply andb_true_iff in Hplain as [Hplain ?]
         end.
  split_and!; try by apply plain_text_nonempty.
  - by apply plain_date_nonempty.
  - intros E. rewrite E in *. done.
Qed.

(** What the library makes of the written frames when it saves them:
    nothing is left out. *)
Lemma easy_tags_written :
  map_imap id3_written (easy_tags song ∅) = easy_tags song ∅.
Proof.
  destruct id3_plain_facts as (Hname & Hartist & Hpub & Hdate & Hgenres).
  unfold easy_tags.
  rewrite written_insert by (apply written_one, append_slash_nonempty).
  rewrite written_insert by (apply written_one, append_slash_nonempty).
  rewrite written_when
    by (intros (s & -> & Hs)%truthy_nonempty; by apply written_one).
  rewrite written_when
    by (intros Hlen; apply written_list; [by destruct (genres song) | done]).
  rewrite written_when
    by (simpl; intros Hne; apply written_one; intros E; by rewrite E in Hne).
  rewrite !written_insert by (by apply written_one).
  rewrite written_insert
    by (apply written_list;
        [by apply has_main_artist_nonempty | intros E; by rewrite E in Hartists]).
  by rewrite map_imap_empty.
Qed.

Lemma frame_tags_written (t : gmap string pyval) :
  map_imap id3_written (frame_tags song t) = frame_tags song (map_imap id3_written t).
Proof.
  unfold frame_tags.
  rewrite written_when.
  - rewrite written_when by (intros _; by apply written_other).
    by rewrite written_insert by (by apply written_other).
  - intros (s & -> & Hs)%truthy_nonempty. unfold id3_written, empty_text, COMM. simpl.
    by destruct s.
Qed.

(** [embed_metadata] on a fresh mp3 file: the two phases. *)
Lemma embed_metadata_mp3 (d : disk) :
  d !! resolve path = Some (Audio MP3 ∅ pictures) →
  embed_metadata path song d
  = (Ok (), <[resolve path := Audio MP3 (frame_tags song (easy_tags song ∅)) pictures]> d).
Proof.
  intros Hd.
  unfold embed_metadata, io_bind, io_try, io_lift, io_ret, File.
  rewrite Hsuffix. change (text_drop 1 ".mp3") with "mp3".
  rewrite Hd. simpl. rewrite embed_tags_easy by done.
  cbn [with_tags h_kind h_family h_filename h_tags h_pictures].
  unfold save at 1, persist.
  cbn [with_tags h_kind h_family h_filename h_tags h_pictures].
  rewrite Hd, easy_tags_written.
  unfold ID3_load. rewrite lookup_insert_eq.
  rewrite add_frames_id3 by done.
  unfold save, persist.
  cbn [with_tags h_kind h_family h_filename h_tags h_pictures].
  rewrite lookup_insert_eq, frame_tags_written, easy_tags_written.
  by rewrite insert_insert_eq.
Qed.

Lemma frame_field (c : bool) v txt u (m : meta) k :
  getattr v "text" = Ok txt → unwrap txt = Ok u →
  (if is_none (default PNone (if c then Some v else None))
   then Ok (<[k := PNone]> m)
   else getattr (default PNone (if c then Some v else None)) "text"
        ≫= fun t => unwrap t ≫= fun v' => Ok (<[k := v']> m))
  = Ok (<[k := if c then u else PNone]> m).
Proof.
  intros Hv Hu. destruct c; simpl; [| done].
  rewrite (getattr_not_none _ _ _ Hv), Hv. simpl. by rewrite Hu.
Qed.

Lemma list_frame_field id l (m : meta) k :
  (if is_none (default PNone (if (0 <? length l)%nat
                              then Some (text_frame id (PStr <$> l)) else None))
   then Ok (<[k := PNone]> m)
   else getattr (default PNone (if (0 <? length l)%nat
                                then Some (text_frame id (PStr <$> l)) else None)) "text"
        ≫= fun t => unwrap t ≫= fun v' => Ok (<[k := v']> m))
  = Ok (<[k := unwrapped l]> m).
Proof. by destruct l as [| a [| b l]]. Qed.

Lemma optional_frame_field id o (m : meta) k :
  (if is_none (default PNone (if truthy (optional o)
                              then Some (text_frame id [optional o]) else None))
   then Ok (<[k := PNone]> m)
   else getattr (default PNone (if truthy (optional o)
                                then Some (text_frame id [optional o]) else None)) "text"
        ≫= fun t => unwrap t ≫= fun v' => Ok (<[k := v']> m))
  = Ok (<[k := if_present o]> m).
Proof. by destruct o as [[| c s] |]. Qed.

Lemma lyrics_field o (m : meta) k :
  (if is_none (default PNone (if truthy (optional o)
                              then Some (USLT (optional o)) else None))
   then Ok (<[k := PNone]> m)
   else getattr (default PNone (if truthy (optional o)
                                then Some (USLT (optional o)) else None)) "text"
        ≫= fun t => unwrap t ≫= fun v' => Ok (<[k := v']> m))
  = Ok (<[k := if_present o]> m).
Proof.
  destruct o as [[| c s] |]; try reflexivity.
  unfold if_present. cbn -[unwrap]. by rewrite unwrap_text.
Qed.



End Mp3RoundTrip.

(* ================================================================= *)
(** * The explicit flag of m4a                                        *)
(* ================================================================= *)

Section ExplicitFlag.

Lemma eq_int_list_4 val : eq_int_list val [4] = true ↔ val = PList [PInt 4].
Proof.
  split; [| by intros ->].
  destruct val as [| | | | | l | |]; try discriminate.
  destruct l as [| x [| x' l]]; try discriminate.
  - simpl. rewrite andb_true_r. destruct x as [| [] | n | | | | |]; try discriminate.
    by intros ->%Z.eqb_eq.
  - simpl. by rewrite andb_false_r.
Qed.

Lemma read_tag_m4a_explicit path f t pictures song_meta :
  read_tag ".m4a" (loaded path f t pictures) song_meta "explicit"
  = Ok match t !! "rtng" with
       | Some val =>
           if is_none val then song_meta
           else <["explicit" := if truthy val then PBool (eq_int_list val [4])
                                else PNone]> song_meta
       | None => song_meta
       end.
Proof.
  rewrite (read_tag_loaded ".m4a" _ _ _ _ _ "explicit" "rtng" eq_refl).
  unfold decode_tag. destruct (t !! "rtng") as [val |]; simpl; [| done].
  by destruct (is_none val).
Qed.

(** The file whose rating is there but empty: the reader gives [None], not
    [False]. *)
Lemma empty_rating_reads_none :
  ∃ m,
    get_file_metadata (demo_path ".m4a") (demo_disk ".m4a" M4A m4a_empty_rating)
    = (Ok (Some m), demo_disk ".m4a" M4A m4a_empty_rating)
    ∧ m !! "explicit" = Some PNone
    ∧ m !! "explicit" ≠ Some (PBool false).
Proof.
  destruct (reads_ok_spec (demo_path ".m4a") (demo_disk ".m4a" M4A m4a_empty_rating))
    as [m E]; [vm_compute; reflexivity |].
  exists m. split; [exact E |].
  assert (m !! "explicit" = Some PNone) as H
    by (rewrite <- (read_field_spec _ _ _ _ "explicit" E); vm_compute; reflexivity).
  split; [exact H |]. rewrite H. discriminate.
Qed.

(** X2: for m4a the writer stores the explicit flag as the tuple
    [(4,)] or [(2,)]; the reader gives [True] exactly when the stored value
    equals [[4]], [False] for any other value that is truthy, [None] for a
    value that is there but falsy (an empty list), and leaves the field out
    of the mapping when the tag is not set.  For a song that can be written
    and read back at all (a main artist, a date that starts with a year,
    numbers below 65536 and a well-formed URL), written and read back on a
    fresh file, [True] comes back as [True] and [False] as [False]. *)
Theorem explicit_flag path song (d : disk) :
  (∀ h, h_kind h = MP4 →
     ∃ h', embed_tags M4A_TAG_PRESET "m4a" song h = Ok h'
           ∧ h_tags h' !! "rtng"
             = Some (PTuple [PInt (if explicit song then 4 else 2)]))
  ∧ (∀ f t pictures m,
       suffix path = ".m4a" →
       d !! resolve path = Some (Audio f t pictures) →
       get_file_metadata path d = (Ok (Some m), d) →
       m !! "explicit"
       = match t !! "rtng" with
         | Some val =>
             if is_none val then None
             else Some (if truthy val then PBool (eq_int_list val [4]) else PNone)
         | None => None
         end)
  ∧ (∀ val, eq_int_list val [4] = true ↔ val = PList [PInt 4])
  ∧ (∀ pictures y,
       suffix path = ".m4a" →
       d !! resolve path = Some (Audio M4A ∅ pictures) →
       has_main_artist (artists song) = true →
       int_of_text (text_take 4 (date song)) = Ok y →
       pair_in_range (track_number song) (tracks_count song) = true →
       pair_in_range (disc_number song) (disc_count song) = true →
       utf8_valid (url song) = true →
       ∃ d' t' m,
         embed_metadata path song d = (Ok (), d')
         ∧ d' !! resolve path = Some (Audio M4A t' pictures)
         ∧ t' !! "rtng" = Some (PList [PInt (if explicit song then 4 else 2)])
         ∧ get_file_metadata path d' = (Ok (Some m), d')
         ∧ m !! "explicit" = Some (PBool (explicit song))).
Proof.
  split; [| split; [| split]].
  - intros h Hk. eexists. split; [by apply embed_tags_mp4 |].
    simpl. by look mp4_tags.
  - intros f t pictures m Hsfx Hd (_ & f' & t' & p' & Hd' & Hm)%get_file_metadata_Some.
    rewrite Hd in Hd'. injection Hd' as <- <- <-. rewrite Hsfx in Hm.
    apply read_tags_Ok in Hm as (song_meta & a & first & Hloop & _ & _ & ->).
    rewrite insert_other by done.
    destruct (field_of_key _ _ "explicit" "explicit" _ eq_refl Hloop)
      as (m1 & m2 & Hstep & Hnone & ->).
    rewrite read_tag_m4a_explicit in Hstep. injection Hstep as <-.
    destruct (t !! "rtng") as [val |]; [| done].
    destruct (is_none val); [done |]. by rewrite lookup_insert_eq.
  - apply eq_int_list_4.
  - intros pictures y Hsfx Hd Hartists Hyear Htrack Hdisc Hurl.
    destruct (mp4_round_trip path song pictures y Hyear Hsfx Htrack Hdisc Hurl
                Hartists d Hd) as (d' & m & Hw & Hr & Hfields).
    exists d', (mp4_saved song ∅), m.
    rewrite (embed_metadata_mp4 path song pictures Hsfx Htrack Hdisc d Hd) in Hw.
    injection Hw as <-.
    split; [by apply embed_metadata_mp4 |].
    split; [apply lookup_insert_eq |].
    split; [by look mp4_saved |].
    split; [exact Hr |]. tauto.
Qed.

End ExplicitFlag.

Lemma explicit_flag_witness :
  ∃ d' t' m,
    embed_metadata (demo_path ".m4a") demo_song (demo_disk ".m4a" M4A [])
    = (Ok (), d')
    ∧ d' !! resolve (demo_path ".m4a") = Some (Audio M4A t' [])
    ∧ t' !! "rtng" = Some (PList [PInt 4])
    ∧ get_file_metadata (demo_path ".m4a") d' = (Ok (Some m), d')
    ∧ m !! "explicit" = Some (PBool true).
Proof.
  destruct (explicit_flag (demo_path ".m4a") demo_song (demo_disk ".m4a" M4A []))
    as (_ & _ & _ & H).
  apply (H [] 2021); reflexivity.
Defined.

(* ================================================================= *)
(** * The round trip                                                  *)
(* ================================================================= *)

Section RoundTrip.

Lemma family_of_cases sfx fam :
  family_of sfx = Some fam →
  (sfx = ".mp3" ∧ fam = MP3) ∨ (sfx = ".m4a" ∧ fam = M4A)
  ∨ (In sfx [".flac"; ".ogg"; ".opus"] ∧ kind_of fam false = VComment
     ∧ fam ≠ MP3 ∧ fam ≠ M4A).
Proof.
  unfold family_of.
  destruct (sfx == ".mp3") eqn:E1; [apply String.eqb_eq in E1; intros [= <-]; auto |].
  destruct (sfx == ".m4a") eqn:E2; [apply String.eqb_eq in E2; intros [= <-]; auto |].
  destruct (sfx == ".flac") eqn:E3;
    [apply String.eqb_eq in E3; intros [= <-]; right; right; simpl; auto |].
  destruct (sfx == ".ogg") eqn:E4;
    [apply String.eqb_eq in E4; intros [= <-]; right; right; simpl; auto |].
  destruct (sfx == ".opus") eqn:E5;
    [apply String.eqb_eq in E5; intros [= <-]; right; right; simpl; auto 10 |].
  discriminate.
Qed.

(** A flac file written from a song with 10 tracks on disc 3 of 12 and read
    back: no track count, no disc number, and 3 as the disc count. *)
Lemma flac_round_trip_loses_counts :
  ∃ d' m,
    embed_metadata (demo_path ".flac") demo_song (demo_disk ".flac" FLAC [])
    = (Ok (), d')
    ∧ get_file_metadata (demo_path ".flac") d' = (Ok (Some m), d')
    ∧ tracks_count demo_song = 10 ∧ m !! "tracks_count" = None
    ∧ disc_number demo_song = 3 ∧ m !! "disc_number" = None
    ∧ disc_count demo_song = 12 ∧ m !! "disc_count" = Some (PInt 3).
Proof.
  destruct (generic_round_trip (demo_path ".flac") demo_song FLAC [] 2021
              eq_refl ltac:(simpl; tauto) (demo_disk ".flac" FLAC [])
              eq_refl eq_refl eq_refl)
    as (d' & m & Hw & Hr & _ & _ & _ & _ & _ & _ & _ & _ & Htc & _).
  exists d', m. split; [exact Hw |]. split; [exact Hr |].
  assert (d' = (embed_metadata (demo_path ".flac") demo_song
                  (demo_disk ".flac" FLAC [])).2) as Hd' by (by rewrite Hw).
  split; [reflexivity |]. split; [exact Htc |].
  split; [reflexivity |].
  split; [| split; [reflexivity |]].
  - rewrite <- (read_field_spec _ _ _ _ "disc_number" Hr), Hd'.
    vm_compute. reflexivity.
  - rewrite <- (read_field_spec _ _ _ _ "disc_count" Hr), Hd'.
    vm_compute. reflexivity.
Qed.


End RoundTrip.


(* ================================================================= *)
(** * The reader: what it raises, and that it only reads            *)
(* ================================================================= *)

Section ReaderErrors.

Lemma bind_Raise {A B} (m : result A) (f : A → result B) e :
  m ≫= f = Raise e → m = Raise e ∨ ∃ a, m = Ok a ∧ f a = Raise e.
Proof. destruct m; simpl; [eauto | intros [= ->]; auto]. Qed.

Lemma fmap_Raise {A B} (g : A → B) (m : result A) e :
  g <$> m = Raise e → m = Raise e.
Proof. destruct m; simpl; [discriminate | congruence]. Qed.

Lemma item_error v i e : item v i = Raise e → decoding_outcome e = true.
Proof.
  destruct v; simpl; try (by intros [= <-]).
  - destruct (_ <? _)%nat; [discriminate | by intros [= <-]].
  - destruct (String.get i s); [discriminate | by intros [= <-]].
  - destruct (l !! i); [discriminate | by intros [= <-]].
  - destruct (l !! i); [discriminate | by intros [= <-]].
Qed.

Lemma getattr_error v name e : getattr v name = Raise e → decoding_outcome e = true.
Proof.
  destruct v; simpl; try (by intros [= <-]).
  destruct (assoc attrs name); [discriminate | by intros [= <-]].
Qed.

Lemma len_error v e : len v = Raise e → decoding_outcome e = true.
Proof. destruct v; simpl; try discriminate; by intros [= <-]. Qed.

Lemma str_error v e : str_ v = Raise e → decoding_outcome e = true.
Proof. destruct v as [| [] | | | | | |]; simpl; try discriminate; by intros [= <-]. Qed.

Lemma int_of_text_error s e : int_of_text s = Raise e → decoding_outcome e = true.
Proof.
  unfold int_of_text. destruct (all_ascii s); [| by intros [= <-]].
  destruct (signed_value _); [discriminate | by intros [= <-]].
Qed.

Lemma int_error v e : int_ v = Raise e → decoding_outcome e = true.
Proof.
  destruct v; simpl; try discriminate; try (by intros [= <-]).
  apply int_of_text_error.
Qed.

Lemma split_slash_error v e : split_slash v = Raise e → decoding_outcome e = true.
Proof. destruct v; simpl; try discriminate; by intros [= <-]. Qed.

Lemma decode_utf8_error v e : decode_utf8 v = Raise e → decoding_outcome e = true.
Proof.
  destruct v; simpl; try (by intros [= <-]).
  destruct (utf8_valid s); [discriminate | by intros [= <-]].
Qed.

Lemma year_of_error v e : year_of v = Raise e → decoding_outcome e = true.
Proof.
  unfold year_of. intros [H | (s & _ & H)]%bind_Raise; [by eapply str_error |].
  apply fmap_Raise in H. by eapply int_of_text_error.
Qed.

Lemma unwrap_error v e : unwrap v = Raise e → decoding_outcome e = true.
Proof.
  unfold unwrap. intros [H | (n & _ & H)]%bind_Raise; [by eapply len_error |].
  destruct (n =? 1)%nat; [by eapply item_error | discriminate].
Qed.

Lemma subscript_error d key e : subscript d key = Raise e → decoding_outcome e = true.
Proof. unfold subscript. destruct (dict_get d key); [discriminate | by intros [= <-]]. Qed.

Ltac errors H :=
  repeat first
    [ discriminate H
    | match type of H with
      | mbind _ _ = Raise _ =>
          let a := fresh "a" in let H' := fresh "H" in
          apply bind_Raise in H as [H | (a & H' & H)]
      | (if ?c then _ else _) = Raise _ => destruct c eqn:?
      | match ?c with _ => _ end = Raise _ => destruct c eqn:?
      end ];
  first
    [ by injection H as <-
    | eauto using item_error, getattr_error, len_error, str_error, int_of_text_error,
        int_error, split_slash_error, decode_utf8_error, year_of_error, unwrap_error,
        subscript_error ].

Lemma read_tag_error sfx h m key e :
  read_tag sfx h m key = Raise e → decoding_outcome e = true.
Proof.
  unfold read_tag, native_key. intros H.
  apply bind_Raise in H as [H | (k & _ & H)]; [errors H |].
  unfold decode_tag in H. errors H.
Qed.

Lemma for_each_error sfx h keys m e :
  for_each (read_tag sfx h) m keys = Raise e → decoding_outcome e = true.
Proof.
  revert m. induction keys as [| key keys IH]; simpl; intros m H; [discriminate |].
  apply bind_Raise in H as [H | (m1 & _ & H)]; eauto using read_tag_error.
Qed.

Lemma read_tags_error sfx h e :
  read_tags sfx h = Raise e → decoding_outcome e = true.
Proof.
  unfold read_tags, meta_item. intros H.
  apply bind_Raise in H as [H | (m & _ & H)]; [by eapply for_each_error |].
  errors H.
Qed.

Lemma outcome_error e :
  decoding_outcome e = true → e ≠ NotModelled → decoding_error e = true.
Proof. by destruct e. Qed.

(** X3: the reader never writes: whatever the path and the disk, the disk is
    afterwards what it was.  When it raises, then either the path leads
    nowhere and the exception is [OSError] with the path in its message; or
    the file cannot be parsed and the exception is the one of the tag
    library; or the file has tags, the exception comes from the decoding of
    a tag and, unless the tags are outside the fragment of Python described
    here, it is one of six built-in errors.  It is never [MetadataError]. *)
Theorem get_file_metadata_reads_only path (d : disk) :
  (get_file_metadata path d).2 = d
  ∧ (∀ e, (get_file_metadata path d).1 = Raise e →
       (d !! resolve path = None ∧ e = OSError ("File not found: " +:+ text path))
       ∨ (d !! resolve path = Some Corrupt ∧ e = MutagenError)
       ∨ (∃ f t pictures, d !! resolve path = Some (Audio f t pictures)
                          ∧ size t ≠ 0%nat
                          ∧ (e ≠ NotModelled → decoding_error e = true)))
  ∧ (∀ msg, (get_file_metadata path d).1 ≠ Raise (MetadataError msg)).
Proof.
  assert (Hcases : (get_file_metadata path d).2 = d
    ∧ ∀ e, (get_file_metadata path d).1 = Raise e →
       (d !! resolve path = None ∧ e = OSError ("File not found: " +:+ text path))
       ∨ (d !! resolve path = Some Corrupt ∧ e = MutagenError)
       ∨ (∃ f t pictures, d !! resolve path = Some (Audio f t pictures)
                          ∧ size t ≠ 0%nat ∧ decoding_outcome e = true)).
  { unfold get_file_metadata, io_bind, exists_, File, io_lift, io_ret, io_raise.
    destruct (d !! resolve path) as [[| | f t p] |] eqn:Hd; simpl; rewrite ?Hd.
    - split; [done |]. intros e [= <-]. auto.
    - split; [done |]. discriminate.
    - unfold is_empty. simpl. case_bool_decide as Hsize; simpl.
      + split; [done |]. discriminate.
      + split; [done |]. intros e He. right; right. exists f, t, p.
        repeat split; [done |]. apply fmap_Raise in He. by eapply read_tags_error.
    - split; [done |]. intros e [= <-]. auto. }
  destruct Hcases as [Hdisk Herr]. split; [done |]. split.
  - intros e He.
    destruct (Herr _ He) as [H | [H | (f & t & p & Hd & Hsize & Hout)]]; auto.
    right; right. exists f, t, p. eauto using outcome_error.
  - intros msg H.
    destruct (Herr _ H) as [[_ [=]] | [[_ [=]] | (f & t & p & _ & _ & [=])]].
Qed.

End ReaderErrors.

Lemma get_file_metadata_reads_only_witness :
  (get_file_metadata (demo_path ".mp3") {[ "/music/song.mp3" := Corrupt ]}).2
  = {[ "/music/song.mp3" := Corrupt ]}
  ∧ (get_file_metadata (demo_path ".mp3") {[ "/music/song.mp3" := Corrupt ]}).1
    = Raise MutagenError.
Proof.
  destruct (get_file_metadata_reads_only (demo_path ".mp3")
              {[ "/music/song.mp3" := Corrupt ]}) as (Hdisk & Herr & _).
  split; [exact Hdisk |].
  destruct (Herr MutagenError eq_refl) as [[_ [=]] | [[_ _] | (f & t & p & Hd & _)]].
  - reflexivity.
  - vm_compute in Hd. discriminate Hd.
Defined.

(* ================================================================= *)
(** * The writer: which files it writes to                          *)
(* ================================================================= *)

Section WriterFrame.

Lemma setitem_filename h key v h' :
  setitem h key v = Ok h' → h_filename h' = h_filename h.
Proof. by intros (sk & t' & _ & -> & _)%setitem_other. Qed.

Lemma set_tag_filename tp h field v h' :
  set_tag tp h field v = Ok h' → h_filename h' = h_filename h.
Proof.
  unfold set_tag. intros (key & _ & H)%bind_Ok. by eapply setitem_filename.
Qed.

Lemma cond_set_tag_filename tp (c : bool) h field v h' :
  (if c then set_tag tp h field v else Ok h) = Ok h' → h_filename h' = h_filename h.
Proof. destruct c; [apply set_tag_filename | by intros [= <-]]. Qed.

Ltac same_file :=
  repeat match goal with
  | Hs : set_tag _ _ _ _ = Ok _ |- _ => apply set_tag_filename in Hs
  | Hs : (if _ then set_tag _ _ _ _ else Ok _) = Ok _ |- _ =>
      apply cond_set_tag_filename in Hs
  | Hs : setitem _ _ _ = Ok _ |- _ => apply setitem_filename in Hs
  end; congruence.

Lemma embed_tags_filename tp encoding song h h' :
  embed_tags tp encoding song h = Ok h' → h_filename h' = h_filename h.
Proof.
  intros H. unfold embed_tags in H. peel H.
  destruct (elem_str encoding _); [peel H; same_file |].
  destruct (encoding == "m4a"); [peel H; same_file |].
  destruct (encoding == "mp3"); [peel H; same_file |].
  injection H as <-. same_file.
Qed.

Lemma add_filename h frame h' : add h frame = Ok h' → h_filename h' = h_filename h.
Proof.
  unfold add. destruct (h_kind h); try discriminate.
  by intros (key & _ & [= <-])%bind_Ok.
Qed.

Lemma add_frames_filename song h h' :
  add_frames song h = Ok h' → h_filename h' = h_filename h.
Proof.
  unfold add_frames. intros H.
  apply bind_Ok in H as (h1 & H1%add_filename & H).
  apply bind_Ok in H as (h2 & H2 & H).
  assert (h_filename h2 = h_filename h1) as E2.
  { destruct (truthy (optional (lyrics song)));
      [by apply add_filename in H2 | by injection H2 as <-]. }
  destruct (truthy (optional (download_url song)));
    [apply add_filename in H | injection H as <-]; congruence.
Qed.

Lemma save_other h d filename :
  filename ≠ h_filename h → (save h d).2 !! filename = d !! filename.
Proof.
  intros Hne. unfold save.
  destruct (d !! h_filename h) as [[| | f t p] |]; try done.
  destruct (persist h); simpl; [by rewrite lookup_insert_ne | done].
Qed.

(** X4: [embed_metadata] writes to the file of its path and to no other:
    whatever the song and the outcome, every other file is afterwards what
    it was. *)
Theorem embed_metadata_other_files path song (d : disk) filename :
  filename ≠ resolve path →
  (embed_metadata path song d).2 !! filename = d !! filename.
Proof.
  intros Hne. unfold embed_metadata.
  set (encoding := text_drop 1 (suffix path)).
  set (tp := if negb (encoding == "m4a") then TAG_PRESET else M4A_TAG_PRESET).
  unfold io_bind, io_try, io_lift, io_ret, io_raise.
  destruct (File (resolve path) (encoding == "mp3") d) as [r0 d0] eqn:HF.
  apply File_tracks in HF as [-> Hh].
  destruct r0 as [[h |] | e]; simpl; try done.
  destruct (Hh h eq_refl) as [_ Hfn].
  destruct (embed_tags tp encoding song h) as [h1 |] eqn:H1; simpl; [| done].
  apply embed_tags_filename in H1. rewrite Hfn in H1.
  destruct (encoding == "mp3").
  - pose proof (save_other h1 d filename ltac:(congruence)) as Hs1.
    destruct (save h1 d) as [[[] |] d1]; simpl in *; [| done].
    unfold ID3_load.
    destruct (d1 !! resolve path) as [[| | [] t p] |] eqn:Hd1; simpl; try done.
    destruct (add_frames song _) as [h3 |] eqn:H3; simpl; [| done].
    apply add_frames_filename in H3. simpl in H3.
    rewrite <- Hs1. apply save_other. congruence.
  - apply save_other. congruence.
Qed.

End WriterFrame.

Lemma embed_metadata_other_files_witness :
  "/music/other.mp3" ≠ resolve (demo_path ".flac")
  ∧ (embed_metadata (demo_path ".flac") demo_song
       (<["/music/other.mp3" := Corrupt]> (demo_disk ".flac" FLAC []))).2
      !! "/music/other.mp3"
    = <["/music/other.mp3" := Corrupt]> (demo_disk ".flac" FLAC [])
      !! "/music/other.mp3".
Proof.
  split; [discriminate |].
  apply embed_metadata_other_files. discriminate.
Defined.

Section Outcome.

Lemma save_raise h d e d' : save h d = (Raise e, d') → d' = d.
Proof.
  unfold save. destruct (d !! h_filename h) as [[| | f t p] |]; try by intros [= _ <-].
  destruct (persist h); [discriminate | by intros [= _ <-]].
Qed.

Lemma tracks_file d h :
  tracks d h → ∃ t, d !! h_filename h = Some (Audio (h_family h) t (h_pictures h)).
Proof. intros (t & easy & Hd & _). eauto. Qed.

(** X5: what [embed_metadata] does to the disk.  When it returns, the path
    led to an audio file and the disk differs from the one before in the
    tags of that file only: same family, same pictures.  When it raises on
    an encoding other than mp3, nothing has been written: the disk is what
    it was. *)
Theorem embed_metadata_outcome path song (d d' : disk) r :
  embed_metadata path song d = (r, d') →
  (r = Ok () →
   ∃ f t t' pictures,
     d !! resolve path = Some (Audio f t pictures)
     ∧ d' = <[resolve path := Audio f t' pictures]> d)
  ∧ (∀ e, r = Raise e → text_drop 1 (suffix path) ≠ "mp3" → d' = d).
Proof.
  unfold embed_metadata.
  set (encoding := text_drop 1 (suffix path)).
  set (tp := if negb (encoding == "m4a") then TAG_PRESET else M4A_TAG_PRESET).
  assert (Hsafe : safe_table tp = true)
    by (subst tp; destruct (negb _); vm_compute; reflexivity).
  unfold io_bind, io_try, io_lift, io_ret, io_raise.
  destruct (File (resolve path) (encoding == "mp3") d) as [r0 d0] eqn:HF.
  apply File_tracks in HF as [-> Hh].
  destruct r0 as [[h |] | e0]; simpl;
    try (intros [= <- <-]; split; [discriminate | done]).
  destruct (Hh h eq_refl) as [Ht Hfn].
  destruct (embed_tags tp encoding song h) as [h1 |] eqn:H1; simpl;
    [| intros [= <- <-]; split; [discriminate | done]].
  pose proof (embed_tags_filename _ _ _ _ _ H1) as Hfn1. rewrite Hfn in Hfn1.
  apply (embed_tags_tracks d _ _ _ _ _ Hsafe Ht) in H1.
  destruct (encoding == "mp3") eqn:Hmp3.
  - destruct (save h1 d) as [r1 d1] eqn:Hs1.
    destruct (save_same_art _ _ _ _ H1 Hs1) as [_ Hd1].
    destruct r1 as [[] | e1]; simpl;
      [| intros [= <- <-]; split; [discriminate |];
         intros ? _ Hne; by apply String.eqb_eq in Hmp3].
    destruct (Hd1 eq_refl) as (t1 & _ & ->). rewrite Hfn1.
    destruct (tracks_file _ _ H1) as [t0 Hd0]. rewrite Hfn1 in Hd0.
    destruct (ID3_load (resolve path) _) as [r2 d2] eqn:HL.
    pose proof HL as HL'. apply ID3_load_tracks in HL as [-> Hh2].
    destruct r2 as [h2 | e2]; simpl;
      [| intros [= <- <-]; split; [discriminate |];
         intros ? _ Hne; by apply String.eqb_eq in Hmp3].
    specialize (Hh2 h2 eq_refl).
    assert (h_filename h2 = resolve path) as Hfn2.
    { unfold ID3_load in HL'. rewrite lookup_insert_eq in HL'.
      destruct (h_family h1); try discriminate. by injection HL' as <-. }
    destruct (add_frames song h2) as [h3 |] eqn:H3; simpl;
      [| intros [= <- <-]; split; [discriminate |];
         intros ? _ Hne; by apply String.eqb_eq in Hmp3].
    pose proof (add_frames_filename _ _ _ H3) as Hfn3. rewrite Hfn2 in Hfn3.
    apply (add_frames_tracks _ _ _ _ Hh2) in H3.
    destruct (tracks_file _ _ H3) as [t2 Hd2].
    rewrite Hfn3, lookup_insert_eq in Hd2. injection Hd2 as Hf Ht2 Hp.
    intros Hs3. destruct (save_same_art _ _ _ _ H3 Hs3) as [_ Hd3].
    split; [| intros ? _ Hne; by apply String.eqb_eq in Hmp3].
    intros Hr. destruct (Hd3 Hr) as (t3 & _ & ->).
    exists (h_family h1), t0, t3, (h_pictures h1).
    split; [done |]. by rewrite Hfn3, <- Hf, <- Hp, insert_insert_eq.
  - intros Hs1. destruct (save_same_art _ _ _ _ H1 Hs1) as [_ Hd1].
    split.
    + intros Hr. destruct (Hd1 Hr) as (t1 & _ & ->). rewrite Hfn1.
      destruct (tracks_file _ _ H1) as [t0 Hd0]. rewrite Hfn1 in Hd0.
      by exists (h_family h1), t0, t1, (h_pictures h1).
    + intros e -> _. by apply save_raise in Hs1.
Qed.

End Outcome.

Lemma embed_metadata_outcome_witness :
  ∃ t',
    (embed_metadata (demo_path ".mp3") demo_song (demo_disk ".mp3" MP3 [])).2
    = <[resolve (demo_path ".mp3") := Audio MP3 t' []]> (demo_disk ".mp3" MP3 []).
Proof.
  destruct (embed_metadata_outcome (demo_path ".mp3") demo_song
              (demo_disk ".mp3" MP3 [])
              (embed_metadata (demo_path ".mp3") demo_song (demo_disk ".mp3" MP3 [])).2
              (Ok ()))
    as [H _]; [vm_compute; reflexivity |].
  destruct (H eq_refl) as (f & t & t' & p & Hd & Hd').
  vm_compute in Hd. injection Hd as <- <- <-.
  exists t'. exact Hd'.
Defined.

(* ================================================================= *)
(** * The fields of the mapping                                     *)
(* ================================================================= *)

Section ReaderFields.

Lemma untouched_outside fields keys f :
  forallb (fun key => forallb (fun g => elem_str g fields) (touched key)) keys = true →
  elem_str f fields = false → untouched f keys = true.
Proof.
  intros Hall Hf. unfold untouched. apply forallb_forall. intros key Hkey.
  rewrite forallb_forall in Hall. specialize (Hall key Hkey).
  rewrite forallb_forall in Hall.
  destruct (elem_str f (touched key)) eqn:E; [| done].
  apply elem_str_In in E. specialize (Hall f E). congruence.
Qed.

(** X6: a mapping the reader returns has no field outside the seventeen of
    [output_fields]: the thirteen of the song table, the two counts, the
    explicit flag and the main artist.  The comment, the cover and the
    download URL are never in it. *)
Theorem reader_fields_bounded path (d d' : disk) m f :
  get_file_metadata path d = (Ok (Some m), d') →
  elem_str f output_fields = false →
  m !! f = None.
Proof.
  intros (_ & fam & t & p & _ & Hm)%get_file_metadata_Some Hf.
  apply read_tags_Ok in Hm as (song_meta & a & first & Hloop & _ & _ & ->).
  rewrite insert_other.
  - assert (untouched f (TAG_PRESET.*1) = true) as Hu
      by (apply (untouched_outside output_fields); [vm_compute; reflexivity | done]).
    rewrite (for_each_other _ _ f _ _ _ Hu Hloop). apply lookup_empty.
  - intros ->. discriminate Hf.
Qed.

Lemma insert_keeps (m : meta) k v f :
  is_Some (m !! f) → is_Some (<[k := v]> m !! f).
Proof.
  destruct (decide (f = k)) as [-> |];
    [rewrite lookup_insert_eq; eauto | by rewrite lookup_insert_ne].
Qed.

Lemma read_tag_keeps sfx h m key m' f :
  read_tag sfx h m key = Ok m' → is_Some (m !! f) → is_Some (m' !! f).
Proof.
  intros H Hf. unfold read_tag in H.
  apply bind_Ok in H as (k & _ & H). unfold decode_tag in H.
  repeat first
    [ progress peel H
    | match type of H with
      | (if ?c then _ else _) = Ok _ => destruct c eqn:?
      | match ?c with _ => _ end = Ok _ => destruct c eqn:?
      end ].
  all: try discriminate H.
  all: injection H as <-; try done.
  all: by repeat apply insert_keeps.
Qed.

Lemma read_tag_sets sfx h m key m' f :
  read_tag sfx h m key = Ok m' →
  get_truthy TAG_TO_SONG key = Some f →
  (key = "discnumber" → (sfx == ".mp3") || (sfx == ".m4a") = true) →
  is_Some (m' !! f).
Proof.
  intros H Hf Hdisc. unfold read_tag in H.
  apply bind_Ok in H as (k & _ & H). unfold decode_tag in H. rewrite Hf in H.
  repeat first
    [ progress peel H
    | match type of H with
      | (if ?c then _ else _) = Ok _ => destruct c eqn:?
      | match ?c with _ => _ end = Ok _ => destruct c eqn:?
      end ].
  all: try discriminate H.
  all: injection H as <-.
  all: repeat match goal with
       | E : (?k == _) = true |- _ => is_var k; apply String.eqb_eq in E; subst k
       end.
  all: try (vm_compute in Hf; discriminate Hf).
  all: try (vm_compute in Hf; injection Hf as <-).
  all: try (rewrite ?insert_other by done; rewrite lookup_insert_eq; by eauto).
  all: specialize (Hdisc eq_refl); apply orb_true_iff in Hdisc as [? | ?]; congruence.
Qed.

Lemma for_each_keeps sfx h f keys m m' :
  for_each (read_tag sfx h) m keys = Ok m' → is_Some (m !! f) → is_Some (m' !! f).
Proof.
  revert m. induction keys as [| key keys IH]; simpl; intros m H Hf.
  - by injection H as <-.
  - apply bind_Ok in H as (m1 & H1 & H). eauto using read_tag_keeps.
Qed.

Lemma for_each_sets sfx h key f keys m m' :
  In key keys →
  get_truthy TAG_TO_SONG key = Some f →
  (key = "discnumber" → (sfx == ".mp3") || (sfx == ".m4a") = true) →
  for_each (read_tag sfx h) m keys = Ok m' → is_Some (m' !! f).
Proof.
  revert m. induction keys as [| k keys IH]; simpl; intros m Hin Hf Hdisc H; [done |].
  apply bind_Ok in H as (m1 & H1 & H). destruct Hin as [-> | Hin].
  - eapply for_each_keeps; [exact H |]. by eapply read_tag_sets.
  - by eapply IH.
Qed.

(** X7: a mapping the reader returns always has the thirteen fields of
    [constant_fields], whatever the tags of the file (a field without tag
    holds [None]); on mp3 and m4a it has the disc number as well. *)
Theorem reader_fields_present path (d d' : disk) m :
  get_file_metadata path d = (Ok (Some m), d') →
  (∀ f, In f constant_fields → is_Some (m !! f))
  ∧ (suffix path = ".mp3" ∨ suffix path = ".m4a" → is_Some (m !! "disc_number")).
Proof.
  intros (_ & fam & t & p & _ & Hm)%get_file_metadata_Some.
  apply read_tags_Ok in Hm as (song_meta & a & first & Hloop & _ & _ & ->).
  assert (Hkey : ∀ key f, In key (TAG_PRESET.*1) →
            get_truthy TAG_TO_SONG key = Some f →
            (key = "discnumber" → (suffix path == ".mp3") || (suffix path == ".m4a") = true) →
            is_Some (<["artist" := first]> song_meta !! f)).
  { intros key f Hin Hf Hdisc.
    apply insert_keeps. by eapply for_each_sets. }
  split.
  - intros f Hin. simpl in Hin.
    destruct Hin as [<- | [<- | [<- | [<- | [<- | [<- | [<- | [<- | [<- | [<- | [<- | [<- | [<- | []]]]]]]]]]]]]].
    + apply (Hkey "title"); [in_fields | done | done].
    + apply (Hkey "artist"); [in_fields | done | done].
    + apply (Hkey "album"); [in_fields | done | done].
    + apply (Hkey "albumartist"); [in_fields | done | done].
    + apply (Hkey "genre"); [in_fields | done | done].
    + apply (Hkey "year"); [in_fields | done | done].
    + apply (Hkey "date"); [in_fields | done | done].
    + apply (Hkey "tracknumber"); [in_fields | done | done].
    + apply (Hkey "encodedby"); [in_fields | done | done].
    + apply (Hkey "woas"); [in_fields | done | done].
    + apply (Hkey "copyright"); [in_fields | done | done].
    + apply (Hkey "lyrics"); [in_fields | done | done].
    + rewrite lookup_insert_eq. eauto.
  - intros Hsfx. apply (Hkey "discnumber"); [in_fields | done |].
    intros _. destruct Hsfx as [-> | ->]; reflexivity.
Qed.

End ReaderFields.

Lemma reader_fields_bounded_witness :
  ∃ m,
    get_file_metadata (demo_path ".mp3") (demo_disk ".mp3" MP3 mp3_3_of_12)
    = (Ok (Some m), demo_disk ".mp3" MP3 mp3_3_of_12)
    ∧ m !! "comment" = None
    ∧ m !! "cover_url" = None.
Proof.
  destruct (reads_ok_spec (demo_path ".mp3") (demo_disk ".mp3" MP3 mp3_3_of_12))
    as [m E]; [vm_compute; reflexivity |].
  exists m. split; [exact E |].
  split; apply (reader_fields_bounded _ _ _ m _ E); reflexivity.
Defined.

Lemma reader_fields_present_witness :
  ∃ m,
    get_file_metadata (demo_path ".mp3") (demo_disk ".mp3" MP3 mp3_3_of_12)
    = (Ok (Some m), demo_disk ".mp3" MP3 mp3_3_of_12)
    ∧ is_Some (m !! "lyrics")
    ∧ is_Some (m !! "disc_number").
Proof.
  destruct (reads_ok_spec (demo_path ".mp3") (demo_disk ".mp3" MP3 mp3_3_of_12))
    as [m E]; [vm_compute; reflexivity |].
  exists m. split; [exact E |].
  destruct (reader_fields_present _ _ _ m E) as [Hall Hdisc].
  split; [apply Hall; in_fields | apply Hdisc; left; reflexivity].
Defined.

Section PlainFields.

Lemma plain_decode sfx (song_meta : meta) key field val :
  In (key, field) plain_keys → sfx == ".mp3" = false → is_none val = false →
  decode_tag sfx song_meta key val
  = (v ← unwrap val; Ok (<[field := v]> song_meta)).
Proof.
  intros Hin Hmp3 Hval. unfold decode_tag. rewrite Hval, Hmp3.
  simpl in Hin.
  repeat (destruct Hin as [[= <- <-] | Hin];
          [destruct (sfx == ".m4a"); reflexivity |]).
  done.
Qed.

(** X8: on m4a, flac, ogg and opus, the fields of the nine plain keys
    (title, artist, album, album artist, genre, date, encoded-by, copyright
    and lyrics) follow the tag: no tag gives [None]; a tag with one value
    gives that value on its own; a tag with two values or more gives the
    list, and so does a tag with no value. *)
Theorem reader_plain_fields path (d : disk) f t pictures m key field native :
  suffix path ≠ ".mp3" →
  d !! resolve path = Some (Audio f t pictures) →
  get_file_metadata path d = (Ok (Some m), d) →
  In (key, field) plain_keys →
  native_key (suffix path) key = Ok native →
  (t !! native = None → m !! field = Some PNone)
  ∧ (∀ x, t !! native = Some (PList [x]) → m !! field = Some x)
  ∧ (∀ x y l, t !! native = Some (PList (x :: y :: l)) →
       m !! field = Some (PList (x :: y :: l)))
  ∧ (t !! native = Some (PList []) → m !! field = Some (PList [])).
Proof.
  intros Hsfx Hd (_ & f' & t' & p' & Hd' & Hm)%get_file_metadata_Some Hin Hnative.
  rewrite Hd in Hd'. injection Hd' as <- <- <-.
  assert (suffix path == ".mp3" = false) as Hmp3 by (by apply String.eqb_neq).
  apply read_tags_Ok in Hm as (song_meta & a & first & Hloop & _ & _ & ->).
  assert (field ≠ "artist") as Hfield.
  { simpl in Hin. repeat (destruct Hin as [[= <- <-] | Hin]; [done |]). done. }
  rewrite insert_other by done.
  assert (only_from key field = true) as Honly.
  { simpl in Hin. repeat (destruct Hin as [[= <- <-] | Hin]; [reflexivity |]). done. }
  destruct (field_of_key _ _ key field _ Honly Hloop) as (m1 & m2 & Hstep & _ & ->).
  rewrite (read_tag_loaded _ _ _ _ _ _ _ _ Hnative) in Hstep.
  split_and!.
  - intros E. rewrite E in Hstep. unfold decode_tag in Hstep.
    cbn [default is_none] in Hstep.
    assert (get_truthy TAG_TO_SONG key = Some field) as Hg.
    { simpl in Hin. repeat (destruct Hin as [[= <- <-] | Hin]; [reflexivity |]). done. }
    rewrite Hg in Hstep. injection Hstep as <-. by rewrite lookup_insert_eq.
  - intros x E. rewrite E in Hstep. simpl in Hstep.
    rewrite (plain_decode _ _ _ field) in Hstep by done.
    injection Hstep as <-. by rewrite lookup_insert_eq.
  - intros x y l E. rewrite E in Hstep. simpl in Hstep.
    rewrite (plain_decode _ _ _ field) in Hstep by done.
    injection Hstep as <-. by rewrite lookup_insert_eq.
  - intros E. rewrite E in Hstep. simpl in Hstep.
    rewrite (plain_decode _ _ _ field) in Hstep by done.
    injection Hstep as <-. by rewrite lookup_insert_eq.
Qed.

End PlainFields.

Lemma reader_plain_fields_witness :
  ∃ m,
    get_file_metadata (demo_path ".flac") (demo_disk ".flac" FLAC flac_mixed)
    = (Ok (Some m), demo_disk ".flac" FLAC flac_mixed)
    ∧ m !! "genres" = Some (PStr "pop")
    ∧ m !! "name" = Some PNone.
Proof.
  destruct (reads_ok_spec (demo_path ".flac") (demo_disk ".flac" FLAC flac_mixed))
    as [m E]; [vm_compute; reflexivity |].
  exists m. split; [exact E |]. split.
  - destruct (reader_plain_fields (demo_path ".flac")
                (demo_disk ".flac" FLAC flac_mixed) FLAC (list_to_map flac_mixed) []
                m "genre" "genres" "genre")
      as (_ & H & _); [discriminate | reflexivity | exact E | in_fields | reflexivity |].
    apply H. reflexivity.
  - destruct (reader_plain_fields (demo_path ".flac")
                (demo_disk ".flac" FLAC flac_mixed) FLAC (list_to_map flac_mixed) []
                m "title" "name" "title")
      as (H & _); [discriminate | reflexivity | exact E | in_fields | reflexivity |].
    apply H. reflexivity.
Defined.

Section YearSource.

Lemma for_each_cons {St A} (step : St → A → result St) s x l :
  for_each step s (x :: l) = step s x ≫= fun s' => for_each step s' l.
Proof. reflexivity. Qed.

Lemma year_decided sfx h song_meta :
  for_each (read_tag sfx h) ∅ (TAG_PRESET.*1) = Ok song_meta →
  ∃ m1 m2 m3,
    read_tag sfx h m1 "year" = Ok m2
    ∧ read_tag sfx h m2 "originaldate" = Ok m3
    ∧ song_meta !! "year" = m3 !! "year".
Proof.
  change (TAG_PRESET.*1) with
    (["album"; "artist"; "date"; "title"] ++ "year" :: "originaldate" ::
     ["comment"; "group"; "writer"; "genre"; "tracknumber"; "albumartist";
      "discnumber"; "cpil"; "albumart"; "encodedby"; "copyright"; "tempo";
      "lyrics"; "explicit"; "woas"]).
  rewrite for_each_app. intros (m1 & _ & H)%bind_Ok.
  rewrite for_each_cons in H. apply bind_Ok in H as (m2 & H2 & H).
  rewrite for_each_cons in H. apply bind_Ok in H as (m3 & H3 & H).
  exists m1, m2, m3. split; [done |]. split; [done |].
  eapply for_each_other; [| exact H]. vm_compute. reflexivity.
Qed.

(** X9: on flac, ogg and opus the year of the mapping comes from the
    [originaldate] tag and from no other: with that tag, it is the number
    its first four characters spell; without it, the year is what the [year]
    tag holds, as a text, and [None] when there is no [year] tag either,
    whatever the [date] tag says. *)
Theorem generic_year_source path (d : disk) f t pictures m :
  In (suffix path) [".flac"; ".ogg"; ".opus"] →
  d !! resolve path = Some (Audio f t pictures) →
  get_file_metadata path d = (Ok (Some m), d) →
  (∀ s l, t !! "originaldate" = Some (PList (PStr s :: l)) →
     ∃ y, int_of_text (text_take 4 s) = Ok y ∧ m !! "year" = Some (PInt y))
  ∧ (t !! "originaldate" = None → t !! "year" = None → m !! "year" = Some PNone)
  ∧ (∀ s, t !! "originaldate" = None → t !! "year" = Some (PList [PStr s]) →
       m !! "year" = Some (PStr s)).
Proof.
  intros [Hm4a Hmp3]%generic_suffix Hd (_ & f' & t' & p' & Hd' & Hm)%get_file_metadata_Some.
  rewrite Hd in Hd'. injection Hd' as <- <- <-.
  apply read_tags_Ok in Hm as (song_meta & a & first & Hloop & _ & _ & ->).
  assert (Hnative : ∀ key, native_key (suffix path) key = Ok key).
  { intros key. unfold native_key. by rewrite Hm4a, Hmp3. }
  destruct (year_decided _ _ _ Hloop) as (m1 & m2 & m3 & H2 & H3 & Hy).
  rewrite (read_tag_loaded _ _ _ _ _ _ _ _ (Hnative _)) in H2.
  rewrite (read_tag_loaded _ _ _ _ _ _ _ _ (Hnative _)) in H3.
  rewrite !insert_other, Hy by done. clear Hy Hloop.
  unfold decode_tag in H2, H3. rewrite Hm4a, Hmp3 in H2, H3.
  split_and!.
  - intros s l E. rewrite E in H3. simpl in H3.
    unfold year_of in H3. simpl in H3.
    destruct (int_of_text (text_take 4 s)) as [y |]; [| discriminate].
    injection H3 as <-. exists y. by rewrite lookup_insert_eq.
  - intros E E'. rewrite E in H3. rewrite E' in H2. simpl in H2, H3.
    injection H3 as <-. injection H2 as <-. by rewrite lookup_insert_eq.
  - intros s E E'. rewrite E in H3. rewrite E' in H2. simpl in H2, H3.
    injection H3 as <-. injection H2 as <-. by rewrite lookup_insert_eq.
Qed.

End YearSource.

Lemma generic_year_source_witness :
  ∃ m,
    get_file_metadata (demo_path ".flac") (demo_disk ".flac" FLAC flac_date_only)
    = (Ok (Some m), demo_disk ".flac" FLAC flac_date_only)
    ∧ m !! "year" = Some PNone.
Proof.
  destruct (reads_ok_spec (demo_path ".flac") (demo_disk ".flac" FLAC flac_date_only))
    as [m E]; [vm_compute; reflexivity |].
  exists m. split; [exact E |].
  destruct (generic_year_source (demo_path ".flac")
              (demo_disk ".flac" FLAC flac_date_only) FLAC
              (list_to_map flac_date_only) [] m)
    as (_ & H & _); [simpl; tauto | reflexivity | exact E |].
  apply H; reflexivity.
Defined.

Section AllOrNothing.

Lemma read_tag_raise_anywhere sfx h m m' key e :
  read_tag sfx h m key = Raise e → read_tag sfx h m' key = Raise e.
Proof.
  unfold read_tag. destruct (native_key sfx key) as [k |]; [| done].
  cbn [mbind result_bind]. generalize (get h k). intros val.
  unfold decode_tag, mbind, result_bind.
  intros H.
  repeat match type of H with
         | context [match ?c with _ => _ end] =>
             lazymatch c with
             | context [match _ with _ => _ end] => fail
             | _ => destruct c eqn:?
             end
         | context [if ?c then _ else _] =>
             lazymatch c with
             | context [if _ then _ else _] => fail
             | _ => destruct c eqn:?
             end
         end;
    try discriminate H; try exact H.
Qed.

Lemma read_tag_empty sfx path f pictures m key :
  In key (TAG_PRESET.*1) →
  ∃ m', read_tag sfx (loaded path f ∅ pictures) m key = Ok m'.
Proof.
  intros Hin.
  assert (∃ k, native_key sfx key = Ok k) as [k Hk].
  { unfold native_key, subscript.
    destruct (sfx == ".m4a"); [| destruct (sfx == ".mp3")]; [| | eauto];
      simpl in Hin;
      repeat (destruct Hin as [<- | Hin]; [eexists; reflexivity |]); done. }
  rewrite (read_tag_absent _ _ _ _ _ _ _ _ Hk (lookup_empty _)). eauto.
Qed.

Lemma loop_raises sfx h pre key post (m : meta) e :
  read_tag sfx h ∅ key = Raise e →
  ∃ key' e',
    In key' (pre ++ [key])
    ∧ read_tag sfx h ∅ key' = Raise e'
    ∧ (key' = key → e' = e)
    ∧ for_each (read_tag sfx h) m (pre ++ key :: post) = Raise e'.
Proof.
  intros Hfail. revert m. induction pre as [| k pre IH]; intros m.
  - exists key, e. simpl. rewrite (read_tag_raise_anywhere _ _ _ m _ _ Hfail). auto.
  - simpl. destruct (read_tag sfx h m k) as [m1 | e1] eqn:E; simpl.
    + destruct (IH m1) as (key' & e' & Hin & Hk & He & Hloop). eauto 10.
    + pose proof (read_tag_raise_anywhere _ _ _ ∅ _ _ E) as E0.
      exists k, e1. split; [auto |]. split; [done |]. split; [| done].
      intros ->. congruence.
Qed.

Lemma in_fragment_spec sfx h key e :
  in_fragment sfx h = true → In key (TAG_PRESET.*1) →
  read_tag sfx h ∅ key = Raise e → decoding_error e = true.
Proof.
  unfold in_fragment. rewrite forallb_forall. intros Hall Hin Hfail.
  specialize (Hall key Hin). rewrite Hfail in Hall.
  apply outcome_error; [by eapply read_tag_error |]. by intros ->.
Qed.

(** X10: the read is all or nothing.  For a file whose tags are within the
    fragment of Python described here: when the round of one key of the
    loop raises, on whatever mapping, [get_file_metadata] raises the
    exception of the first key whose round raises (that key or an earlier
    one of the loop), a built-in error of the decoding; it returns no
    mapping, and the disk is as it was.  One tag that cannot be decoded, a
    date that does not start with a number for one, makes the whole file
    unreadable. *)
Theorem read_all_or_nothing path (d : disk) f t pictures key m0 e :
  d !! resolve path = Some (Audio f t pictures) →
  in_fragment (suffix path) (loaded path f t pictures) = true →
  In key (TAG_PRESET.*1) →
  read_tag (suffix path) (loaded path f t pictures) m0 key = Raise e →
  ∃ key' e',
    In key' (before key (TAG_PRESET.*1) ++ [key])
    ∧ read_tag (suffix path) (loaded path f t pictures) ∅ key' = Raise e'
    ∧ (key' = key → e' = e)
    ∧ get_file_metadata path d = (Raise e', d)
    ∧ decoding_error e' = true.
Proof.
  intros Hd Hfrag Hin Hfail.
  assert (size t ≠ 0%nat) as Hsize.
  { intros ->%map_size_empty_iff.
    destruct (read_tag_empty (suffix path) path f pictures m0 key Hin) as [m' E].
    congruence. }
  assert (elem_str key (TAG_PRESET.*1) = true) as Hel.
  { unfold elem_str. apply existsb_exists. exists key.
    split; [done | apply String.eqb_refl]. }
  pose proof (before_after _ _ Hel) as Hkeys.
  apply (read_tag_raise_anywhere _ _ _ ∅) in Hfail.
  destruct (loop_raises _ _ (before key (TAG_PRESET.*1)) key
              (after key (TAG_PRESET.*1)) ∅ e Hfail)
    as (key' & e' & Hin' & Hk & He & Hloop).
  exists key', e'. split; [done |]. split; [done |]. split; [done |]. split.
  - rewrite (get_file_metadata_loaded _ _ _ _ _ Hd Hsize).
    unfold read_tags. rewrite Hkeys, Hloop. reflexivity.
  - apply (in_fragment_spec _ _ key' e' Hfrag); [| done].
    rewrite Hkeys. apply in_app_iff in Hin' as [Hb | [<- | []]];
      apply in_app_iff; [left | right; left]; done.
Qed.

End AllOrNothing.

Lemma read_all_or_nothing_witness :
  get_file_metadata (demo_path ".m4a") (demo_disk ".m4a" M4A m4a_bad_date)
  = (Raise ValueError, demo_disk ".m4a" M4A m4a_bad_date).
Proof.
  destruct (read_all_or_nothing (demo_path ".m4a")
              (demo_disk ".m4a" M4A m4a_bad_date)
              M4A (list_to_map m4a_bad_date) [] "year" ∅ ValueError)
    as (key' & e' & Hin & Hk & He & Hr & _);
    [reflexivity | vm_compute; reflexivity | in_fields | vm_compute; reflexivity |].
  assert (key' = "year") as Hkey.
  { simpl in Hin.
    destruct Hin as [<- | [<- | [<- | [<- | [<- | []]]]]];
      first [reflexivity | vm_compute in Hk; discriminate Hk]. }
  rewrite (He Hkey) in Hr. exact Hr.
Defined.

(* ================================================================= *)
(** * Writing, then reading: the other fields                       *)
(* ================================================================= *)

Section RoundTripMore.

Variables (path : Path) (song : Song) (pictures : list pyval).
Variable y : Z.
Hypothesis Hyear : int_of_text (text_take 4 (date song)) = Ok y.
Hypothesis Hartists : has_main_artist (artists song) = true.

Lemma generic_loop_more f (m0 : meta) :
  In (suffix path) [".flac"; ".ogg"; ".opus"] →
  ∃ song_meta,
    for_each (read_tag (suffix path) (loaded path f (vorbis_tags song ∅) pictures))
      m0 (TAG_PRESET.*1) = Ok song_meta
    ∧ song_meta !! "artists" = Some (unwrapped (artists song))
    ∧ song_meta !! "date" = Some (PStr (date song))
    ∧ song_meta !! "year" = Some (PInt y)
    ∧ song_meta !! "publisher" = Some (PStr (publisher song))
    ∧ song_meta !! "album_artist" = Some (PStr (artist song))
    ∧ song_meta !! "disc_count" = Some (PInt (disc_number song))
    ∧ song_meta !! "disc_number" = m0 !! "disc_number"
    ∧ song_meta !! "explicit" = m0 !! "explicit".
Proof.
  intros Hsuffix.
  destruct (generic_suffix _ Hsuffix) as [Hm4a Hmp3].
  assert (Hnative : ∀ key, native_key (suffix path) key = Ok key).
  { intros key. unfold native_key. by rewrite Hm4a, Hmp3. }
  eexists. split.
  - change (TAG_PRESET.*1) with
      ["album"; "artist"; "date"; "title"; "year"; "originaldate"; "comment";
       "group"; "writer"; "genre"; "tracknumber"; "albumartist"; "discnumber";
       "cpil"; "albumart"; "encodedby"; "copyright"; "tempo"; "lyrics";
       "explicit"; "woas"].
    repeat
      (eapply eq_trans;
       [ apply for_each_step;
         rewrite (read_tag_loaded _ _ _ _ _ _ _ _ (Hnative _)); look vorbis_tags;
         unfold decode_tag; rewrite Hm4a, Hmp3; simpl;
         first
           [ reflexivity
           | eapply optional_field; reflexivity
           | apply vorbis_list_field
           | apply vorbis_when_list_field
           | apply vorbis_optional_field
           | apply if_same
           | rewrite (year_of_text _ _ Hyear); reflexivity
           | unfold zfilled; rewrite int_of_text_zfill; reflexivity ]
       | ]).
    reflexivity.
  - repeat split; by rewrite ?insert_other by done; rewrite ?lookup_insert_eq.
Qed.

Lemma mp4_loop_more (m0 : meta) :
  utf8_valid (url song) = true →
  ∃ song_meta,
    for_each (read_tag ".m4a" (loaded path M4A (mp4_saved song ∅) pictures))
      m0 (TAG_PRESET.*1) = Ok song_meta
    ∧ song_meta !! "artists" = Some (unwrapped (artists song))
    ∧ song_meta !! "date" = Some (PStr (date song))
    ∧ song_meta !! "year" = Some (PInt y)
    ∧ song_meta !! "publisher" = Some (PStr (publisher song))
    ∧ song_meta !! "album_artist" = Some (PStr (artist song)).
Proof.
  intros Hurl.
  pose proof (unwrap_texts _ (has_main_artist_nonempty _ Hartists)) as Hunwrap.
  unfold texts in Hunwrap.
  eexists. split.
  - change (TAG_PRESET.*1) with
      ["album"; "artist"; "date"; "title"; "year"; "originaldate"; "comment";
       "group"; "writer"; "genre"; "tracknumber"; "albumartist"; "discnumber";
       "cpil"; "albumart"; "encodedby"; "copyright"; "tempo"; "lyrics";
       "explicit"; "woas"].
    repeat
      (eapply eq_trans;
       [ apply for_each_step;
         erewrite read_tag_loaded by reflexivity; look mp4_saved;
         unfold decode_tag; simpl;
         first
           [ reflexivity
           | eapply optional_field; reflexivity
           | apply when_list_field
           | apply if_same
           | unfold texts; rewrite Hunwrap; reflexivity
           | rewrite (year_of_text _ _ Hyear); reflexivity
           | rewrite Hurl; reflexivity ]
       | ]).
    reflexivity.
  - repeat split; rewrite ?insert_other by done; rewrite ?lookup_insert_eq;
      done.
Qed.

Lemma mp3_loop_more (m0 : meta) :
  ∃ song_meta,
    for_each (read_tag ".mp3"
                (loaded path MP3 (frame_tags song (easy_tags song ∅)) pictures))
      m0 (TAG_PRESET.*1) = Ok song_meta
    ∧ song_meta !! "artists" = Some (unwrapped (artists song))
    ∧ song_meta !! "date" = Some (PStr (date song))
    ∧ song_meta !! "year" = Some (PInt y)
    ∧ song_meta !! "publisher" = Some (PStr (publisher song))
    ∧ song_meta !! "album_artist" = Some (PStr (artist song)).
Proof.
  pose proof (unwrap_texts _ (has_main_artist_nonempty _ Hartists)) as Hunwrap.
  unfold texts in Hunwrap.
  eexists. split.
  - change (TAG_PRESET.*1) with
      ["album"; "artist"; "date"; "title"; "year"; "originaldate"; "comment";
       "group"; "writer"; "genre"; "tracknumber"; "albumartist"; "discnumber";
       "cpil"; "albumart"; "encodedby"; "copyright"; "tempo"; "lyrics";
       "explicit"; "woas"].
    repeat
      (eapply eq_trans;
       [ apply for_each_step;
         erewrite read_tag_loaded by reflexivity; unfold frame_tags; look easy_tags;
         unfold decode_tag; cbn -[unwrap USLT COMM text_frame];
         first
           [ reflexivity
           | eapply frame_field; reflexivity
           | apply list_frame_field
           | apply optional_frame_field
           | apply lyrics_field
           | apply if_same
           | unfold text_frame, WOAS; cbn -[unwrap year_of];
             first
               [ reflexivity
               | rewrite Hunwrap; reflexivity
               | rewrite (year_of_text _ _ Hyear); reflexivity
               | rewrite split_slash_join; cbn -[unwrap year_of];
                 rewrite !int_of_text_str; reflexivity ] ]
       | ]).
    reflexivity.
  - repeat split; rewrite ?insert_other by done; rewrite ?lookup_insert_eq;
      done.
Qed.

End RoundTripMore.

Section RoundTripFields.

Lemma main_artist_first l :
  has_main_artist l = true → item (unwrapped l) 0 = Ok (read_main_artist l).
Proof.
  destruct l as [| a [| b l]]; simpl; [done | | done].
  intros Ha. destruct a as [| c a]; [done |]. reflexivity.
Qed.

(** Everything else the reader gives back from a file just written. *)
Lemma round_trip_more path song (d : disk) fam pictures y :
  family_of (suffix path) = Some fam →
  d !! resolve path = Some (Audio fam ∅ pictures) →
  has_main_artist (artists song) = true →
  int_of_text (text_take 4 (date song)) = Ok y →
  (fam = M4A →
   pair_in_range (track_number song) (tracks_count song) = true
   ∧ pair_in_range (disc_number song) (disc_count song) = true
   ∧ utf8_valid (url song) = true) →
  (fam = MP3 → id3_plain song = true) →
  ∃ d' m,
    embed_metadata path song d = (Ok (), d')
    ∧ get_file_metadata path d' = (Ok (Some m), d')
    ∧ m !! "artists" = Some (unwrapped (artists song))
    ∧ m !! "artist" = Some (read_main_artist (artists song))
    ∧ m !! "date" = Some (PStr (date song))
    ∧ m !! "year" = Some (PInt y)
    ∧ m !! "publisher" = Some (PStr (publisher song))
    ∧ m !! "album_artist" = Some (PStr (artist song))
    ∧ (fam ≠ MP3 → fam ≠ M4A →
       m !! "disc_count" = Some (PInt (disc_number song))
       ∧ m !! "disc_number" = None
       ∧ m !! "explicit" = None).
Proof.
  intros Hfam Hd Hartists Hyear Hm4a Hmp3.
  pose proof (main_artist_first _ Hartists) as Hfirst.
  destruct (family_of_cases _ _ Hfam)
    as [[Hsfx ->] | [[Hsfx ->] | (Hsfx & Hk & Hmp3' & Hm4a')]].
  - specialize (Hmp3 eq_refl).
    exists (<[resolve path := Audio MP3 (frame_tags song (easy_tags song ∅)) pictures]> d).
    destruct (mp3_loop_more path song pictures y Hyear Hartists ∅)
      as (song_meta & Hloop & Ha & Hfields).
    exists (<["artist" := read_main_artist (artists song)]> song_meta).
    split; [by apply embed_metadata_mp3 |].
    split.
    + erewrite get_file_metadata_loaded;
        [| apply lookup_insert_eq
         | apply (size_nonzero _ "WOAS" (WOAS (PStr (url song))));
           unfold frame_tags; by look easy_tags ].
      rewrite Hsfx. unfold read_tags, meta_item. rewrite Hloop. simpl.
      rewrite Ha. simpl. by rewrite Hfirst.
    + rewrite lookup_insert_eq, !insert_other by done. split_and!; try tauto; done.
  - destruct (Hm4a eq_refl) as (Htrack & Hdisc & Hurl).
    exists (<[resolve path := Audio M4A (mp4_saved song ∅) pictures]> d).
    destruct (mp4_loop_more path song pictures y Hyear Hartists ∅ Hurl)
      as (song_meta & Hloop & Ha & Hfields).
    exists (<["artist" := read_main_artist (artists song)]> song_meta).
    split; [by apply embed_metadata_mp4 |].
    split.
    + erewrite get_file_metadata_loaded;
        [| apply lookup_insert_eq
         | apply (size_nonzero _ "----:spotdl:WOAS" (PList [PBytes (url song)]));
           by look mp4_saved ].
      rewrite Hsfx. unfold read_tags, meta_item. rewrite Hloop. simpl.
      rewrite Ha. simpl. by rewrite Hfirst.
    + rewrite lookup_insert_eq, !insert_other by done. split_and!; try tauto; done.
  - assert (Henc : elem_str (text_drop 1 (suffix path)) ["flac"; "ogg"; "opus"] = true).
    { simpl in Hsfx. by destruct Hsfx as [<- | [<- | [<- | []]]]. }
    exists (<[resolve path := Audio fam (vorbis_tags song ∅) pictures]> d).
    destruct (generic_loop_more path song pictures y Hyear fam ∅ Hsfx)
      as (song_meta & Hloop & Ha & Hdate & Hy & Hp & Haa & Hdc & Hdn & He).
    exists (<["artist" := read_main_artist (artists song)]> song_meta).
    split; [by apply embed_metadata_generic |].
    split.
    + erewrite get_file_metadata_loaded;
        [| apply lookup_insert_eq
         | apply (size_nonzero _ "woas" (PList [PStr (url song)])); by look vorbis_tags ].
      unfold read_tags, meta_item. rewrite Hloop. simpl.
      rewrite Ha. simpl. by rewrite Hfirst.
    + rewrite lookup_insert_eq, !insert_other by done.
      rewrite Hdn, He, !lookup_empty. split_and!; done.
Qed.

End RoundTripFields.

Section RoundTripFields2.

(** X11: the date, the year, the publisher and the album artist come back
    from a file just written, in each of the four formats: the date as the
    text it was, the year as the number its first four characters spell,
    the publisher from the [encodedby] tag and the album artist from the
    main artist of the song.  The song is as for the round trip: a main
    artist, a date that starts with a year, for m4a numbers below 65536 and
    a well-formed URL, for mp3 what the frames of ID3 keep as it is written
    ([id3_plain]: among others, a title and a publisher that are not
    empty). *)
Theorem round_trip_dates path song (d : disk) fam pictures y :
  family_of (suffix path) = Some fam →
  d !! resolve path = Some (Audio fam ∅ pictures) →
  has_main_artist (artists song) = true →
  int_of_text (text_take 4 (date song)) = Ok y →
  (fam = M4A →
   pair_in_range (track_number song) (tracks_count song) = true
   ∧ pair_in_range (disc_number song) (disc_count song) = true
   ∧ utf8_valid (url song) = true) →
  (fam = MP3 → id3_plain song = true) →
  ∃ d' m,
    embed_metadata path song d = (Ok (), d')
    ∧ get_file_metadata path d' = (Ok (Some m), d')
    ∧ m !! "date" = Some (PStr (date song))
    ∧ m !! "year" = Some (PInt y)
    ∧ m !! "publisher" = Some (PStr (publisher song))
    ∧ m !! "album_artist" = Some (PStr (artist song)).
Proof.
  intros Hfam Hd Hartists Hyear Hm4a Hmp3.
  destruct (round_trip_more path song d fam pictures y Hfam Hd Hartists Hyear Hm4a
              Hmp3)
    as (d' & m & Hw & Hr & _ & _ & Hfields).
  exists d', m. tauto.
Qed.

(** X12: for a song as for the round trip, the main artist that comes back
    from a file just written is the first artist of the song when it has
    several; when it has a single artist, the reader has taken the name out
    of its list, and the main artist is the first character of the name. *)
Theorem round_trip_main_artist path song (d : disk) fam pictures y :
  family_of (suffix path) = Some fam →
  d !! resolve path = Some (Audio fam ∅ pictures) →
  has_main_artist (artists song) = true →
  int_of_text (text_take 4 (date song)) = Ok y →
  (fam = M4A →
   pair_in_range (track_number song) (tracks_count song) = true
   ∧ pair_in_range (disc_number song) (disc_count song) = true
   ∧ utf8_valid (url song) = true) →
  (fam = MP3 → id3_plain song = true) →
  ∃ d' m,
    embed_metadata path song d = (Ok (), d')
    ∧ get_file_metadata path d' = (Ok (Some m), d')
    ∧ (∀ a, artists song = [a] →
         m !! "artists" = Some (PStr a)
         ∧ m !! "artist" = Some (PStr (text_take 1 a)))
    ∧ (∀ a b l, artists song = a :: b :: l →
         m !! "artists" = Some (PList (PStr <$> a :: b :: l))
         ∧ m !! "artist" = Some (PStr a)).
Proof.
  intros Hfam Hd Hartists Hyear Hm4a Hmp3.
  destruct (round_trip_more path song d fam pictures y Hfam Hd Hartists Hyear Hm4a
              Hmp3)
    as (d' & m & Hw & Hr & Ha & Hfirst & _).
  exists d', m. split; [done |]. split; [done |].
  split; [intros a E | intros a b l E]; rewrite E in Ha, Hfirst; done.
Qed.

(** X13: on flac, ogg and opus, for a song with a main artist and a date
    that starts with a year, written to a fresh file and read back, the
    disc number of the song comes back as the disc count of the mapping;
    the mapping has no disc number and no explicit flag. *)
Theorem generic_round_trip_disc path song (d : disk) fam pictures y :
  In (suffix path) [".flac"; ".ogg"; ".opus"] →
  family_of (suffix path) = Some fam →
  d !! resolve path = Some (Audio fam ∅ pictures) →
  has_main_artist (artists song) = true →
  int_of_text (text_take 4 (date song)) = Ok y →
  ∃ d' m,
    embed_metadata path song d = (Ok (), d')
    ∧ get_file_metadata path d' = (Ok (Some m), d')
    ∧ m !! "disc_count" = Some (PInt (disc_number song))
    ∧ m !! "disc_number" = None
    ∧ m !! "explicit" = None.
Proof.
  intros Hsfx Hfam Hd Hartists Hyear.
  assert (fam ≠ MP3 ∧ fam ≠ M4A) as [Hmp3 Hm4a].
  { simpl in Hsfx. destruct Hsfx as [E | [E | [E | []]]]; rewrite <- E in Hfam;
      injection Hfam as <-; done. }
  destruct (round_trip_more path song d fam pictures y Hfam Hd Hartists Hyear
              ltac:(done) ltac:(done))
    as (d' & m & Hw & Hr & _ & _ & _ & _ & _ & _ & Hdisc).
  exists d', m. specialize (Hdisc Hmp3 Hm4a). tauto.
Qed.

End RoundTripFields2.

Lemma round_trip_dates_witness :
  ∃ d' m,
    embed_metadata (demo_path ".mp3") demo_song (demo_disk ".mp3" MP3 [])
    = (Ok (), d')
    ∧ get_file_metadata (demo_path ".mp3") d' = (Ok (Some m), d')
    ∧ m !! "date" = Some (PStr "2021-05-01")
    ∧ m !! "year" = Some (PInt 2021)
    ∧ m !! "publisher" = Some (PStr "Label")
    ∧ m !! "album_artist" = Some (PStr "Ann").
Proof.
  apply (round_trip_dates (demo_path ".mp3") demo_song (demo_disk ".mp3" MP3 [])
           MP3 [] 2021); try reflexivity; discriminate.
Defined.

Lemma round_trip_main_artist_witness :
  ∃ d' m,
    embed_metadata (demo_path ".flac") demo_solo (demo_disk ".flac" FLAC [])
    = (Ok (), d')
    ∧ get_file_metadata (demo_path ".flac") d' = (Ok (Some m), d')
    ∧ m !! "artists" = Some (PStr "Ann")
    ∧ m !! "artist" = Some (PStr "A").
Proof.
  destruct (round_trip_main_artist (demo_path ".flac") demo_solo
              (demo_disk ".flac" FLAC []) FLAC [] 2021)
    as (d' & m & Hw & Hr & Hone & _); try reflexivity; try discriminate.
  exists d', m. split; [exact Hw |]. split; [exact Hr |].
  exact (Hone "Ann" eq_refl).
Defined.

Lemma generic_round_trip_disc_witness :
  ∃ d' m,
    embed_metadata (demo_path ".flac") demo_song (demo_disk ".flac" FLAC [])
    = (Ok (), d')
    ∧ get_file_metadata (demo_path ".flac") d' = (Ok (Some m), d')
    ∧ m !! "disc_count" = Some (PInt 3)
    ∧ m !! "disc_number" = None
    ∧ m !! "explicit" = None.
Proof.
  apply (generic_round_trip_disc (demo_path ".flac") demo_song
           (demo_disk ".flac" FLAC []) FLAC [] 2021);
    [simpl; tauto | reflexivity | reflexivity | reflexivity | reflexivity].
Defined.

(* ================================================================= *)
(** * The cover embedder, when the fetch succeeds                   *)
(* ================================================================= *)

Section CoverStored.

Variable fetch : string → option string.
Variable picture_write : pyval → string.
Variable b64encode : string → string.

Lemma opened_as_cases encoding h :
  opened_as encoding h →
  (encoding = "mp3" ∧ h_family h = MP3 ∧ h_kind h = ID3)
  ∨ (encoding = "m4a" ∧ h_family h = M4A ∧ h_kind h = MP4)
  ∨ (encoding = "flac" ∧ h_family h = FLAC ∧ h_kind h = VComment)
  ∨ (encoding = "ogg" ∧ h_family h = OggVorbis ∧ h_kind h = VComment)
  ∨ (encoding = "opus" ∧ h_family h = OggOpus ∧ h_kind h = VComment).
Proof.
  intros Hopen. pose proof Hopen as [Hf Hk]. apply family_of_cases in Hf.
  destruct Hf as [[E Hf] | [[E Hf] | (Hin & _)]].
  - simpl in E. injection E as ->. rewrite Hf in Hk. auto.
  - simpl in E. injection E as ->. rewrite Hf in Hk. auto 6.
  - destruct Hopen as [Hf' _]. simpl in Hin, Hf'.
    destruct Hin as [E | [E | [E | []]]]; injection E as <-;
      injection Hf' as Hf'; rewrite <- Hf' in Hk; simpl in Hk; auto 10.
Qed.

(** X14: with a cover URL whose fetch succeeds, on a handle of the encoding,
    the cover embedder raises nothing and changes the album art only: the
    result has the file name, the family and the kind of the handle, and the
    same value under every key that is not an art key of the family.  The
    cover is a front-cover JPEG: on flac it is added to the pictures and the
    tags stay as they are; on ogg and opus it is the one value of
    [metadata_block_picture], the base-64 text of the picture block; on m4a
    it is the one value of [covr]; on mp3 it is the frame under [APIC]. *)
Theorem embed_cover_stores audio_file song encoding u cover_data :
  cover_url song = Some u → u ≠ "" → fetch u = Some cover_data →
  opened_as encoding audio_file →
  ∃ h',
    embed_cover fetch picture_write b64encode audio_file song encoding = Ok h'
    ∧ h_filename h' = h_filename audio_file
    ∧ h_family h' = h_family audio_file
    ∧ h_kind h' = h_kind audio_file
    ∧ (∀ key, art_key (h_family audio_file) key = false →
         h_tags h' !! key = h_tags audio_file !! key)
    ∧ (encoding = "flac" →
       h_tags h' = h_tags audio_file
       ∧ h_pictures h'
         = h_pictures audio_file ++ [Picture 3 "Cover" "image/jpeg" cover_data])
    ∧ (encoding ≠ "flac" → h_pictures h' = h_pictures audio_file)
    ∧ (encoding = "ogg" ∨ encoding = "opus" →
       h_tags h' !! "metadata_block_picture"
       = Some (PList [PStr (b64encode (picture_write
                              (Picture 3 "Cover" "image/jpeg" cover_data)))]))
    ∧ (encoding = "m4a" → h_tags h' !! "covr" = Some (PList [MP4Cover cover_data]))
    ∧ (encoding = "mp3" →
       h_tags h' !! "APIC" = Some (APIC "image/jpeg" 3 "Cover" cover_data)).
Proof.
  intros Hurl Hu Hfetch Hopen.
  assert (truthy (PStr u) = true) as Htruthy.
  { simpl. destruct (u == "") eqn:E; [apply String.eqb_eq in E; done | done]. }
  destruct audio_file as [k f n t p].
  unfold embed_cover. rewrite Hurl. simpl optional. rewrite Htruthy. simpl default.
  rewrite Hfetch.
  destruct (opened_as_cases _ _ Hopen)
    as [(-> & Hf & Hk) | [(-> & Hf & Hk) | [(-> & Hf & Hk) | [(-> & Hf & Hk) | (-> & Hf & Hk)]]]];
    simpl in Hf, Hk; rewrite Hf, Hk; rewrite ?Hf; clear Hopen;
    eexists; (split; [reflexivity |]); simpl.
  all: split_and!; try done.
  all: try (intros [? | ?]; done).
  all: unfold vcomment_set.
  all: try (intros key Hkey; rewrite lookup_insert_ne; [done | by intros <-]).
  all: intros _; apply lookup_insert_eq.
Qed.

End CoverStored.

Lemma embed_cover_stores_witness :
  ∃ h',
    embed_cover (fun _ => Some "JFIF") (fun _ => "block") (fun b => b)
      (demo_handle FLAC ".flac") demo_song "flac" = Ok h'
    ∧ h_tags h' = ∅
    ∧ h_pictures h' = [Picture 3 "Cover" "image/jpeg" "JFIF"].
Proof.
  destruct (embed_cover_stores (fun _ => Some "JFIF") (fun _ => "block") (fun b => b)
              (demo_handle FLAC ".flac") demo_song "flac"
              "https://i.scdn.co/image/x" "JFIF")
    as (h' & He & _ & _ & _ & _ & Hflac & _);
    [reflexivity | discriminate | reflexivity | split; reflexivity |].
  exists h'. split; [exact He |]. exact (Hflac eq_refl).
Defined.

(* ================================================================= *)
(** * The writer: what it keeps and what it refuses                 *)
(* ================================================================= *)

Section StaleTags.

Lemma falsy_optional o : truthy (optional o) = false → o = None ∨ o = Some "".
Proof. destruct o as [[| c s] |]; simpl; auto; discriminate. Qed.

(** X15: on flac, ogg and opus, [embed_metadata] succeeds on every file that
    loads, whatever its tags and whatever the song, and the file keeps its
    family and its pictures.  A tag outside the fourteen keys it assigns
    stays as it was; so do the album, genre, copyright, lyrics and comment
    tags when the song has no album name, no genre, no copyright text, no
    lyrics and no download URL: what an earlier song left there is not
    cleared.  A song without artists clears the artist tag. *)
Theorem embed_metadata_keeps_stale path song (d : disk) f t pictures :
  In (suffix path) [".flac"; ".ogg"; ".opus"] →
  family_of (suffix path) = Some f →
  d !! resolve path = Some (Audio f t pictures) →
  ∃ t',
    embed_metadata path song d = (Ok (), <[resolve path := Audio f t' pictures]> d)
    ∧ (∀ key, ¬ In key generic_keys → t' !! key = t !! key)
    ∧ (album_name song = "" → t' !! "album" = t !! "album")
    ∧ (genres song = [] → t' !! "genre" = t !! "genre")
    ∧ (copyright_text song = None ∨ copyright_text song = Some "" →
       t' !! "copyright" = t !! "copyright")
    ∧ (lyrics song = None ∨ lyrics song = Some "" → t' !! "lyrics" = t !! "lyrics")
    ∧ (download_url song = None ∨ download_url song = Some "" →
       t' !! "comment" = t !! "comment")
    ∧ (artists song = [] → t' !! "artist" = None).
Proof.
  intros Hsfx Hfam Hd.
  assert (Henc : elem_str (text_drop 1 (suffix path)) ["flac"; "ogg"; "opus"] = true).
  { simpl in Hsfx. by destruct Hsfx as [<- | [<- | [<- | []]]]. }
  assert (Hk : kind_of f false = VComment).
  { simpl in Hsfx. destruct Hsfx as [E | [E | [E | []]]]; rewrite <- E in Hfam;
      by injection Hfam as <-. }
  exists (vorbis_tags song t).
  split; [by apply embed_metadata_generic |].
  split_and!.
  - intros key Hkey.
    assert (Hne : ∀ k, In k generic_keys → k ≠ key) by (intros k Hin ->; done).
    unfold vorbis_tags.
    repeat first [ rewrite vcomment_set_ne by (apply Hne; in_fields)
                 | rewrite when_ne by (apply Hne; in_fields) ].
    reflexivity.
  - intros E. look vorbis_tags. by rewrite E.
  - intros E. look vorbis_tags. by rewrite E.
  - intros [E | E]; look vorbis_tags; by rewrite E.
  - intros [E | E]; look vorbis_tags; by rewrite E.
  - intros [E | E]; look vorbis_tags; by rewrite E.
  - intros E. look vorbis_tags. by rewrite E.
Qed.

End StaleTags.

Lemma embed_metadata_keeps_stale_witness :
  ∃ t',
    embed_metadata (demo_path ".flac") demo_solo
      (demo_disk ".flac" FLAC [("album", PList [PStr "Old album"]);
                               ("mood", PList [PStr "calm"])])
    = (Ok (), <[resolve (demo_path ".flac") := Audio FLAC t' []]>
                (demo_disk ".flac" FLAC [("album", PList [PStr "Old album"]);
                                         ("mood", PList [PStr "calm"])]))
    ∧ t' !! "album" = Some (PList [PStr "Old album"])
    ∧ t' !! "mood" = Some (PList [PStr "calm"]).
Proof.
  destruct (embed_metadata_keeps_stale (demo_path ".flac") demo_solo
              (demo_disk ".flac" FLAC [("album", PList [PStr "Old album"]);
                                       ("mood", PList [PStr "calm"])])
              FLAC
              (list_to_map [("album", PList [PStr "Old album"]);
                            ("mood", PList [PStr "calm"])]) [])
    as (t' & Hw & Hother & Halbum & _);
    [simpl; tauto | reflexivity | reflexivity |].
  exists t'. split; [exact Hw |]. split.
  - rewrite (Halbum eq_refl). reflexivity.
  - rewrite (Hother "mood"); [reflexivity |].
    simpl. intros H. repeat (destruct H as [H | H]; [discriminate H |]). exact H.
Defined.

Section Mp4Range.

(** X16: on m4a the track and the disc pairs are stored as pairs of 16-bit
    numbers: when a number or a count of the song is negative or above
    65535, the save is refused; [embed_metadata] raises the error of the tag
    library as it is (not [MetadataError]) and the file stays as it was. *)
Theorem embed_metadata_m4a_range path song (d : disk) t pictures :
  suffix path = ".m4a" →
  d !! resolve path = Some (Audio M4A t pictures) →
  pair_in_range (track_number song) (tracks_count song) = false
  ∨ pair_in_range (disc_number song) (disc_count song) = false →
  embed_metadata path song d = (Raise MP4MetadataValueError, d).
Proof.
  intros Hsfx Hd Hrange.
  unfold embed_metadata, io_bind, io_try, io_lift, io_ret, File.
  rewrite Hsfx. change (text_drop 1 ".m4a") with "m4a".
  rewrite Hd. simpl. rewrite embed_tags_mp4 by done. simpl.
  unfold save, persist. simpl. rewrite Hd.
  rewrite bool_decide_eq_false_2; [done |].
  intros Hall. destruct Hrange as [Hr | Hr].
  - apply (map_Forall_lookup_1 _ _ "trkn"
             (PList [PTuple [PInt (track_number song); PInt (tracks_count song)]]))
      in Hall; [| by look mp4_tags].
    unfold render in Hall. simpl in Hall. unfold render_pair in Hall. simpl in Hall.
    unfold pair_in_range in Hr. rewrite Hr in Hall. simpl in Hall.
    by destruct Hall.
  - apply (map_Forall_lookup_1 _ _ "disk"
             (PList [PTuple [PInt (disc_number song); PInt (disc_count song)]]))
      in Hall; [| by look mp4_tags].
    unfold render in Hall. simpl in Hall. unfold render_pair in Hall. simpl in Hall.
    unfold pair_in_range in Hr. rewrite Hr in Hall. simpl in Hall.
    by destruct Hall.
Qed.

End Mp4Range.

Lemma embed_metadata_m4a_range_witness :
  embed_metadata (demo_path ".m4a") demo_wide (demo_disk ".m4a" M4A [])
  = (Raise MP4MetadataValueError, demo_disk ".m4a" M4A []).
Proof.
  apply (embed_metadata_m4a_range (demo_path ".m4a") demo_wide
           (demo_disk ".m4a" M4A []) ∅ []);
    [reflexivity | reflexivity | left; reflexivity].
Defined.

Section UnknownSuffix.

Lemma embed_tags_basic encoding song h :
  h_kind h = VComment →
  elem_str encoding ["flac"; "ogg"; "opus"; "m4a"; "mp3"] = false →
  embed_tags TAG_PRESET encoding song h
  = Ok (with_tags h (basic_tags song (h_tags h))).
Proof.
  intros Hk Henc. unfold elem_str in Henc. simpl in Henc.
  rewrite !orb_false_r in Henc.
  apply orb_false_iff in Henc as [Hflac Henc].
  apply orb_false_iff in Henc as [Hogg Henc].
  apply orb_false_iff in Henc as [Hopus Henc].
  apply orb_false_iff in Henc as [Hm4a Hmp3].
  destruct h as [k f n t p]. simpl in Hk. subst k.
  unfold embed_tags, elem_str. simpl existsb.
  rewrite Hflac, Hogg, Hopus, Hm4a, Hmp3, !andb_true_r.
  rewrite !set_tag_generic by in_fields.
  unfold basic_tags, when, setitem, with_tags. simpl.
  destruct (negb (album_name song == "")), (0 <? length (genres song))%nat,
    (truthy (optional (copyright_text song))), (truthy (optional (lyrics song))),
    (truthy (optional (download_url song))); reflexivity.
Qed.

(** X17: the encoding is compared as it is written: for a file of the Vorbis
    kind whose suffix is none of the five ([.FLAC], [.oga]), [embed_metadata]
    succeeds and writes the basic tags (title, artists, date, ...), but the
    branch of no format is taken: the track number, the disc number and the
    URL of the song are not written, and the tags of these keys stay as they
    were. *)
Theorem embed_metadata_unknown_suffix path song (d : disk) f t pictures :
  elem_str (text_drop 1 (suffix path)) ["flac"; "ogg"; "opus"; "m4a"; "mp3"] = false →
  d !! resolve path = Some (Audio f t pictures) →
  kind_of f false = VComment →
  ∃ t',
    embed_metadata path song d = (Ok (), <[resolve path := Audio f t' pictures]> d)
    ∧ t' !! "title" = Some (PList [PStr (name song)])
    ∧ t' !! "artist" = vorbis_value (texts (artists song))
    ∧ t' !! "tracknumber" = t !! "tracknumber"
    ∧ t' !! "discnumber" = t !! "discnumber"
    ∧ t' !! "woas" = t !! "woas".
Proof.
  intros Henc Hd Hk. exists (basic_tags song t).
  split.
  - pose proof Henc as Henc'. unfold elem_str in Henc'. simpl in Henc'.
    rewrite !orb_false_r in Henc'.
    apply orb_false_iff in Henc' as [_ Henc'].
    apply orb_false_iff in Henc' as [_ Henc'].
    apply orb_false_iff in Henc' as [_ Henc'].
    apply orb_false_iff in Henc' as [Hm4a Hmp3].
    unfold embed_metadata, io_bind, io_try, io_lift, io_ret, File.
    rewrite Hd, Hm4a, Hmp3. simpl.
    rewrite embed_tags_basic by done. simpl.
    unfold save. simpl. rewrite Hd. by rewrite Hk.
  - split_and!; by look basic_tags.
Qed.

End UnknownSuffix.

Lemma embed_metadata_unknown_suffix_witness :
  ∃ t',
    embed_metadata (demo_path ".FLAC") demo_song (demo_disk ".FLAC" FLAC [])
    = (Ok (), <[resolve (demo_path ".FLAC") := Audio FLAC t' []]>
                (demo_disk ".FLAC" FLAC []))
    ∧ t' !! "title" = Some (PList [PStr "Title"])
    ∧ t' !! "tracknumber" = None
    ∧ t' !! "woas" = None.
Proof.
  destruct (embed_metadata_unknown_suffix (demo_path ".FLAC") demo_song
              (demo_disk ".FLAC" FLAC []) FLAC ∅ [])
    as (t' & Hw & Ht & _ & Htn & _ & Hu); [reflexivity | reflexivity | reflexivity |].
  exists t'. split; [exact Hw |]. split; [exact Ht |]. split; [exact Htn | exact Hu].
Defined.

(* ================================================================= *)
(** * The derived tables                                            *)
(* ================================================================= *)

Section DerivedTables.

Lemma dict_get_cases (d : table) key v :
  dict_get d key = Some v → In (key, v) d.
Proof.
  induction d as [| [k w] d IH]; simpl; [done |].
  destruct (k == key) eqn:E; [| auto].
  apply String.eqb_eq in E. intros [= <-]. subst. auto.
Qed.

(** X18: the two derived tables send the native key of every canonical key
    that has a song field to that field, with one exception: [date] and
    [year] share their native key ([©day], [TDRC]), the later entry
    replaces the earlier, and the native date key leads to [year]; no
    native key leads to [date].  A native key of a canonical key without
    song field (comment, explicit, ...) is not in the derived tables. *)
Theorem derived_tables :
  (∀ key native field,
     dict_get M4A_TAG_PRESET key = Some native →
     dict_get TAG_TO_SONG key = Some field →
     dict_get M4A_TO_SONG native = Some (if key == "date" then "year" else field))
  ∧ (∀ key native field,
       dict_get MP3_TAG_PRESET key = Some native →
       dict_get TAG_TO_SONG key = Some field →
       dict_get MP3_TO_SONG native = Some (if key == "date" then "year" else field))
  ∧ (∀ native, dict_get M4A_TO_SONG native ≠ Some "date")
  ∧ (∀ native, dict_get MP3_TO_SONG native ≠ Some "date")
  ∧ (∀ key native,
       dict_get M4A_TAG_PRESET key = Some native →
       dict_get TAG_TO_SONG key = None → dict_get M4A_TO_SONG native = None)
  ∧ (∀ key native,
       dict_get MP3_TAG_PRESET key = Some native →
       dict_get TAG_TO_SONG key = None → dict_get MP3_TO_SONG native = None).
Proof.
  split_and!.
  - intros key native field Hn%dict_get_cases Hf. simpl in Hn.
    repeat (destruct Hn as [[= <- <-] | Hn];
            [vm_compute in Hf; first [discriminate Hf | by injection Hf as <-] |]).
    done.
  - intros key native field Hn%dict_get_cases Hf. simpl in Hn.
    repeat (destruct Hn as [[= <- <-] | Hn];
            [vm_compute in Hf; first [discriminate Hf | by injection Hf as <-] |]).
    done.
  - intros native Hn%dict_get_cases. vm_compute in Hn.
    repeat (destruct Hn as [[=] | Hn]). done.
  - intros native Hn%dict_get_cases. vm_compute in Hn.
    repeat (destruct Hn as [[=] | Hn]). done.
  - intros key native Hn%dict_get_cases Hf. simpl in Hn.
    repeat (destruct Hn as [[= <- <-] | Hn];
            [vm_compute in Hf; first [discriminate Hf | reflexivity] |]).
    done.
  - intros key native Hn%dict_get_cases Hf. simpl in Hn.
    repeat (destruct Hn as [[= <- <-] | Hn];
            [vm_compute in Hf; first [discriminate Hf | reflexivity] |]).
    done.
Qed.

End DerivedTables.

Lemma derived_tables_witness :
  dict_get M4A_TO_SONG "©day" = Some "year"
  ∧ dict_get MP3_TO_SONG "TIT2" = Some "name"
  ∧ dict_get M4A_TO_SONG "©cmt" = None.
Proof.
  destruct derived_tables as (Hm4a & Hmp3 & _ & _ & Hnone & _).
  split; [exact (Hm4a "date" "©day" "date" eq_refl eq_refl) |].
  split; [exact (Hmp3 "title" "TIT2" "name" eq_refl eq_refl) |].
  exact (Hnone "comment" "©cmt" eq_refl eq_refl).
Defined.
